(** * asn1-ts: the BER and CER element codecs

    A shallow embedding of [source/codecs/ber.ts] (class [BERElement]) and of
    the fragmenting setter of [CERElement], with the properties of the
    tag-length-value framing, of the BOOLEAN codec, of the
    constructed-string engine and of the typed setters. *)

From Stdlib Require Import ZArith List Bool Lia.
From Stdlib Require Import Strings.Byte.
From Stdlib Require Floats.SpecFloat.
Import ListNotations.
Local Open Scope Z_scope.

(** ** JavaScript numbers and typed arrays *)

(** A [Uint8Array] is a sequence of octets; [x24], [xff], ... are the octets
    written in hexadecimal. *)
Definition Uint8Array : Type := list byte.

(** The numeric value of an octet. *)
Definition toZ (b : byte) : Z := Z.of_N (Byte.to_N b).

(** Storing a number into a [Uint8Array] keeps it modulo 256. *)
Definition ToUint8 (z : Z) : byte :=
  match Byte.of_N (Z.to_N (z mod 256)) with
  | Some b => b
  | None => x00
  end.

(** [ToInt32] and [ToUint32] of ECMAScript, on integers. *)
Definition ToInt32 (z : Z) : Z := (z + 2 ^ 31) mod 2 ^ 32 - 2 ^ 31.
Definition ToUint32 (z : Z) : Z := z mod 2 ^ 32.

(** [a << n] and [a >>> n] for a shift count [0 <= n < 32]. *)
Definition shl (a n : Z) : Z := ToInt32 (Z.shiftl a n).
Definition ushr (a n : Z) : Z := Z.shiftr (ToUint32 a) n.

(** [bytes.length]. *)
Definition len {A} (l : list A) : Z := Z.of_nat (length l).

(** [bytes[i]]: [None] is JavaScript's [undefined]. *)
Definition at_ (bytes : Uint8Array) (i : Z) : option byte :=
  if i <? 0 then None else nth_error bytes (Z.to_nat i).

(** The number an indexed read contributes to [&]: [undefined & m] is [0]. *)
Definition num (o : option byte) : Z :=
  match o with
  | Some b => toZ b
  | None => 0
  end.

(** [bytes[i] === v] and [bytes[i] !== v]; [undefined] equals no number. *)
Definition strictEq (o : option byte) (v : Z) : bool :=
  match o with
  | Some b => toZ b =? v
  | None => false
  end.

(** [bytes.slice(start, end)], with the relative indices of ECMAScript. *)
Definition relIndex (length k : Z) : Z :=
  if k <? 0 then Z.max (length + k) 0 else Z.min k length.

Definition slice {A} (bytes : list A) (start end_ : Z) : list A :=
  let s := relIndex (len bytes) start in
  let e := relIndex (len bytes) end_ in
  firstn (Z.to_nat (e - s)) (skipn (Z.to_nat s) bytes).

(** [bytes.slice(start)]. *)
Definition sliceFrom {A} (bytes : list A) (start : Z) : list A :=
  slice bytes start (len bytes).

(** ** Errors

    The classes of [source/errors], by kind, and the [RangeError] of
    ECMAScript, which [new Uint8Array(length)] throws for a negative
    [length]. *)
Inductive ASN1ErrorKind : Type :=
| ASN1Error
| ASN1TruncationError
| ASN1OverflowError
| ASN1PaddingError
| ASN1ConstructionError
| ASN1SizeError
| ASN1UndefinedError
| ASN1RecursionError
| ASN1CharactersError
| RangeError.

(** The outcome of a method: a returned value or a thrown error.  [OutOfFuel]
    is the outcome of a [while] loop cut short by its iteration bound; the
    decoders never produce it ([fromBytes_total], [sequence_total]). *)
Inductive outcome (A : Type) : Type :=
| Return (a : A)
| Throw (e : ASN1ErrorKind)
| OutOfFuel.
Arguments Return {A} a.
Arguments Throw {A} e.
Arguments OutOfFuel {A}.

Definition bind {A B} (m : outcome A) (k : A -> outcome B) : outcome B :=
  match m with
  | Return a => k a
  | Throw e => Throw e
  | OutOfFuel => OutOfFuel
  end.

Declare Scope outcome_scope.
Delimit Scope outcome_scope with outcome.
Notation "x <- m ;; k" := (bind m (fun x => k))
  (at level 61, m at next level, right associativity) : outcome_scope.
Notation "' p <- m ;; k" := (bind m (fun x => let p := x in k))
  (at level 61, p pattern, m at next level, right associativity) : outcome_scope.
Local Open Scope outcome_scope.

(** [array.forEach(f)] collecting the results, left to right; the first throw
    ends the iteration. *)
Fixpoint forEach {A B} (f : A -> outcome B) (l : list A) : outcome (list B) :=
  match l with
  | [] => Return []
  | x :: l' => y <- f x ;; ys <- forEach f l' ;; Return (y :: ys)
  end.

(** ** Values of [source/values] *)

(** Modelled from the spec: [ASN1TagClass] of [source/values], which is not
    among the sources; its members are the four classes of bits 7-6 of the
    identifier octet, numbered as [fromBytes] reads them. *)
Inductive ASN1TagClass : Type := universal | application | context | private.

Definition tagClassCode (c : ASN1TagClass) : Z :=
  match c with
  | universal => 0
  | application => 1
  | context => 2
  | private => 3
  end.

(** Modelled from the spec: [ASN1Construction] of [source/values]; bit 5 of
    the identifier octet. *)
Inductive ASN1Construction : Type := primitive | constructed.

Definition constructionCode (c : ASN1Construction) : Z :=
  match c with
  | primitive => 0
  | constructed => 1
  end.

(** Modelled from the spec: [LengthEncodingPreference] of [source/values]. *)
Inductive LengthEncodingPreference : Type := definite | indefinite.

(** Modelled from the spec: [ASN1UniversalType.endOfContent], the tag number
    of the end-of-contents marker [00 00]. *)
Definition endOfContent : Z := 0.

(** Modelled from the spec: [ASN1Element.nestingRecursionLimit], declared in
    [dist/asn1.d.ts] without its value; the spec fixes it at 5. *)
Definition nestingRecursionLimit : Z := 5.

Definition ASN1TagClass_eqb (a b : ASN1TagClass) : bool :=
  tagClassCode a =? tagClassCode b.

Definition ASN1Construction_eqb (a b : ASN1Construction) : bool :=
  constructionCode a =? constructionCode b.

(** ** [ASN1Element]

    The fields of an element, declared in [dist/asn1.d.ts] and shared by
    [BERElement] and [CERElement]. *)
Record ASN1Element : Type := mkElement {
  recursionCount : Z;
  tagClass : ASN1TagClass;
  construction : ASN1Construction;
  tagNumber : Z;
  value : Uint8Array
}.

(** Modelled from the spec: the initial [recursionCount] of an element, set
    in [source/asn1], which is not among the sources; the spec's transient
    recursion depth starts at 0. *)
Definition initialRecursionCount : Z := 0.

Definition set_value (this : ASN1Element) (v : Uint8Array) : ASN1Element :=
  mkElement (recursionCount this) (tagClass this) (construction this)
    (tagNumber this) v.

Definition set_construction (this : ASN1Element) (c : ASN1Construction)
    : ASN1Element :=
  mkElement (recursionCount this) (tagClass this) c (tagNumber this)
    (value this).

Definition set_recursionCount (this : ASN1Element) (n : Z) : ASN1Element :=
  mkElement n (tagClass this) (construction this) (tagNumber this)
    (value this).

(** ** [BERElement] *)

Module BERElement.

Definition t : Type := ASN1Element.

(** [new BERElement(tagClass, construction, tagNumber)]. *)
Definition new (tagClass : ASN1TagClass) (construction : ASN1Construction)
    (tagNumber : Z) : t :=
  mkElement initialRecursionCount tagClass construction tagNumber [].

(** [new BERElement()]. *)
Definition new_default : t := new universal primitive 0.

(** *** [toBytes] *)

(** [encodedNumber[0] |= m], after an [unshift]. *)
Definition orFirst (m : Z) (l : list Z) : list Z :=
  match l with
  | [] => []
  | x :: l' => Z.lor x m :: l'
  end.

(** [encodedNumber[encodedNumber.length - 1] &= m]. *)
Fixpoint andLast (m : Z) (l : list Z) : list Z :=
  match l with
  | [] => []
  | [x] => [Z.land x m]
  | x :: l' => x :: andLast m l'
  end.

(** The loop [while (number !== 0)] of [toBytes].  [number >>>= 7] leaves a
    number below [2 ^ 25], so the loop ends within five rounds
    ([encodeTagNumber_rounds]). *)
Fixpoint encodeTagNumber (rounds : nat) (number : Z) (encodedNumber : list Z)
    : list Z :=
  match rounds with
  | O => encodedNumber
  | S rounds' =>
      if number =? 0 then encodedNumber
      else
        let encodedNumber := Z.land (ToInt32 number) 0x7F :: encodedNumber in
        let number := ushr number 7 in
        let encodedNumber := orFirst 0x80 encodedNumber in
        encodeTagNumber rounds' number encodedNumber
  end.

(** The identifier octets: [tagBytes]. *)
Definition tagBytes (this : t) : list Z :=
  let b0 := 0x00 in
  let b0 := Z.lor b0 (shl (tagClassCode (tagClass this)) 6) in
  let b0 := Z.lor b0 (shl (constructionCode (construction this)) 5) in
  if tagNumber this <? 31 then [Z.lor b0 (tagNumber this)]
  else
    let b0 := Z.lor b0 0x1F in
    let encodedNumber := encodeTagNumber 5 (tagNumber this) [] in
    let encodedNumber := andLast 0x7F encodedNumber in
    b0 :: encodedNumber.

(** The length octets under [LengthEncodingPreference.definite], for a value
    of [length] octets. *)
Definition definiteLengthOctets (length : Z) : list Z :=
  if length <? 127 then [length]
  else
    let lengthOctets :=
      map (fun i => Z.land (ushr length (shl (3 - i) 3)) 0xFF) [0; 1; 2; 3] in
    let startOfNonPadding :=
      fold_left
        (fun start i =>
           if nth (Z.to_nat i) lengthOctets 0 =? 0x00 then start + 1 else start)
        [0; 1; 2] 0 in
    let lengthOctets := sliceFrom lengthOctets startOfNonPadding in
    Z.lor 0x80 (len lengthOctets) :: lengthOctets.

Definition lengthOctets (preference : LengthEncodingPreference) (this : t)
    : list Z :=
  match preference with
  | definite => definiteLengthOctets (len (value this))
  | indefinite => [0x80]
  end.

(** [toBytes()], under the static [BERElement.lengthEncodingPreference].  The
    result array is allocated zero-filled, two octets longer under the
    indefinite preference. *)
Definition toBytes (preference : LengthEncodingPreference) (this : t)
    : Uint8Array :=
  map ToUint8 (tagBytes this)
  ++ map ToUint8 (lengthOctets preference this)
  ++ value this
  ++ match preference with
     | definite => []
     | indefinite => [x00; x00]
     end.

(** *** [fromBytes] *)

(** [while (cursor < limit) { if (!(bytes[cursor++] & 0x80)) break; }]; at
    most [limit] rounds, the cursor growing by one in each. *)
Fixpoint skipTagNumber (rounds : nat) (bytes : Uint8Array) (limit cursor : Z)
    : Z :=
  match rounds with
  | O => cursor
  | S rounds' =>
      if cursor <? limit then
        let b := num (at_ bytes cursor) in
        let cursor := cursor + 1 in
        if Z.land b 0x80 =? 0 then cursor
        else skipTagNumber rounds' bytes limit cursor
      else cursor
  end.

(** [for (i = 1; i < cursor; i++) { tagNumber <<= 7; tagNumber |= (bytes[i] & 0x7F); }]. *)
Definition decodeTagNumber (bytes : Uint8Array) (cursor : Z) : Z :=
  fold_left
    (fun tagNumber i =>
       let tagNumber := shl tagNumber 7 in
       Z.lor tagNumber (Z.land (num (at_ bytes i)) 0x7F))
    (map Z.of_nat (seq 1 (Z.to_nat cursor - 1))) 0.

(** [lengthNumberOctets]: four octets, the last [numberOfLengthOctets] of them
    read from [bytes] at the cursor. *)
Definition lengthNumberOctets (bytes : Uint8Array) (cursor n : Z) : list Z :=
  map (fun k =>
         let i := 4 - k in
         if (0 <? i) && (i <=? n)
         then toZ (ToUint8 (num (at_ bytes (cursor + n - i))))
         else 0)
      [0; 1; 2; 3].

(** [lengthNumberOctets.forEach((octet) => { length <<= 8; length += octet; })]. *)
Definition decodeLength (octets : list Z) : Z :=
  fold_left (fun length octet => shl length 8 + octet) octets 0.

(** The test on a child that ends the scan of an indefinite-length element. *)
Definition isEndOfContent (child : t) : bool :=
  ASN1TagClass_eqb (tagClass child) universal
  && ASN1Construction_eqb (construction child) primitive
  && (tagNumber child =? endOfContent)
  && (len (value child) =? 0).

(** The body of [if (this.tagNumber >= 31)]: the tag number in long form and
    the cursor past it. *)
Definition decodeLongTagNumber (bytes : Uint8Array) (cursor : Z)
    : outcome (Z * Z) :=
  if strictEq (at_ bytes cursor) 0x80 then Throw ASN1PaddingError
  else
    let limit := if len bytes - 1 >=? 4 then 4 else len bytes - 1 in
    let cursor := skipTagNumber (Z.to_nat limit) bytes limit cursor in
    if negb (Z.land (num (at_ bytes (cursor - 1))) 0x80 =? 0) then
      if limit =? len bytes - 1 then Throw ASN1TruncationError
      else Throw ASN1OverflowError
    else
      let tagNumber := decodeTagNumber bytes cursor in
      if tagNumber <=? 31 then Throw ASN1Error
      else Return (tagNumber, cursor).

Section Children.

(** [child.fromBytes], for the children of the element being decoded. *)
Variable child_fromBytes : Uint8Array -> outcome (t * Z).

(** The loop [while (sentinel < bytes.length)] over the children of an
    indefinite-length element; it returns the final [sentinel].  Every
    decoded child takes at least two octets, so the loop ends within
    [bytes.length] rounds. *)
Fixpoint scanChildren (rounds : nat) (bytes : Uint8Array) (sentinel : Z)
    : outcome Z :=
  match rounds with
  | O => OutOfFuel
  | S rounds' =>
      if sentinel <? len bytes then
        '(child, n) <- child_fromBytes (sliceFrom bytes sentinel) ;;
        let sentinel := sentinel + n in
        if isEndOfContent child then Return sentinel
        else scanChildren rounds' bytes sentinel
      else Return sentinel
  end.

(** [fromBytes] from the comment [// Length] on: [this] has its tag fields
    set and [cursor] is at the first length octet. *)
Definition decodeLengthAndValue (this : t) (bytes : Uint8Array) (cursor : Z)
    : outcome (t * Z) :=
  if Z.land (num (at_ bytes cursor)) 0x80 =? 0x80 then
    let numberOfLengthOctets := Z.land (num (at_ bytes cursor)) 0x7F in
    if negb (numberOfLengthOctets =? 0) then
      if numberOfLengthOctets =? 0x7F then Throw ASN1UndefinedError
      else if numberOfLengthOctets >? 4 then Throw ASN1OverflowError
      else if cursor + numberOfLengthOctets >=? len bytes
      then Throw ASN1TruncationError
      else
        let cursor := cursor + 1 in
        let length :=
          decodeLength (lengthNumberOctets bytes cursor numberOfLengthOctets) in
        if cursor + length <? cursor then Throw ASN1OverflowError
        else
          let cursor := cursor + numberOfLengthOctets in
          if cursor + length >? len bytes then Throw ASN1TruncationError
          else
            Return (set_value this (slice bytes cursor (cursor + length)),
                    cursor + length)
    else
      if negb (ASN1Construction_eqb (construction this) constructed)
      then Throw ASN1ConstructionError
      else
        let cursor := cursor + 1 in
        let startOfValue := cursor in
        sentinel <- scanChildren (S (length bytes)) bytes cursor ;;
        if (sentinel =? len bytes)
           && (negb (strictEq (at_ bytes (sentinel - 1)) 0x00)
               || negb (strictEq (at_ bytes (sentinel - 2)) 0x00))
        then Throw ASN1TruncationError
        else
          Return (set_value this (slice bytes startOfValue (sentinel - 2)),
                  sentinel)
  else
    let length := Z.land (num (at_ bytes cursor)) 0x7F in
    let cursor := cursor + 1 in
    if cursor + length >? len bytes then Throw ASN1TruncationError
    else
      Return (set_value this (slice bytes cursor (cursor + length)),
              cursor + length).

(** [fromBytes] past its two entry checks. *)
Definition fromBytes_body (this : t) (bytes : Uint8Array) : outcome (t * Z) :=
  let cursor := 0 in
  let b0 := num (at_ bytes cursor) in
  let tagClass :=
    match Z.land b0 0xC0 with
    | 0x00 => universal
    | 0x40 => application
    | 0x80 => context
    | 0xC0 => private
    | _ => universal
    end in
  let construction :=
    if Z.land b0 0x20 =? 0 then primitive else constructed in
  let tagNumber := Z.land b0 0x1F in
  let cursor := cursor + 1 in
  '(tagNumber, cursor) <-
    (if tagNumber >=? 31 then decodeLongTagNumber bytes cursor
     else Return (tagNumber, cursor)) ;;
  let this :=
    mkElement (recursionCount this) tagClass construction tagNumber
      (value this) in
  decodeLengthAndValue this bytes cursor.

End Children.

(** A child of an indefinite-length element: [new BERElement()] with
    [child.recursionCount = this.recursionCount + 1]. *)
Definition newChild (this : t) : t :=
  set_recursionCount new_default (recursionCount this + 1).

(** [fromBytes] by the number of levels left:
    [remaining = nestingRecursionLimit - recursionCount], so that the guard
    [(this.recursionCount + 1) > nestingRecursionLimit] is [remaining = 0]
    and a child, one level deeper, has one level less ([fromBytes_unfold]). *)
Fixpoint fromBytes_at (remaining : nat) (this : t) (bytes : Uint8Array)
    : outcome (t * Z) :=
  if len bytes <? 2 then Throw ASN1TruncationError
  else
    match remaining with
    | O => Throw ASN1RecursionError
    | S remaining' =>
        fromBytes_body (fromBytes_at remaining' (newChild this)) this bytes
    end.

(** [this.fromBytes(bytes)]: the element as decoded and the number of octets
    read. *)
Definition fromBytes (this : t) (bytes : Uint8Array) : outcome (t * Z) :=
  fromBytes_at (Z.to_nat (nestingRecursionLimit - recursionCount this)) this bytes.

(** *** [boolean] *)

(** [set boolean (value)]. *)
Definition set_boolean (this : t) (v : bool) : t :=
  set_value this [ToUint8 (if v then 0xFF else 0x00)].

(** [get boolean ()]. *)
Definition boolean (this : t) : outcome bool :=
  if negb (ASN1Construction_eqb (construction this) primitive)
  then Throw ASN1ConstructionError
  else if negb (len (value this) =? 1) then Throw ASN1SizeError
  else Return (negb (strictEq (at_ (value this) 0) 0)).

(** *** [sequence] *)

(** The loop [while (i < this.value.length)] of the [sequence] getter: each
    round decodes one element at [i] into a [new BERElement()]. *)
Fixpoint decodeElements (rounds : nat) (value : Uint8Array) (i : Z)
    : outcome (list t) :=
  match rounds with
  | O => OutOfFuel
  | S rounds' =>
      if i <? len value then
        '(next, n) <- fromBytes new_default (sliceFrom value i) ;;
        encodedElements <- decodeElements rounds' value (i + n) ;;
        Return (next :: encodedElements)
      else Return []
  end.

(** [get sequence ()]. *)
Definition sequence (this : t) : outcome (list t) :=
  if negb (ASN1Construction_eqb (construction this) constructed)
  then Throw ASN1ConstructionError
  else if len (value this) =? 0 then Return []
  else decodeElements (S (length (value this))) (value this) 0.

(** *** [octetString] and [deconstruct] *)

(** [set octetString (value)]. *)
Definition set_octetString (this : t) (v : Uint8Array) : t := set_value this v.

(** [set teletexString (value)] and [set videotexString (value)]: the
    statement of the [octetString] setter. *)
Definition set_teletexString (this : t) (v : Uint8Array) : t := set_value this v.

Definition set_videotexString (this : t) (v : Uint8Array) : t := set_value this v.

(** The test of [deconstruct] and of the [bitString] getter on a substring:
    [ASN1ConstructionError] when its tag class or number is not the outer
    element's. *)
Definition checkSubstring (this substring : t) : outcome unit :=
  if negb (ASN1TagClass_eqb (tagClass substring) (tagClass this))
  then Throw ASN1ConstructionError
  else if negb (tagNumber substring =? tagNumber this)
  then Throw ASN1ConstructionError
  else Return tt.

(** [deconstruct] by the number of levels left, as [fromBytes_at]: the guard
    [(this.recursionCount + 1) > nestingRecursionLimit] is [remaining = 0]
    ([deconstruct_unfold]). *)
Fixpoint deconstruct_at (remaining : nat) (this : t) : outcome Uint8Array :=
  match construction this with
  | primitive => Return (value this)
  | constructed =>
      match remaining with
      | O => Throw ASN1RecursionError
      | S remaining' =>
          substrings <- sequence this ;;
          appendy <-
            forEach
              (fun substring =>
                 _ <- checkSubstring this substring ;;
                 deconstruct_at remaining'
                   (set_recursionCount substring (recursionCount this + 1)))
              substrings ;;
          Return (concat appendy)
      end
  end.

(** [this.deconstruct(dataType)]; [dataType] only words the error message. *)
Definition deconstruct (this : t) : outcome Uint8Array :=
  deconstruct_at (Z.to_nat (nestingRecursionLimit - recursionCount this)) this.

(** [get octetString ()]. *)
Definition octetString (this : t) : outcome Uint8Array := deconstruct this.

(** *** [bitString] *)

(** The eight booleans of an octet, most significant bit first. *)
Definition bitsOfOctet (b : byte) : list bool :=
  map (fun mask => negb (Z.land (toZ b) mask =? 0))
      [0x80; 0x40; 0x20; 0x10; 0x08; 0x04; 0x02; 0x01].

(** The primitive branch of the [bitString] getter. *)
Definition bitString_primitive (this : t) : outcome (list bool) :=
  if len (value this) =? 0 then Throw ASN1Error
  else if (len (value this) =? 1) && negb (strictEq (at_ (value this) 0) 0)
  then Throw ASN1Error
  else if num (at_ (value this) 0) >? 7 then Throw ASN1Error
  else
    let ret := flat_map bitsOfOctet (sliceFrom (value this) 1) in
    Return (firstn (Z.to_nat (len ret - num (at_ (value this) 0))) ret).

(** The test on the substrings before the last: a primitive one with a
    non-empty value must start with a zero octet. *)
Definition checkAligned (substring : t) : outcome unit :=
  if ASN1Construction_eqb (construction substring) primitive
     && (len (value substring) >? 0)
     && negb (strictEq (at_ (value substring) 0) 0x00)
  then Throw ASN1Error
  else Return tt.

(** The [bitString] getter by the number of levels left, as [deconstruct_at]. *)
Fixpoint bitString_at (remaining : nat) (this : t) : outcome (list bool) :=
  match construction this with
  | primitive => bitString_primitive this
  | constructed =>
      match remaining with
      | O => Throw ASN1RecursionError
      | S remaining' =>
          substrings <- sequence this ;;
          _ <- forEach checkAligned
                 (slice substrings 0 (len substrings - 1)) ;;
          appendy <-
            forEach
              (fun substring =>
                 _ <- checkSubstring this substring ;;
                 bitString_at remaining'
                   (set_recursionCount substring (recursionCount this + 1)))
              substrings ;;
          Return (concat appendy)
      end
  end.

(** [get bitString ()]. *)
Definition bitString (this : t) : outcome (list bool) :=
  bitString_at (Z.to_nat (nestingRecursionLimit - recursionCount this)) this.

(** [pre[k] |= m] on the plain array [pre]: a hole reads as [undefined],
    which [|] takes for 0, and a write past the end extends the array; a
    hole is copied into a [Uint8Array] as 0. *)
Fixpoint orAt (pre : list Z) (k : nat) (m : Z) : list Z :=
  match k, pre with
  | O, [] => [Z.lor 0 m]
  | O, x :: pre' => Z.lor x m :: pre'
  | S k', [] => 0 :: orAt [] k' m
  | S k', x :: pre' => x :: orAt pre' k' m
  end.

(** The loop [for (let i = 0; i < value.length; i++)] of the [bitString]
    setter, from index [i] on: a [false] bit is skipped. *)
Fixpoint setBits (value : list bool) (i : Z) (pre : list Z) : list Z :=
  match value with
  | [] => pre
  | b :: value' =>
      let pre :=
        if b then orAt pre (Z.to_nat (ushr i 3 + 1)) (ushr 0x80 (i mod 8))
        else pre in
      setBits value' (i + 1) pre
  end.

(** [set bitString (value)].  The assignment of an empty [Uint8Array] for an
    empty [value] is overwritten by the one that ends the setter. *)
Definition set_bitString (this : t) (value : list bool) : t :=
  let pre :=
    repeat 0
      (Z.to_nat
         (ushr (len value) 3 + (if negb (len value mod 8 =? 0) then 1 else 0)
          + 1)) in
  let pre := setBits value 0 pre in
  let pre0 := 8 - len value mod 8 in
  let pre0 := if pre0 =? 8 then 0 else pre0 in
  set_value this (map ToUint8 (pre0 :: tl pre)).

(** *** [sequence], the setter *)

(** [set sequence (value)], under the static
    [BERElement.lengthEncodingPreference]: the encodings of the elements, one
    after the other. *)
Definition set_sequence (preference : LengthEncodingPreference) (this : t)
    (elements : list t) : t :=
  set_construction
    (set_value this (concat (map (toBytes preference) elements)))
    constructed.

(** *** [universalString] *)

(** A JavaScript string: its UTF-16 code units, numbers below 65536. *)
Definition JSString : Type := list Z.

(** [String.fromCharCode(n)]: the code unit [ToUint16(n)]. *)
Definition fromCharCode (n : Z) : Z := n mod 65536.

(** [new Uint8Array(length)] for the 32-bit integer [length] that a shift
    gives: zero octets, and [RangeError] for a negative length. *)
Definition newUint8Array (length : Z) : outcome Uint8Array :=
  if length <? 0 then Throw RangeError
  else Return (repeat x00 (Z.to_nat length)).

(** [buf[k] = v] on a [Uint8Array]: the number is stored modulo 256, and a
    write outside of the array is ignored. *)
Definition store (buf : Uint8Array) (k v : Z) : Uint8Array :=
  if (0 <=? k) && (k <? len buf)
  then firstn (Z.to_nat k) buf ++ ToUint8 v :: skipn (S (Z.to_nat k)) buf
  else buf.

(** The loop [for (let i = 0; i < value.length; i++)] of the
    [universalString] setter, from index [i] on, [charCode] being
    [value.charCodeAt(i)]. *)
Fixpoint storeUniversal (value : JSString) (i : Z) (buf : Uint8Array)
    : Uint8Array :=
  match value with
  | [] => buf
  | charCode :: value' =>
      let buf := store buf (shl i 2) (ushr charCode 24) in
      let buf := store buf (shl i 2 + 1) (ushr charCode 16) in
      let buf := store buf (shl i 2 + 2) (ushr charCode 8) in
      let buf := store buf (shl i 2 + 3) charCode in
      storeUniversal value' (i + 1) buf
  end.

(** The buffer that [set universalString (value)] fills:
    [new Uint8Array(value.length << 2)] and the loop. *)
Definition universalOctets (value : JSString) : outcome Uint8Array :=
  buf <- newUint8Array (shl (len value) 2) ;;
  Return (storeUniversal value 0 buf).

(** [set universalString (value)]. *)
Definition set_universalString (this : t) (value : JSString) : outcome t :=
  buf <- universalOctets value ;;
  Return (set_value this buf).

(** The loop [for (let i = 0; i < valueBytes.length; i += 4)] of the getter;
    the test on the length before it leaves whole groups of four octets. *)
Fixpoint universalChars (valueBytes : Uint8Array) : JSString :=
  match valueBytes with
  | b0 :: b1 :: b2 :: b3 :: valueBytes' =>
      fromCharCode
        (shl (toZ b0) 24 + shl (toZ b1) 16 + shl (toZ b2) 8 + shl (toZ b3) 0)
      :: universalChars valueBytes'
  | _ => []
  end.

(** [get universalString ()]. *)
Definition universalString (this : t) : outcome JSString :=
  valueBytes <- deconstruct this ;;
  if negb (len valueBytes mod 4 =? 0) then Throw ASN1Error
  else Return (universalChars valueBytes).

(** *** [bmpString], the setter *)

(** The loop [for (let i = 0, strLen = value.length; i < strLen; i++)] of the
    [bmpString] setter, from index [i] on. *)
Fixpoint storeBMP (value : JSString) (i : Z) (buf : Uint8Array) : Uint8Array :=
  match value with
  | [] => buf
  | charCode :: value' =>
      let buf := store buf (shl i 1) (ushr charCode 8) in
      let buf := store buf (shl i 1 + 1) charCode in
      storeBMP value' (i + 1) buf
  end.

(** [set bmpString (value)]. *)
Definition set_bmpString (this : t) (value : JSString) : outcome t :=
  buf <- newUint8Array (shl (len value) 1) ;;
  Return (set_value this (storeBMP value 0 buf)).

(** *** Numbers, dates and their strings *)

(** A JavaScript number: an IEEE 754 value, by its sign, mantissa and
    exponent. *)
Definition number : Type := SpecFloat.spec_float.

(** [isNaN(value)]. *)
Definition isNaN (value : number) : bool :=
  match value with
  | SpecFloat.S754_nan => true
  | _ => false
  end.

(** The numbers [0.0], [-0.0], [Infinity] and [-Infinity]; [a === b] on
    numbers is the equality of IEEE 754, [SpecFloat.SFeqb]. *)
Definition plusZero : number := SpecFloat.S754_zero false.
Definition negativeZero : number := SpecFloat.S754_zero true.
Definition Infinity : number := SpecFloat.S754_infinity false.
Definition negativeInfinity : number := SpecFloat.S754_infinity true.

(** Modelled from the spec: [ASN1SpecialRealValue] of [source/values], which
    is not among the sources: the octet of a special real value, [40] for
    plus infinity, [41] for minus infinity, [42] for not-a-number and [43]
    for minus zero. *)
Definition plusInfinity : Z := 0x40.
Definition minusInfinity : Z := 0x41.
Definition notANumber : Z := 0x42.
Definition minusZero : Z := 0x43.

(** A [Date], by what its UTC getters return: six integers (the year
    between -271821 and 275760, the month from 0 to 11), or [NaN] from every
    getter of an invalid date.  The result of a getter is [None] for
    [NaN]. *)
Inductive Date : Type :=
| InvalidDate
| UTC (fullYear month date hours minutes seconds : Z).

Definition getUTCFullYear (value : Date) : option Z :=
  match value with
  | InvalidDate => None
  | UTC fullYear _ _ _ _ _ => Some fullYear
  end.

Definition getUTCMonth (value : Date) : option Z :=
  match value with
  | InvalidDate => None
  | UTC _ month _ _ _ _ => Some month
  end.

Definition getUTCDate (value : Date) : option Z :=
  match value with
  | InvalidDate => None
  | UTC _ _ date _ _ _ => Some date
  end.

Definition getUTCHours (value : Date) : option Z :=
  match value with
  | InvalidDate => None
  | UTC _ _ _ hours _ _ => Some hours
  end.

Definition getUTCMinutes (value : Date) : option Z :=
  match value with
  | InvalidDate => None
  | UTC _ _ _ _ minutes _ => Some minutes
  end.

Definition getUTCSeconds (value : Date) : option Z :=
  match value with
  | InvalidDate => None
  | UTC _ _ _ _ _ seconds => Some seconds
  end.

(** [n < k] and [n + k] on such a result: a comparison with [NaN] is false
    and a sum with [NaN] is [NaN]. *)
Definition numberLessThan (n : option Z) (k : Z) : bool :=
  match n with
  | Some z => z <? k
  | None => false
  end.

Definition numberPlus (n : option Z) (k : Z) : option Z :=
  match n with
  | Some z => Some (z + k)
  | None => None
  end.

(** The decimal digits of a natural number, as code units. *)
Fixpoint digits (d : Decimal.uint) : JSString :=
  match d with
  | Decimal.Nil => []
  | Decimal.D0 d => 0x30 :: digits d
  | Decimal.D1 d => 0x31 :: digits d
  | Decimal.D2 d => 0x32 :: digits d
  | Decimal.D3 d => 0x33 :: digits d
  | Decimal.D4 d => 0x34 :: digits d
  | Decimal.D5 d => 0x35 :: digits d
  | Decimal.D6 d => 0x36 :: digits d
  | Decimal.D7 d => 0x37 :: digits d
  | Decimal.D8 d => 0x38 :: digits d
  | Decimal.D9 d => 0x39 :: digits d
  end.

(** [n.toString()] and [`${n}`] for the result of a getter of a [Date], an
    integer of six digits at most or [NaN]: the decimal digits of an
    integer, after [-] for a negative one, and the string [NaN]. *)
Definition toString (n : option Z) : JSString :=
  match n with
  | None => [0x4E; 0x61; 0x4E]
  | Some z =>
      match Z.to_int z with
      | Decimal.Pos d => digits d
      | Decimal.Neg d => 0x2D :: digits d
      end
  end.

(** [text.substring(start, end)]: both indices are brought between 0 and the
    length, and exchanged when the first is the greater. *)
Definition substring (text : JSString) (start end_ : Z) : JSString :=
  let start := Z.min (Z.max start 0) (len text) in
  let end_ := Z.min (Z.max end_ 0) (len text) in
  let from := Z.min start end_ in
  let to := Z.max start end_ in
  firstn (Z.to_nat (to - from)) (skipn (Z.to_nat from) text).

(** The strings [month], [day], [hour], [minute] and [second] of the time
    setters: [(n < bound ? `0${n + k}` : `${n + k}`)] with [bound] 9 and [k]
    1 for the month, 10 and 0 for the others. *)
Definition padded (n : option Z) (bound k : Z) : JSString :=
  if numberLessThan n bound then 0x30 :: toString (numberPlus n k)
  else toString (numberPlus n k).

(** The string [utcString] of the [utcTime] setter. *)
Definition utcString (value : Date) : JSString :=
  let year := toString (getUTCFullYear value) in
  let year := substring year (len year - 2) (len year) in
  let month := padded (getUTCMonth value) 9 1 in
  let day := padded (getUTCDate value) 10 0 in
  let hour := padded (getUTCHours value) 10 0 in
  let minute := padded (getUTCMinutes value) 10 0 in
  let second := padded (getUTCSeconds value) 10 0 in
  year ++ month ++ day ++ hour ++ minute ++ second ++ [0x5A].

(** The string [timeString] of the [generalizedTime] setter. *)
Definition timeString (value : Date) : JSString :=
  let year := toString (getUTCFullYear value) in
  let month := padded (getUTCMonth value) 9 1 in
  let day := padded (getUTCDate value) 10 0 in
  let hour := padded (getUTCHours value) 10 0 in
  let minute := padded (getUTCMinutes value) 10 0 in
  let second := padded (getUTCSeconds value) 10 0 in
  year ++ month ++ day ++ hour ++ minute ++ second ++ [0x5A].

(** Modelled from the spec: [printableStringCharacters] of [source/values],
    which is not among the sources: the letters, the digits, the space and
    the marks ['()+,-./:=?]. *)
Definition printableStringCharacters : JSString :=
  map Z.of_nat (seq 0x41 26) ++ map Z.of_nat (seq 0x61 26)
  ++ map Z.of_nat (seq 0x30 10)
  ++ [0x20; 0x27; 0x28; 0x29; 0x2B; 0x2C; 0x2D; 0x2E; 0x2F; 0x3A; 0x3D; 0x3F].

(** [text.indexOf(character) === -1] for a string [character] of one code
    unit. *)
Definition notIn (text : JSString) (characterCode : Z) : bool :=
  negb (existsb (Z.eqb characterCode) text).

(** *** The character strings with a restricted alphabet

    The accessors in the branch [typeof TextEncoder !== "undefined"], the
    encoder and the decoders of the platform being parameters. *)

Section Text.

(** [(new TextEncoder()).encode(value)]. *)
Variable TextEncoder_encode : JSString -> Uint8Array.

(** [value.toFixed(fractionDigits)]. *)
Variable Number_toFixed : number -> Z -> JSString.

(** [(new TextDecoder(label)).decode(valueBytes.buffer)], for the labels
    ["utf-8"] and ["windows-1252"]; the buffer of the array that
    [deconstruct] returns holds the octets of the array and no other. *)
Variable TextDecoder_utf8_decode : Uint8Array -> JSString.
Variable TextDecoder_windows1252_decode : Uint8Array -> JSString.

(** A loop [for (let i = 0; i < value.length; i++)] that throws
    [ASN1CharactersError] at the first code unit that meets [refused]. *)
Definition checkCharacters (refused : Z -> bool) (text : JSString) : outcome unit :=
  _ <- forEach
         (fun characterCode =>
            if refused characterCode then Throw ASN1CharactersError
            else Return tt)
         text ;;
  Return tt.

(** [set numericString (value)]. *)
Definition set_numericString (this : t) (value : JSString) : outcome t :=
  _ <- checkCharacters
         (fun characterCode =>
            negb (((characterCode >=? 0x30) && (characterCode <=? 0x39))
                  || (characterCode =? 0x20)))
         value ;;
  Return (set_value this (TextEncoder_encode value)).

(** [get numericString ()]. *)
Definition numericString (this : t) : outcome JSString :=
  valueBytes <- deconstruct this ;;
  let ret := TextDecoder_utf8_decode valueBytes in
  _ <- checkCharacters
         (fun characterCode =>
            negb (((characterCode >=? 0x30) && (characterCode <=? 0x39))
                  || (characterCode =? 0x20)))
         ret ;;
  Return ret.

(** [set graphicString (value)]. *)
Definition set_graphicString (this : t) (value : JSString) : outcome t :=
  _ <- checkCharacters
         (fun characterCode => (characterCode <? 0x20) || (characterCode >? 0x7E))
         value ;;
  Return (set_value this (TextEncoder_encode value)).

(** [get graphicString ()]. *)
Definition graphicString (this : t) : outcome JSString :=
  valueBytes <- deconstruct this ;;
  let ret := TextDecoder_utf8_decode valueBytes in
  _ <- checkCharacters
         (fun characterCode => (characterCode <? 0x20) || (characterCode >? 0x7E))
         ret ;;
  Return ret.

(** [set visibleString (value)] and [get visibleString ()];
    [set objectDescriptor (value)] and [get objectDescriptor ()]. *)
Definition set_visibleString (this : t) (value : JSString) : outcome t :=
  set_graphicString this value.

Definition visibleString (this : t) : outcome JSString := graphicString this.

Definition set_objectDescriptor (this : t) (value : JSString) : outcome t :=
  set_graphicString this value.

Definition objectDescriptor (this : t) : outcome JSString := graphicString this.

(** [set generalString (value)]. *)
Definition set_generalString (this : t) (value : JSString) : outcome t :=
  _ <- checkCharacters (fun characterCode => characterCode >? 0x7F) value ;;
  Return (set_value this (TextEncoder_encode value)).

(** [get generalString ()]. *)
Definition generalString (this : t) : outcome JSString :=
  valueBytes <- deconstruct this ;;
  let ret := TextDecoder_windows1252_decode valueBytes in
  _ <- checkCharacters (fun characterCode => characterCode >? 0x7F) ret ;;
  Return ret.

(** [set utf8String (value)] and [set ia5String (value)]. *)
Definition set_utf8String (this : t) (value : JSString) : t :=
  set_value this (TextEncoder_encode value).

Definition set_ia5String (this : t) (value : JSString) : t :=
  set_value this (TextEncoder_encode value).

(** [set printableString (value)]. *)
Definition set_printableString (this : t) (value : JSString) : outcome t :=
  _ <- checkCharacters (notIn printableStringCharacters) value ;;
  Return (set_value this (TextEncoder_encode value)).

(** [set real (value)].  The test [value === -0.0] comes after
    [value === 0.0], which minus zero meets as well. *)
Definition set_real (this : t) (value : number) : t :=
  if SpecFloat.SFeqb value plusZero then set_value this []
  else if isNaN value then set_value this [ToUint8 notANumber]
  else if SpecFloat.SFeqb value negativeZero
  then set_value this [ToUint8 minusZero]
  else if SpecFloat.SFeqb value Infinity
  then set_value this [ToUint8 plusInfinity]
  else if SpecFloat.SFeqb value negativeInfinity
  then set_value this [ToUint8 minusInfinity]
  else
    let valueString := Number_toFixed value 7 in
    let valueString := fromCharCode 3 :: valueString in
    set_value this (TextEncoder_encode valueString).

(** [set utcTime (value)] and [set generalizedTime (value)]. *)
Definition set_utcTime (this : t) (value : Date) : t :=
  set_value this (TextEncoder_encode (utcString value)).

Definition set_generalizedTime (this : t) (value : Date) : t :=
  set_value this (TextEncoder_encode (timeString value)).

End Text.

End BERElement.

(** ** [CERElement]

    The fragmenting setter of [CERElement] and the methods it relies on. *)

Module CERElement.

Definition t : Type := ASN1Element.

(** [toBytes()]: the identifier octets as in [BERElement.toBytes]; the length
    is definite for a primitive element and indefinite, with two closing zero
    octets, for a constructed one. *)
Definition toBytes (this : t) : Uint8Array :=
  map ToUint8 (BERElement.tagBytes this)
  ++ map ToUint8
       match construction this with
       | primitive => BERElement.definiteLengthOctets (len (value this))
       | constructed => [0x80]
       end
  ++ value this
  ++ match construction this with
     | primitive => []
     | constructed => [x00; x00]
     end.

(** The pieces of [value], [rounds] of them at most. *)
Fixpoint splitOctets (rounds : nat) (value : Uint8Array) : list Uint8Array :=
  match rounds with
  | O => []
  | S rounds' =>
      match value with
      | [] => []
      | _ :: _ =>
          firstn (Z.to_nat 1000) value
          :: splitOctets rounds' (skipn (Z.to_nat 1000) value)
      end
  end.

(** Modelled from the spec: [splitOctetsCanonically] of
    [source/splitOctetsCanonically], which is not among the sources: the
    value in pieces of 1000 octets, the last piece the remainder. *)
Definition splitOctetsCanonically (value : Uint8Array) : list Uint8Array :=
  splitOctets (length value) value.

(** Modelled from the spec: [encodeSequence] of [x690/encoders], which is not
    among the sources: the encodings of the elements back to back. *)
Definition encodeSequence (elements : list t) : Uint8Array :=
  concat (map toBytes elements).

(** Modelled from the spec: [decodeSequence] of [cer/decoders], which is not
    among the sources: the elements decoded one after the other from the
    value octets, as the [sequence] getter of [BERElement] does;
    [CERElement.fromBytes] has the statements of [BERElement.fromBytes]. *)
Definition decodeSequence (value : Uint8Array) : outcome (list t) :=
  if len value =? 0 then Return []
  else BERElement.decodeElements (S (length value)) value 0.

(** [new CERElement(tagClass, construction, tagNumber, fragment)] for a
    fragment of at most 1000 octets: [encode] stores a [Uint8Array] through
    the [octetString] setter, which keeps that many octets literally, and the
    constructor then assigns the three tag fields. *)
Definition newWithOctets (tagClass : ASN1TagClass)
    (construction : ASN1Construction) (tagNumber : Z) (fragment : Uint8Array)
    : t :=
  mkElement initialRecursionCount tagClass construction tagNumber fragment.

(** [set unfragmentedValue (value)]. *)
Definition set_unfragmentedValue (this : t) (v : Uint8Array) : t :=
  if len v <=? 1000 then set_value (set_construction this primitive) v
  else
    set_value (set_construction this constructed)
      (encodeSequence
         (map (fun fragment =>
                 newWithOctets (tagClass this) primitive (tagNumber this)
                   fragment)
              (splitOctetsCanonically v))).

(** [set octetString (value)]. *)
Definition set_octetString (this : t) (v : Uint8Array) : t :=
  set_unfragmentedValue this v.

(** [fromBytes(bytes)]: statement by statement that of [BERElement], the
    children being [new CERElement()]. *)
Definition fromBytes (this : t) (bytes : Uint8Array) : outcome (t * Z) :=
  BERElement.fromBytes this bytes.

(** [get sequence ()]. *)
Definition sequence (this : t) : outcome (list t) :=
  if negb (ASN1Construction_eqb (construction this) constructed)
  then Throw ASN1ConstructionError
  else decodeSequence (value this).

(** [deconstruct] by the number of levels left, as in [BERElement]. *)
Fixpoint deconstruct_at (remaining : nat) (this : t) : outcome Uint8Array :=
  match construction this with
  | primitive => Return (value this)
  | constructed =>
      match remaining with
      | O => Throw ASN1RecursionError
      | S remaining' =>
          substrings <- sequence this ;;
          appendy <-
            forEach
              (fun substring =>
                 _ <- BERElement.checkSubstring this substring ;;
                 deconstruct_at remaining'
                   (set_recursionCount substring (recursionCount this + 1)))
              substrings ;;
          Return (concat appendy)
      end
  end.

(** [this.deconstruct(dataType)]. *)
Definition deconstruct (this : t) : outcome Uint8Array :=
  deconstruct_at (Z.to_nat (nestingRecursionLimit - recursionCount this)) this.

(** [get unfragmentedValue ()] and [get octetString ()]. *)
Definition unfragmentedValue (this : t) : outcome Uint8Array := deconstruct this.

Definition octetString (this : t) : outcome Uint8Array := deconstruct this.

(** [set universalString (value)]: the buffer of the setter of
    [BERElement], filled by the same statements and stored through the
    fragmenting setter. *)
Definition set_universalString (this : t) (value : BERElement.JSString)
    : outcome t :=
  buf <- BERElement.universalOctets value ;;
  Return (set_unfragmentedValue this buf).

(** [get universalString ()]: the loop is that of [BERElement]. *)
Definition universalString (this : t) : outcome BERElement.JSString :=
  valueBytes <- deconstruct this ;;
  if negb (len valueBytes mod 4 =? 0) then Throw ASN1Error
  else Return (BERElement.universalChars valueBytes).

(** [set inner (value)]. *)
Definition set_inner (this value : t) : t :=
  set_value (set_construction this constructed) (toBytes value).

(** [get inner ()]. *)
Definition inner (this : t) : outcome t :=
  if negb (ASN1Construction_eqb (construction this) constructed)
  then Throw ASN1ConstructionError
  else
    '(ret, readBytes) <- fromBytes BERElement.new_default (value this) ;;
    if negb (readBytes =? len (value this)) then Throw ASN1ConstructionError
    else Return ret.

End CERElement.

Import BERElement.

(** ** Vocabulary of the properties *)

(** What the loops need of a decoder: it ends, and a decoded element takes
    between [least] octets and the whole buffer. *)
Definition consumes (least : Z) (decode : Uint8Array -> outcome (t * Z)) : Prop :=
  forall bytes,
    decode bytes <> OutOfFuel
    /\ forall e n, decode bytes = Return (e, n) -> least <= n <= len bytes.

(** The value of the continuation octets of a long-form tag number: base-128
    digits, most significant first, in the low seven bits of each octet. *)
Definition base128 (octets : list byte) : Z :=
  fold_left (fun n d => n * 128 + toZ d mod 128) octets 0.

(** Continuation octets: the high bit of an octet says that more follow, so
    every octet but the last has it set. *)
Fixpoint continuation (octets : list byte) : Prop :=
  match octets with
  | [] => False
  | d :: octets' =>
      match octets' with
      | [] => toZ d < 128
      | _ :: _ => 128 <= toZ d /\ continuation octets'
      end
  end.

(** The minimal encoding of [n]: continuation octets of value [n] that do not
    start with the padding octet [80]. *)
Definition minimalBase128 (octets : list byte) (n : Z) : Prop :=
  continuation octets /\ hd x00 octets <> x80 /\ base128 octets = n.

(** The identifier octet announces a tag number in long form. *)
Definition longForm (identifier : byte) : Prop :=
  Z.land (toZ identifier) 0x1F = 0x1F.

(** The tag class and the construction that an identifier octet carries. *)
Definition classOf (identifier : byte) : ASN1TagClass :=
  match toZ identifier / 64 with
  | 0 => universal
  | 1 => application
  | 2 => context
  | _ => private
  end.

Definition constructionOf (identifier : byte) : ASN1Construction :=
  if (toZ identifier / 32) mod 2 =? 0 then primitive else constructed.

(** A substring carries the tag of the outer element. *)
Definition sameTag (this substring : t) : Prop :=
  tagClass substring = tagClass this /\ tagNumber substring = tagNumber this.

(** A primitive substring with a non-empty value whose first octet, the count
    of unused bits, is not zero. *)
Definition unaligned (substring : t) : Prop :=
  construction substring = primitive
  /\ exists b rest, value substring = b :: rest /\ b <> x00.

(** A substring as the outer element hands it to the recursive call: one
    level deeper. *)
Definition nested (this substring : t) : t :=
  set_recursionCount substring (recursionCount this + 1).

(** [levels] indefinite-length constructed OCTET STRINGs, one inside the
    other, around the octets [inner]. *)
Fixpoint indefiniteNest (levels : nat) (inner : Uint8Array) : Uint8Array :=
  match levels with
  | O => inner
  | S levels' => [x24; x80] ++ indefiniteNest levels' inner ++ [x00; x00]
  end.

(** [levels] definite-length elements of identifier octet [id] and of short
    length, one inside the other, around the octets [inner]. *)
Fixpoint definiteNest (id : byte) (levels : nat) (inner : Uint8Array)
    : Uint8Array :=
  match levels with
  | O => inner
  | S levels' =>
      let contents := definiteNest id levels' inner in
      [id; ToUint8 (len contents)] ++ contents
  end.

(** The offsets at which the loop [while (sentinel < bytes.length)] of
    [fromBytes] decodes a child, when the first child is at [start]: [start]
    itself, and the offsets of the children past a child decoded at [start]
    that is not an end-of-contents marker. *)
Inductive childOffset (decode : Uint8Array -> outcome (t * Z))
    (bytes : Uint8Array) : Z -> Z -> Prop :=
| childOffset_first (start : Z) : childOffset decode bytes start start
| childOffset_next (start : Z) (child : t) (n i : Z) :
    decode (sliceFrom bytes start) = Return (child, n) ->
    isEndOfContent child = false ->
    childOffset decode bytes (start + n) i ->
    childOffset decode bytes start i.

(** The elements that [toBytes] writes, under the definite preference, in a
    form that [fromBytes] reads back: tag number at most 30 or from 32 to
    [2 ^ 21 - 1], value shorter than 65536 octets. *)
Definition readsBack (e : t) : Prop :=
  (0 <= tagNumber e < 31 \/ 31 < tagNumber e < 2 ^ 21)
  /\ len (value e) < 65536.

(** An element as a decoder at recursion count [rc] returns it. *)
Definition decodedAt (rc : Z) (e : t) : t := set_recursionCount e rc.

(** Identifier octets of the tag number [n] that [fromBytes] accepts: the
    one octet [identifier] in short form, or a long-form octet and the
    minimal continuation octets of a number from 32 to [2 ^ 21 - 1]. *)
Definition identifierOctets (octets : Uint8Array) (identifier : byte) (n : Z)
    : Prop :=
  (~ longForm identifier /\ octets = [identifier]
   /\ n = Z.land (toZ identifier) 0x1F)
  \/ (longForm identifier
      /\ exists continuationOctets,
           octets = identifier :: continuationOctets
           /\ minimalBase128 continuationOctets n /\ 31 < n < 2 ^ 21).

(** The number that octets denote, most significant octet first. *)
Definition bigEndian (octets : list byte) : Z :=
  fold_left (fun n d => n * 256 + toZ d) octets 0.

(** An element after a setter that has assigned its value field and no
    other. *)
Definition valueOnly (this after : t) : Prop :=
  tagClass after = tagClass this /\ tagNumber after = tagNumber this
  /\ construction after = construction this
  /\ recursionCount after = recursionCount this.

(** The two octets of a character of a BMPString: its code unit, most
    significant octet first. *)
Definition ucs2 (charCode : Z) : Uint8Array :=
  [ToUint8 (charCode / 2 ^ 8); ToUint8 charCode].

(** The code units of the restricted alphabets: the digits and the space of
    a NumericString, the printing characters of ASCII of a GraphicString, and
    ASCII. *)
Definition numericCharacter (characterCode : Z) : Prop :=
  0x30 <= characterCode <= 0x39 \/ characterCode = 0x20.

Definition graphicCharacter (characterCode : Z) : Prop :=
  0x20 <= characterCode <= 0x7E.

Definition asciiCharacter (characterCode : Z) : Prop :=
  0 <= characterCode <= 0x7F.

(** An encoder and a decoder that take ASCII for what it is, one octet for a
    code unit, as UTF-8 and windows-1252 do. *)
Definition encodesAscii (encode : JSString -> Uint8Array) : Prop :=
  forall text : JSString,
    Forall asciiCharacter text -> encode text = map ToUint8 text.

Definition decodesAscii (decode : Uint8Array -> JSString) : Prop :=
  forall octets : Uint8Array,
    Forall (fun b => asciiCharacter (toZ b)) octets -> decode octets = map toZ octets.

(** The four octets of a character of a UniversalString: its code point,
    most significant octet first. *)
Definition ucs4 (codePoint : Z) : Uint8Array :=
  [ToUint8 (codePoint / 2 ^ 24); ToUint8 (codePoint / 2 ^ 16);
   ToUint8 (codePoint / 2 ^ 8); ToUint8 codePoint].

(** The bit of index [i] of a bit string, in the octets that the [bitString]
    setter builds: octet [i / 8 + 1], counting the bits of an octet from the
    most significant one. *)
Definition bitAt (pre : list Z) (i : Z) : bool :=
  Z.testbit (nth (Z.to_nat (i / 8 + 1)) pre 0) (7 - i mod 8).

(** ** Octets and bit operations *)

Lemma toZ_range (b : byte) : 0 <= toZ b < 256.
Proof.
  unfold toZ. pose proof (Byte.to_N_bounded b) as H.
  lia.
Qed.

Lemma toZ_ToUint8 (z : Z) : 0 <= z < 256 -> toZ (ToUint8 z) = z.
Proof.
  intros Hz. unfold ToUint8, toZ.
  rewrite Z.mod_small by lia.
  destruct (Byte.of_N (Z.to_N z)) as [b|] eqn:E.
  - apply Byte.to_of_N in E. rewrite E. lia.
  - apply Byte.of_N_None_iff in E. lia.
Qed.

Lemma ToUint8_toZ (b : byte) : ToUint8 (toZ b) = b.
Proof.
  unfold ToUint8. rewrite Z.mod_small by apply toZ_range.
  unfold toZ. rewrite N2Z.id, Byte.of_to_N. reflexivity.
Qed.

Lemma toZ_inj (a b : byte) : toZ a = toZ b -> a = b.
Proof.
  intros H. rewrite <- (ToUint8_toZ a), <- (ToUint8_toZ b), H. reflexivity.
Qed.

(** A property of all numbers below 256, from its check on the 256 octets. *)
Lemma forall_octet (P : Z -> Prop) :
  (forall b : byte, P (toZ b)) -> forall z, 0 <= z < 256 -> P z.
Proof.
  intros H z Hz. rewrite <- (toZ_ToUint8 z Hz). apply H.
Qed.

Lemma land_0x80_octet (z : Z) :
  0 <= z < 256 -> Z.land z 0x80 = if z <? 128 then 0 else 0x80.
Proof.
  revert z. apply forall_octet. intros b. destruct b; reflexivity.
Qed.

Lemma land_0x7F_octet (z : Z) : 0 <= z < 256 -> Z.land z 0x7F = z mod 128.
Proof.
  intros _. change 0x7F with (Z.ones 7). rewrite Z.land_ones by lia. reflexivity.
Qed.

Lemma land_small_disjoint (a b n : Z) :
  0 <= n -> 0 <= b < 2 ^ n -> Z.land (a * 2 ^ n) b = 0.
Proof.
  intros Hn Hb. apply Z.bits_inj'. intros m Hm.
  rewrite Z.land_spec, Z.bits_0.
  destruct (Z.ltb_spec m n).
  - rewrite Z.mul_pow2_bits_low by lia. reflexivity.
  - destruct (Z.eq_dec b 0) as [->|Hb0].
    + rewrite Z.bits_0. apply andb_false_r.
    + rewrite (Z.bits_above_log2 b m), andb_false_r; [reflexivity|lia|].
      apply Z.log2_lt_pow2; try lia.
      apply Z.lt_le_trans with (2 ^ n); [lia|].
      apply Z.pow_le_mono_r; lia.
Qed.

Lemma lor_small_disjoint (a b n : Z) :
  0 <= n -> 0 <= b < 2 ^ n -> Z.lor (a * 2 ^ n) b = a * 2 ^ n + b.
Proof.
  intros Hn Hb.
  rewrite <- Z.lxor_lor by (apply land_small_disjoint; assumption).
  symmetry. apply Z.add_nocarry_lxor. apply land_small_disjoint; assumption.
Qed.

Lemma ToInt32_small (z : Z) : - 2 ^ 31 <= z < 2 ^ 31 -> ToInt32 z = z.
Proof. intros H. unfold ToInt32. rewrite Z.mod_small; lia. Qed.

Lemma ToUint32_small (z : Z) : 0 <= z < 2 ^ 32 -> ToUint32 z = z.
Proof. intros H. unfold ToUint32. apply Z.mod_small. lia. Qed.

Lemma shl_small (a n : Z) :
  0 <= n -> - 2 ^ 31 <= a * 2 ^ n < 2 ^ 31 -> shl a n = a * 2 ^ n.
Proof.
  intros Hn H. unfold shl. rewrite Z.shiftl_mul_pow2 by lia.
  apply ToInt32_small. exact H.
Qed.

Lemma ushr_small (a n : Z) :
  0 <= n -> 0 <= a < 2 ^ 32 -> ushr a n = a / 2 ^ n.
Proof.
  intros Hn H. unfold ushr. rewrite ToUint32_small by lia.
  apply Z.shiftr_div_pow2. lia.
Qed.

(** ** Lists, indices and slices *)

Lemma len_nil {A} : len (@nil A) = 0.
Proof. reflexivity. Qed.

Lemma len_cons {A} (x : A) (l : list A) : len (x :: l) = len l + 1.
Proof. unfold len. cbn [length]. lia. Qed.

Lemma len_app {A} (l1 l2 : list A) : len (l1 ++ l2) = len l1 + len l2.
Proof. unfold len. rewrite length_app. lia. Qed.

Lemma len_nonneg {A} (l : list A) : 0 <= len l.
Proof. unfold len. lia. Qed.

Lemma len_map {A B} (f : A -> B) (l : list A) : len (map f l) = len l.
Proof. unfold len. rewrite length_map. reflexivity. Qed.

Lemma at_app_r (pre rest : Uint8Array) (i : Z) :
  0 <= i -> at_ (pre ++ rest) (len pre + i) = at_ rest i.
Proof.
  intros Hi. unfold at_, len.
  destruct (Z.ltb_spec (Z.of_nat (length pre) + i) 0); [lia|].
  destruct (Z.ltb_spec i 0); [lia|].
  rewrite nth_error_app2 by lia. f_equal. lia.
Qed.

Lemma at_app_l (pre rest : Uint8Array) (i : Z) :
  i < len pre -> at_ (pre ++ rest) i = at_ pre i.
Proof.
  intros Hi. unfold at_, len in *.
  destruct (Z.ltb_spec i 0); [reflexivity|].
  apply nth_error_app1. lia.
Qed.

Lemma at_cons_S (b : byte) (l : Uint8Array) (i : Z) :
  0 < i -> at_ (b :: l) i = at_ l (i - 1).
Proof.
  intros Hi. unfold at_.
  destruct (Z.ltb_spec i 0); [lia|]. destruct (Z.ltb_spec (i - 1) 0); [lia|].
  replace (Z.to_nat i) with (S (Z.to_nat (i - 1))) by lia. reflexivity.
Qed.

Lemma relIndex_in (n k : Z) : 0 <= k <= n -> relIndex n k = k.
Proof.
  intros H. unfold relIndex. destruct (Z.ltb_spec k 0); lia.
Qed.

Lemma slice_app_mid {A} (pre v post : list A) :
  slice (pre ++ v ++ post) (len pre) (len pre + len v) = v.
Proof.
  unfold slice.
  pose proof (len_nonneg pre). pose proof (len_nonneg v). pose proof (len_nonneg post).
  rewrite !relIndex_in by (rewrite !len_app; lia).
  unfold len. rewrite Nat2Z.id.
  rewrite skipn_app, skipn_all, Nat.sub_diag. cbn [skipn app].
  replace (Z.to_nat (Z.of_nat (length pre) + Z.of_nat (length v) - Z.of_nat (length pre)))
    with (length v) by lia.
  rewrite firstn_app, Nat.sub_diag, firstn_all. cbn [firstn]. apply app_nil_r.
Qed.

Lemma sliceFrom_app {A} (pre rest : list A) :
  sliceFrom (pre ++ rest) (len pre) = rest.
Proof.
  unfold sliceFrom. rewrite len_app.
  rewrite <- (app_nil_r rest) at 1. rewrite slice_app_mid. reflexivity.
Qed.

(** ** Termination of the decoding loops *)

Ltac bool_to_prop :=
  repeat match goal with
  | H : negb _ = true |- _ => apply negb_true_iff in H
  | H : negb _ = false |- _ => apply negb_false_iff in H
  | H : (_ && _) = true |- _ => apply andb_true_iff in H; destruct H
  | H : (_ || _) = false |- _ => apply orb_false_iff in H; destruct H
  | H : (_ <? _) = true |- _ => apply Z.ltb_lt in H
  | H : (_ <? _) = false |- _ => apply Z.ltb_ge in H
  | H : (_ <=? _) = true |- _ => apply Z.leb_le in H
  | H : (_ <=? _) = false |- _ => apply Z.leb_gt in H
  | H : (_ >? _) = true |- _ => rewrite Z.gtb_ltb in H
  | H : (_ >? _) = false |- _ => rewrite Z.gtb_ltb in H
  | H : (_ >=? _) = true |- _ => rewrite Z.geb_leb in H
  | H : (_ >=? _) = false |- _ => rewrite Z.geb_leb in H
  | H : (_ =? _) = true |- _ => apply Z.eqb_eq in H
  | H : (_ =? _) = false |- _ => apply Z.eqb_neq in H
  end.

Ltac split_ifs :=
  repeat match goal with
  | |- context [if ?c then _ else _] => destruct c eqn:?
  end.

Lemma len_sliceFrom {A} (l : list A) (i : Z) :
  0 <= i <= len l -> len (sliceFrom l i) = len l - i.
Proof.
  intros H. unfold sliceFrom, slice. rewrite !relIndex_in by lia.
  unfold len in *. rewrite length_firstn, length_skipn. lia.
Qed.

Lemma skipTagNumber_bounds (rounds : nat) (bytes : Uint8Array) (limit cursor : Z) :
  cursor <= skipTagNumber rounds bytes limit cursor <= Z.max cursor limit.
Proof.
  revert cursor. induction rounds as [|rounds IH]; intros cursor; cbn [skipTagNumber].
  - lia.
  - destruct (Z.ltb_spec cursor limit); [|lia].
    destruct (Z.land (num (at_ bytes cursor)) 128 =? 0); [lia|].
    specialize (IH (cursor + 1)). lia.
Qed.

Section ChildrenTerminate.

Variable child_fromBytes : Uint8Array -> outcome (t * Z).
Hypothesis child_consumes : consumes 1 child_fromBytes.

Lemma scanChildren_ends (rounds : nat) (bytes : Uint8Array) (sentinel : Z) :
  0 <= sentinel <= len bytes ->
  len bytes - sentinel < Z.of_nat rounds ->
  scanChildren child_fromBytes rounds bytes sentinel <> OutOfFuel
  /\ forall s, scanChildren child_fromBytes rounds bytes sentinel = Return s ->
       sentinel <= s <= len bytes.
Proof.
  revert sentinel. induction rounds as [|rounds IH]; intros sentinel Hs Hr.
  - lia.
  - cbn [scanChildren]. destruct (Z.ltb_spec sentinel (len bytes)).
    + destruct (child_consumes (sliceFrom bytes sentinel)) as [Hfuel Hn].
      destruct (child_fromBytes (sliceFrom bytes sentinel)) as [[child n]| |];
        cbn [bind]; [|split; [discriminate|intros; discriminate]|congruence].
      specialize (Hn child n eq_refl). rewrite len_sliceFrom in Hn by lia.
      destruct (isEndOfContent child).
      * split; [discriminate|]. intros s [= <-]. lia.
      * destruct (IH (sentinel + n)) as [IH1 IH2]; [lia|lia|].
        split; [exact IH1|]. intros s Hs'. specialize (IH2 s Hs'). lia.
    + split; [discriminate|]. intros s [= <-]. lia.
Qed.

Lemma decodeLengthAndValue_consumes (this : t) (bytes : Uint8Array) (cursor : Z) :
  1 <= cursor < len bytes ->
  decodeLengthAndValue child_fromBytes this bytes cursor <> OutOfFuel
  /\ forall e n,
       decodeLengthAndValue child_fromBytes this bytes cursor = Return (e, n) ->
       2 <= n <= len bytes.
Proof.
  intros Hc. unfold decodeLengthAndValue.
  pose proof (toZ_range (ToUint8 0)).
  assert (Hnum : 0 <= Z.land (num (at_ bytes cursor)) 127).
  { apply Z.land_nonneg. right. lia. }
  destruct (scanChildren_ends (S (length bytes)) bytes (cursor + 1)) as [Hs1 Hs2];
    [lia|unfold len; lia|].
  destruct (scanChildren child_fromBytes (S (length bytes)) bytes (cursor + 1)) as [s| |];
    cbn [bind]; [specialize (Hs2 s eq_refl)| |congruence];
    split_ifs; bool_to_prop;
    (split; [discriminate|]); intros e' n' Hr; try discriminate;
    injection Hr as <- <-; lia.
Qed.

Lemma fromBytes_body_consumes (this : t) (bytes : Uint8Array) :
  2 <= len bytes ->
  fromBytes_body child_fromBytes this bytes <> OutOfFuel
  /\ forall e n,
       fromBytes_body child_fromBytes this bytes = Return (e, n) ->
       2 <= n <= len bytes.
Proof.
  intros Hlen. unfold fromBytes_body.
  destruct (Z.land (num (at_ bytes 0)) 31 >=? 31).
  - unfold decodeLongTagNumber.
    set (limit := if len bytes - 1 >=? 4 then 4 else len bytes - 1).
    assert (Hlimit : 1 <= limit <= len bytes - 1).
    { subst limit. destruct (len bytes - 1 >=? 4) eqn:E; bool_to_prop; lia. }
    pose proof (skipTagNumber_bounds (Z.to_nat limit) bytes limit (0 + 1)).
    split_ifs; cbn [bind];
      try (split; [discriminate|intros; discriminate]).
    all: apply decodeLengthAndValue_consumes; lia.
  - cbn [bind]. apply decodeLengthAndValue_consumes. lia.
Qed.

End ChildrenTerminate.

Lemma fromBytes_at_consumes (remaining : nat) (this : t) :
  consumes 2 (fromBytes_at remaining this).
Proof.
  revert this. induction remaining as [|remaining IH]; intros this bytes;
    cbn [fromBytes_at]; destruct (Z.ltb_spec (len bytes) 2);
    try (split; [discriminate|intros; discriminate]).
  apply fromBytes_body_consumes; [|lia].
  intros b. destruct (IH (newChild this) b) as [H1 H2].
  split; [exact H1|]. intros e n Hr. specialize (H2 e n Hr). lia.
Qed.

(** [fromBytes] ends on every buffer. *)
Lemma fromBytes_total (this : t) (bytes : Uint8Array) :
  fromBytes this bytes <> OutOfFuel.
Proof. apply fromBytes_at_consumes. Qed.

(** A decoded element takes at least two octets and at most the buffer. *)
Lemma fromBytes_consumed (this e : t) (bytes : Uint8Array) (n : Z) :
  fromBytes this bytes = Return (e, n) -> 2 <= n <= len bytes.
Proof. apply fromBytes_at_consumes. Qed.

Lemma decodeElements_ends (rounds : nat) (value : Uint8Array) (i : Z) :
  0 <= i <= len value ->
  len value - i < Z.of_nat rounds ->
  decodeElements rounds value i <> OutOfFuel.
Proof.
  revert i. induction rounds as [|rounds IH]; intros i Hi Hr; [lia|].
  cbn [decodeElements]. destruct (Z.ltb_spec i (len value)); [|discriminate].
  pose proof (fromBytes_total new_default (sliceFrom value i)) as Hf.
  pose proof (fun e n => fromBytes_consumed new_default e (sliceFrom value i) n) as Hn.
  destruct (fromBytes new_default (sliceFrom value i)) as [[next n]| |];
    cbn [bind]; [|discriminate|congruence].
  specialize (Hn next n eq_refl). rewrite len_sliceFrom in Hn by lia.
  specialize (IH (i + n)).
  destruct (decodeElements rounds value (i + n)); cbn [bind];
    [discriminate|discriminate|]. apply IH; lia.
Qed.

(** The [sequence] getter ends on every element. *)
Lemma sequence_total (this : t) : sequence this <> OutOfFuel.
Proof.
  unfold sequence. split_ifs; try discriminate.
  apply decodeElements_ends; [pose proof (len_nonneg (value this)); lia|unfold len; lia].
Qed.

(** ** The recursion guard, as the source writes it *)

Lemma remaining_zero (rc : Z) :
  rc + 1 > nestingRecursionLimit -> Z.to_nat (nestingRecursionLimit - rc) = O.
Proof. lia. Qed.

Lemma remaining_succ (rc : Z) :
  rc + 1 <= nestingRecursionLimit ->
  Z.to_nat (nestingRecursionLimit - rc)
  = S (Z.to_nat (nestingRecursionLimit - (rc + 1))).
Proof. lia. Qed.

(** [fromBytes] with its guard [(this.recursionCount + 1) > nestingRecursionLimit]
    and the children decoded by [fromBytes] itself. *)
Lemma fromBytes_unfold (this : t) (bytes : Uint8Array) :
  fromBytes this bytes =
  if len bytes <? 2 then Throw ASN1TruncationError
  else if recursionCount this + 1 >? nestingRecursionLimit
  then Throw ASN1RecursionError
  else fromBytes_body (fromBytes (newChild this)) this bytes.
Proof.
  unfold fromBytes at 1.
  destruct (recursionCount this + 1 >? nestingRecursionLimit) eqn:E; bool_to_prop.
  - rewrite remaining_zero by lia. reflexivity.
  - rewrite remaining_succ by lia. reflexivity.
Qed.

(** [deconstruct] with its guard and the substrings deconstructed by
    [deconstruct] itself. *)
Lemma deconstruct_unfold (this : t) :
  deconstruct this =
  match construction this with
  | primitive => Return (value this)
  | constructed =>
      if recursionCount this + 1 >? nestingRecursionLimit
      then Throw ASN1RecursionError
      else
        substrings <- sequence this ;;
        appendy <-
          forEach
            (fun substring =>
               _ <- checkSubstring this substring ;;
               deconstruct
                 (set_recursionCount substring (recursionCount this + 1)))
            substrings ;;
        Return (concat appendy)
  end.
Proof.
  unfold deconstruct at 1.
  destruct (recursionCount this + 1 >? nestingRecursionLimit) eqn:E; bool_to_prop.
  - rewrite remaining_zero by lia.
    cbn [deconstruct_at]. reflexivity.
  - rewrite remaining_succ by lia.
    cbn [deconstruct_at]. reflexivity.
Qed.

(** The [bitString] getter with its guard and the substrings read by the
    getter itself. *)
Lemma bitString_unfold (this : t) :
  bitString this =
  match construction this with
  | primitive => bitString_primitive this
  | constructed =>
      if recursionCount this + 1 >? nestingRecursionLimit
      then Throw ASN1RecursionError
      else
        substrings <- sequence this ;;
        _ <- forEach checkAligned (slice substrings 0 (len substrings - 1)) ;;
        appendy <-
          forEach
            (fun substring =>
               _ <- checkSubstring this substring ;;
               bitString
                 (set_recursionCount substring (recursionCount this + 1)))
            substrings ;;
        Return (concat appendy)
  end.
Proof.
  unfold bitString at 1.
  destruct (recursionCount this + 1 >? nestingRecursionLimit) eqn:E; bool_to_prop.
  - rewrite remaining_zero by lia.
    cbn [bitString_at]. reflexivity.
  - rewrite remaining_succ by lia.
    cbn [bitString_at]. reflexivity.
Qed.

(** ** [forEach] *)

Lemma forEach_total {A B} (f : A -> outcome B) (l : list A) :
  (forall x, In x l -> f x <> OutOfFuel) -> forEach f l <> OutOfFuel.
Proof.
  induction l as [|x l IH]; intros H; cbn [forEach]; [discriminate|].
  pose proof (H x (or_introl eq_refl)) as Hx.
  destruct (f x); cbn [bind]; [|discriminate|congruence].
  assert (IH' : forEach f l <> OutOfFuel) by (apply IH; intros; apply H; right; assumption).
  destruct (forEach f l); cbn [bind]; [discriminate|discriminate|congruence].
Qed.

(** [forEach] returns when every call returns, with the results in order. *)
Lemma forEach_Return {A B} (f : A -> outcome B) (l : list A) (ys : list B) :
  Forall2 (fun x y => f x = Return y) l ys -> forEach f l = Return ys.
Proof.
  induction 1 as [|x y l ys Hx _ IH]; cbn [forEach]; [reflexivity|].
  rewrite Hx, IH. reflexivity.
Qed.

Lemma forEach_Return_inv {A B} (f : A -> outcome B) (l : list A) (ys : list B) :
  forEach f l = Return ys -> Forall2 (fun x y => f x = Return y) l ys.
Proof.
  revert ys. induction l as [|x l IH]; intros ys; cbn [forEach].
  - intros [= <-]. constructor.
  - destruct (f x) as [y| |] eqn:Hx; cbn [bind]; try discriminate.
    destruct (forEach f l) as [ys'| |]; cbn [bind]; try discriminate.
    intros [= <-]. constructor; [exact Hx|]. apply IH. reflexivity.
Qed.

(** [forEach] throws what the first failing call throws. *)
Lemma forEach_Throw {A B} (f : A -> outcome B) (pre post : list A) (x : A)
    (ys : list B) (e : ASN1ErrorKind) :
  Forall2 (fun x y => f x = Return y) pre ys ->
  f x = Throw e ->
  forEach f (pre ++ x :: post) = Throw e.
Proof.
  induction 1 as [|x' y l ys' Hx' _ IH]; intros Hx; cbn [forEach app].
  - rewrite Hx. reflexivity.
  - rewrite Hx', (IH Hx). reflexivity.
Qed.

(** ** Long-form tag numbers *)

Lemma base128_from (octets : list byte) (a : Z) :
  fold_left (fun n d => n * 128 + toZ d mod 128) octets a
  = a * 128 ^ len octets + base128 octets.
Proof.
  unfold base128. revert a. induction octets as [|d octets IH]; intros a.
  - cbn. lia.
  - cbn [fold_left]. rewrite IH, (IH (0 * 128 + _)), len_cons.
    rewrite Z.pow_add_r by (pose proof (len_nonneg octets); lia). lia.
Qed.

Lemma base128_cons (d : byte) (octets : list byte) :
  base128 (d :: octets) = toZ d mod 128 * 128 ^ len octets + base128 octets.
Proof. unfold base128 at 1. cbn [fold_left]. rewrite base128_from. lia. Qed.

Lemma base128_bounds (octets : list byte) :
  0 <= base128 octets < 128 ^ len octets.
Proof.
  induction octets as [|d octets IH].
  - cbn. lia.
  - rewrite base128_cons, len_cons.
    rewrite Z.pow_add_r by (pose proof (len_nonneg octets); lia).
    pose proof (Z.mod_pos_bound (toZ d) 128). nia.
Qed.

(** Minimal continuation octets below [2 ^ 21] are at most three. *)
Lemma minimalBase128_short (octets : list byte) (n : Z) :
  minimalBase128 octets n -> n < 2 ^ 21 -> len octets <= 3.
Proof.
  intros (Hc & Hhd & Hn) Hlt.
  destruct octets as [|d1 [|d2 octets]]; [contradiction|rewrite len_cons, len_nil; lia|].
  destruct Hc as [Hd1 _]. cbn [hd] in Hhd.
  assert (Hd : 1 <= toZ d1 mod 128).
  { pose proof (toZ_range d1).
    assert (toZ d1 <> 128) by (intros E; apply Hhd, toZ_inj; rewrite E; reflexivity).
    Z.to_euclidean_division_equations. lia. }
  rewrite base128_cons in Hn.
  pose proof (base128_bounds (d2 :: octets)) as Hb.
  destruct (Z.le_gt_cases (len (d1 :: d2 :: octets)) 3) as [|Hlen]; [assumption|exfalso].
  rewrite !len_cons in *.
  assert (128 ^ 3 <= 128 ^ (len octets + 1)).
  { apply Z.pow_le_mono_r; lia. }
  change (128 ^ 3) with (2 ^ 21) in *. nia.
Qed.

Lemma continuation_nonempty (octets : list byte) :
  continuation octets -> octets <> [].
Proof. destruct octets; [contradiction|discriminate]. Qed.

(** Before the last, every continuation octet has its high bit set. *)
Lemma continuation_high (octets : list byte) (i : Z) :
  continuation octets -> 0 <= i < len octets - 1 ->
  exists d, at_ octets i = Some d /\ 128 <= toZ d.
Proof.
  revert i. induction octets as [|d octets IH]; intros i Hc Hi; [contradiction|].
  rewrite len_cons in Hi. cbn [continuation] in Hc.
  destruct octets as [|d' octets]; [unfold len in Hi; cbn [length] in Hi; lia|].
  destruct Hc as [Hd Hc].
  destruct (Z.eq_dec i 0) as [->|].
  - exists d. split; [reflexivity|assumption].
  - rewrite at_cons_S by lia. apply IH; [assumption|lia].
Qed.

Lemma continuation_low (octets : list byte) :
  continuation octets ->
  exists d, at_ octets (len octets - 1) = Some d /\ toZ d < 128.
Proof.
  induction octets as [|d octets IH]; intros Hc; [contradiction|].
  rewrite len_cons. cbn [continuation] in Hc.
  destruct octets as [|d' octets].
  - exists d. split; [reflexivity|assumption].
  - destruct Hc as [_ Hc]. rewrite at_cons_S by (pose proof (len_nonneg (d' :: octets)); rewrite len_cons in *; pose proof (len_nonneg octets); lia).
    replace (len (d' :: octets) + 1 - 1 - 1) with (len (d' :: octets) - 1) by lia.
    apply IH. exact Hc.
Qed.

Lemma land_0x80_low (d : byte) : toZ d < 128 -> Z.land (toZ d) 0x80 = 0.
Proof.
  intros H. rewrite land_0x80_octet by apply toZ_range.
  destruct (Z.ltb_spec (toZ d) 128); [reflexivity|lia].
Qed.

Lemma land_0x80_high (d : byte) : 128 <= toZ d -> Z.land (toZ d) 0x80 = 0x80.
Proof.
  intros H. rewrite land_0x80_octet by apply toZ_range.
  destruct (Z.ltb_spec (toZ d) 128); [lia|reflexivity].
Qed.

(** The loop over the continuation octets stops past them when they end
    before [limit], and at [limit] otherwise. *)
Lemma skipTagNumber_continuation (octets pre rest : Uint8Array) (rounds : nat)
    (limit : Z) :
  continuation octets ->
  len pre <= limit ->
  limit - len pre <= Z.of_nat rounds ->
  let cursor := skipTagNumber rounds (pre ++ octets ++ rest) limit (len pre) in
  (len pre + len octets <= limit /\ cursor = len pre + len octets)
  \/ (limit < len pre + len octets /\ cursor = limit).
Proof.
  revert pre rounds. induction octets as [|d octets IH]; intros pre rounds Hc Hle Hr;
    [contradiction|].
  cbn zeta. rewrite len_cons. pose proof (len_nonneg octets) as Hoct.
  destruct rounds as [|rounds]; cbn [skipTagNumber].
  - right. lia.
  - destruct (Z.ltb_spec (len pre) limit); [|right; lia].
    replace (at_ (pre ++ (d :: octets) ++ rest) (len pre)) with (Some d)
      by (rewrite <- (Z.add_0_r (len pre)), at_app_r by lia; reflexivity).
    cbn [num continuation] in *. destruct octets as [|d' octets].
    + rewrite land_0x80_low by assumption. cbn [Z.eqb]. left. rewrite len_nil. lia.
    + destruct Hc as [Hd Hc]. rewrite land_0x80_high by assumption.
      change (128 =? 0) with false. cbn iota.
      specialize (IH (pre ++ [d]) rounds Hc).
      rewrite len_app, len_cons, len_nil in IH. cbn zeta in IH.
      rewrite <- app_assoc in IH. cbn [app] in IH |- *.
      replace (len pre + (0 + 1)) with (len pre + 1) in IH by lia.
      rewrite !len_cons in *.
      destruct IH as [[? ->]|[? ->]]; [lia|lia|left|right]; lia.
Qed.

Lemma decodeTagNumber_step (n : Z) (d : byte) :
  0 <= n < 2 ^ 21 ->
  Z.lor (shl n 7) (Z.land (toZ d) 0x7F) = n * 128 + toZ d mod 128.
Proof.
  intros Hn. rewrite shl_small by lia.
  rewrite land_0x7F_octet by apply toZ_range.
  change (2 ^ 7) with 128.
  apply (lor_small_disjoint n (toZ d mod 128) 7); [lia|].
  apply Z.mod_pos_bound. lia.
Qed.

(** A loop over the indices of a stretch of the buffer is a loop over its
    octets. *)
Lemma fold_left_indices (f : Z -> Z -> Z) (octets pre rest : Uint8Array) (a : Z) :
  fold_left (fun acc i => f acc (num (at_ (pre ++ octets ++ rest) i)))
    (map Z.of_nat (seq (length pre) (length octets))) a
  = fold_left (fun acc d => f acc (toZ d)) octets a.
Proof.
  revert pre a. induction octets as [|d octets IH]; intros pre a; [reflexivity|].
  cbn [length seq map fold_left].
  replace (at_ (pre ++ (d :: octets) ++ rest) (Z.of_nat (length pre))) with (Some d)
    by (rewrite <- (Z.add_0_r (Z.of_nat (length pre))); fold (len pre);
        rewrite at_app_r by lia; reflexivity).
  cbn [num]. specialize (IH (pre ++ [d]) (f a (toZ d))).
  rewrite length_app, Nat.add_1_r, <- app_assoc in IH. exact IH.
Qed.

(** The [for] loop over at most three continuation octets computes their
    base-128 value: no shift leaves the 32-bit range. *)
Lemma decodeTagNumber_base128 (id : byte) (octets rest : Uint8Array) :
  len octets <= 3 ->
  decodeTagNumber (id :: octets ++ rest) (1 + len octets) = base128 octets.
Proof.
  intros Hlen. unfold decodeTagNumber, base128.
  replace (Z.to_nat (1 + len octets) - 1)%nat with (length octets)
    by (unfold len; lia).
  transitivity
    (fold_left (fun tagNumber d => Z.lor (shl tagNumber 7) (Z.land (toZ d) 0x7F))
       octets 0);
    [exact (fold_left_indices
              (fun tagNumber b => Z.lor (shl tagNumber 7) (Z.land b 0x7F))
              octets [id] rest 0)|].
  destruct octets as [|d1 [|d2 [|d3 [|d4 octets]]]];
    try (unfold len in Hlen; cbn [length] in Hlen; lia);
    cbn [fold_left]; [reflexivity| | |].
  - apply decodeTagNumber_step. lia.
  - pose proof (Z.mod_pos_bound (toZ d1) 128).
    rewrite (decodeTagNumber_step 0) by lia.
    apply decodeTagNumber_step. lia.
  - pose proof (Z.mod_pos_bound (toZ d1) 128).
    pose proof (Z.mod_pos_bound (toZ d2) 128).
    rewrite (decodeTagNumber_step 0) by lia.
    rewrite (decodeTagNumber_step (0 * 128 + _)) by lia.
    apply decodeTagNumber_step. lia.
Qed.

(** The fields of the identifier octet, as [fromBytes] reads them. *)
Lemma identifier_tagClass (id : byte) :
  match Z.land (toZ id) 0xC0 with
  | 0x00 => universal
  | 0x40 => application
  | 0x80 => context
  | 0xC0 => private
  | _ => universal
  end = classOf id.
Proof. destruct id; reflexivity. Qed.

Lemma identifier_construction (id : byte) :
  (if Z.land (toZ id) 0x20 =? 0 then primitive else constructed)
  = constructionOf id.
Proof. destruct id; reflexivity. Qed.

Lemma longForm_geb (id : byte) :
  longForm id -> (Z.land (toZ id) 0x1F >=? 31) = true.
Proof. unfold longForm. intros ->. reflexivity. Qed.

Lemma shortForm_geb (id : byte) :
  ~ longForm id -> (Z.land (toZ id) 0x1F >=? 31) = false.
Proof.
  unfold longForm. intros H.
  assert (0 <= Z.land (toZ id) 0x1F < 32).
  { change 0x1F with (Z.ones 5). rewrite Z.land_ones by lia.
    apply Z.mod_pos_bound. lia. }
  rewrite Z.geb_leb. apply Z.leb_gt. lia.
Qed.

(** The long-form branch of [fromBytes] on continuation octets that end
    before the limit: the tag number is their base-128 value, if above 31. *)
Lemma decodeLongTagNumber_continuation (id : byte) (octets rest : Uint8Array) :
  continuation octets ->
  hd x00 octets <> x80 ->
  len octets <= 3 ->
  rest <> [] ->
  decodeLongTagNumber (id :: octets ++ rest) 1
  = if base128 octets <=? 31 then Throw ASN1Error
    else Return (base128 octets, 1 + len octets).
Proof.
  intros Hc Hhd Hlen Hrest. unfold decodeLongTagNumber.
  set (bytes := id :: octets ++ rest).
  assert (Hbytes : len bytes = 1 + len octets + len rest).
  { subst bytes. rewrite len_cons, len_app. lia. }
  assert (Hr : 1 <= len rest).
  { destruct rest; [contradiction|]. rewrite len_cons. pose proof (len_nonneg rest). lia. }
  pose proof (continuation_nonempty _ Hc) as Hne.
  assert (Ho : 1 <= len octets).
  { destruct octets; [contradiction|]. rewrite len_cons. pose proof (len_nonneg octets). lia. }
  assert (Hfirst : strictEq (at_ bytes 1) 0x80 = false).
  { subst bytes. destruct octets as [|d octets]; [contradiction|].
    cbn [hd] in Hhd. cbn. apply Z.eqb_neq. intros E. apply Hhd, toZ_inj.
    rewrite E. reflexivity. }
  rewrite Hfirst.
  set (limit := if len bytes - 1 >=? 4 then 4 else len bytes - 1).
  assert (Hlimit : 1 + len octets <= limit <= 4).
  { subst limit. destruct (len bytes - 1 >=? 4) eqn:E; bool_to_prop; lia. }
  pose proof (skipTagNumber_continuation octets [id] rest (Z.to_nat limit) limit Hc)
    as Hskip.
  change (len [id]) with 1 in Hskip. change ([id] ++ octets ++ rest) with bytes in Hskip.
  cbn zeta in Hskip.
  destruct Hskip as [[_ ->]|[? _]]; [lia|lia| |lia].
  replace (1 + len octets - 1) with (len [id] + (len octets - 1))
    by (change (len [id]) with 1; lia).
  subst bytes. change (id :: octets ++ rest) with ([id] ++ octets ++ rest).
  rewrite at_app_r by lia.
  destruct (continuation_low _ Hc) as (d & Hd & Hlow).
  rewrite at_app_l by lia. rewrite Hd. cbn [num].
  rewrite land_0x80_low by assumption. cbn [Z.eqb negb].
  change (len [id] + (len octets - 1) + 1) with (1 + (len octets - 1) + 1).
  replace (1 + (len octets - 1) + 1) with (1 + len octets) by lia.
  cbn [app]. rewrite decodeTagNumber_base128 by assumption. reflexivity.
Qed.

(** Whenever the long-form branch returns on continuation octets, these are
    at most three, a length octet follows them, and the tag number is their
    base-128 value, above 31. *)
Lemma decodeLongTagNumber_Return (id : byte) (octets rest : Uint8Array)
    (tagNumber cursor : Z) :
  continuation octets ->
  decodeLongTagNumber (id :: octets ++ rest) 1 = Return (tagNumber, cursor) ->
  tagNumber = base128 octets /\ 31 < tagNumber
  /\ cursor = 1 + len octets /\ len octets <= 3 /\ rest <> [].
Proof.
  intros Hc. unfold decodeLongTagNumber.
  set (bytes := id :: octets ++ rest).
  assert (Hbytes : len bytes = 1 + len octets + len rest).
  { subst bytes. rewrite len_cons, len_app. lia. }
  pose proof (len_nonneg rest) as Hr.
  assert (Ho : 1 <= len octets).
  { destruct octets; [contradiction|]. rewrite len_cons. pose proof (len_nonneg octets). lia. }
  destruct (strictEq (at_ bytes 1) 128); [discriminate|].
  set (limit := if len bytes - 1 >=? 4 then 4 else len bytes - 1).
  assert (Hlimit : 1 <= limit <= 4 /\ limit <= len bytes - 1).
  { subst limit. destruct (len bytes - 1 >=? 4) eqn:E; bool_to_prop; lia. }
  pose proof (skipTagNumber_continuation octets [id] rest (Z.to_nat limit) limit Hc)
    as Hskip.
  change (len [id]) with 1 in Hskip. change ([id] ++ octets ++ rest) with bytes in Hskip.
  cbn zeta in Hskip.
  destruct Hskip as [[Hfit ->]|[Hlong ->]]; [lia|lia| |].
  - (* the octets end before the limit *)
    destruct (negb _); [destruct (limit =? len bytes - 1); discriminate|].
    subst bytes. rewrite decodeTagNumber_base128 by lia.
    destruct (Z.leb_spec (base128 octets) 31); [discriminate|].
    intros [= <- <-]. repeat split; try lia.
    intros ->. rewrite len_nil in *. lia.
  - (* the limit cuts the octets short *)
    destruct (Z.eq_dec limit 1) as [E|E].
    + rewrite E. change (1 - 1) with 0.
      change (decodeTagNumber bytes 1) with 0. cbn [Z.leb Z.compare].
      split_ifs; discriminate.
    + destruct (continuation_high octets (limit - 2) Hc) as (d & Hd & Hhigh); [lia|].
      replace (limit - 1) with (len [id] + (limit - 2)) by (change (len [id]) with 1; lia).
      subst bytes. change (id :: octets ++ rest) with ([id] ++ octets ++ rest).
      rewrite at_app_r, at_app_l, Hd by lia. cbn [num].
      rewrite land_0x80_high by assumption. cbn [Z.eqb negb].
      destruct (limit =? _); discriminate.
Qed.

Lemma at_0_cons (id : byte) (rest : Uint8Array) : num (at_ (id :: rest) 0) = toZ id.
Proof. reflexivity. Qed.

(** [fromBytes] on a short-form identifier octet: the tag fields are those of
    the octet and decoding goes on with the length. *)
Lemma fromBytes_short_tag (this : t) (id : byte) (rest : Uint8Array) :
  ~ longForm id ->
  rest <> [] ->
  recursionCount this + 1 <= nestingRecursionLimit ->
  fromBytes this (id :: rest)
  = decodeLengthAndValue (fromBytes (newChild this))
      (mkElement (recursionCount this) (classOf id) (constructionOf id)
         (Z.land (toZ id) 0x1F) (value this))
      (id :: rest) 1.
Proof.
  intros Hshort Hrest Hrc. rewrite fromBytes_unfold.
  destruct rest as [|r rest]; [contradiction|].
  destruct (Z.ltb_spec (len (id :: r :: rest)) 2) as [H|_];
    [rewrite !len_cons in H; pose proof (len_nonneg rest); lia|].
  destruct (Z.gtb_spec (recursionCount this + 1) nestingRecursionLimit); [lia|].
  unfold fromBytes_body. rewrite at_0_cons, shortForm_geb by assumption.
  cbn [bind]. rewrite identifier_tagClass, identifier_construction. reflexivity.
Qed.

(** [fromBytes] on a long-form tag number in minimal form below [2 ^ 21]. *)
Lemma fromBytes_long_tag (this : t) (id : byte) (octets rest : Uint8Array) (n : Z) :
  longForm id ->
  minimalBase128 octets n ->
  31 < n < 2 ^ 21 ->
  rest <> [] ->
  recursionCount this + 1 <= nestingRecursionLimit ->
  fromBytes this (id :: octets ++ rest)
  = decodeLengthAndValue (fromBytes (newChild this))
      (mkElement (recursionCount this) (classOf id) (constructionOf id) n
         (value this))
      (id :: octets ++ rest) (1 + len octets).
Proof.
  intros Hlong Hmin Hn Hrest Hrc. rewrite fromBytes_unfold.
  pose proof (minimalBase128_short _ _ Hmin (proj2 Hn)) as Hshort.
  destruct Hmin as (Hc & Hhd & <-).
  destruct (Z.ltb_spec (len (id :: octets ++ rest)) 2) as [H|_].
  { rewrite len_cons, len_app in H. pose proof (len_nonneg octets).
    destruct rest; [contradiction|]. rewrite len_cons in H.
    pose proof (len_nonneg rest). lia. }
  destruct (Z.gtb_spec (recursionCount this + 1) nestingRecursionLimit); [lia|].
  unfold fromBytes_body. rewrite at_0_cons, longForm_geb by assumption.
  change (0 + 1) with 1.
  rewrite decodeLongTagNumber_continuation by assumption.
  destruct (Z.leb_spec (base128 octets) 31); [lia|].
  cbn [bind]. rewrite identifier_tagClass, identifier_construction. reflexivity.
Qed.

(** [fromBytes] never returns a long-form tag number of 31 or less. *)
Lemma fromBytes_long_tag_Return (this e : t) (id : byte) (octets rest : Uint8Array)
    (n : Z) :
  longForm id ->
  continuation octets ->
  fromBytes this (id :: octets ++ rest) = Return (e, n) ->
  tagNumber e = base128 octets /\ 31 < tagNumber e.
Proof.
  intros Hlong Hc. rewrite fromBytes_unfold.
  destruct (len (id :: octets ++ rest) <? 2); [discriminate|].
  destruct (recursionCount this + 1 >? nestingRecursionLimit); [discriminate|].
  unfold fromBytes_body. rewrite at_0_cons, longForm_geb by assumption.
  change (0 + 1) with 1.
  destruct (decodeLongTagNumber (id :: octets ++ rest) 1) as [[tn cursor]| |] eqn:E;
    cbn [bind]; try discriminate.
  apply decodeLongTagNumber_Return in E; [|assumption].
  destruct E as (-> & Hgt & _). intros H.
  assert (Htn : tagNumber e = base128 octets); [|rewrite Htn; split; [reflexivity|assumption]].
  revert H. unfold decodeLengthAndValue.
  destruct (scanChildren _ _ _ _); cbn [bind]; split_ifs; intros H; try discriminate;
    injection H as <- <-; reflexivity.
Qed.

Lemma num_octet (o : option byte) : exists d, num o = toZ d.
Proof. destruct o as [d|]; [exists d|exists x00]; reflexivity. Qed.

(** The [for] loop over at most three continuation octets stays below
    [2 ^ 21]. *)
Lemma decodeTagNumber_bound (bytes : Uint8Array) (cursor : Z) :
  1 <= cursor <= 4 -> 0 <= decodeTagNumber bytes cursor < 2 ^ 21.
Proof.
  intros Hc. unfold decodeTagNumber.
  destruct (num_octet (at_ bytes 1)) as [d1 E1].
  destruct (num_octet (at_ bytes 2)) as [d2 E2].
  destruct (num_octet (at_ bytes 3)) as [d3 E3].
  pose proof (Z.mod_pos_bound (toZ d1) 128).
  pose proof (Z.mod_pos_bound (toZ d2) 128).
  pose proof (Z.mod_pos_bound (toZ d3) 128).
  assert (Hcases : cursor = 1 \/ cursor = 2 \/ cursor = 3 \/ cursor = 4) by lia.
  destruct Hcases as [-> | [-> | [-> | ->]]].
  - change (map Z.of_nat (seq 1 (Z.to_nat 1 - 1))) with (@nil Z).
    cbn [fold_left]. lia.
  - change (map Z.of_nat (seq 1 (Z.to_nat 2 - 1))) with [1].
    cbn [fold_left]. rewrite E1, decodeTagNumber_step by lia. lia.
  - change (map Z.of_nat (seq 1 (Z.to_nat 3 - 1))) with [1; 2].
    cbn [fold_left]. rewrite E1, E2.
    rewrite (decodeTagNumber_step 0) by lia.
    rewrite decodeTagNumber_step by lia. lia.
  - change (map Z.of_nat (seq 1 (Z.to_nat 4 - 1))) with [1; 2; 3].
    cbn [fold_left]. rewrite E1, E2, E3.
    rewrite (decodeTagNumber_step 0) by lia.
    rewrite (decodeTagNumber_step (0 * 128 + _)) by lia.
    rewrite decodeTagNumber_step by lia. lia.
Qed.

(** The tag number and the cursor that the long-form branch returns. *)
Lemma decodeLongTagNumber_bounds (bytes : Uint8Array) (tn cursor : Z) :
  2 <= len bytes ->
  decodeLongTagNumber bytes 1 = Return (tn, cursor) ->
  31 < tn < 2 ^ 21 /\ 1 <= cursor < len bytes.
Proof.
  intros Hlen. unfold decodeLongTagNumber.
  destruct (strictEq (at_ bytes 1) 128); [discriminate|].
  set (limit := if len bytes - 1 >=? 4 then 4 else len bytes - 1).
  assert (Hlimit : 1 <= limit <= 4 /\ limit <= len bytes - 1).
  { subst limit. destruct (Z.geb_spec (len bytes - 1) 4); lia. }
  pose proof (skipTagNumber_bounds (Z.to_nat limit) bytes limit 1) as Hb.
  destruct (negb _); [destruct (limit =? _); discriminate|].
  pose proof (decodeTagNumber_bound bytes
                (skipTagNumber (Z.to_nat limit) bytes limit 1)) as Htn.
  destruct (Z.leb_spec (decodeTagNumber bytes
                          (skipTagNumber (Z.to_nat limit) bytes limit 1)) 31);
    [discriminate|].
  intros [= <- <-]. lia.
Qed.

(** ** Length octets *)

Section LengthOctets.

Variable child_fromBytes : Uint8Array -> outcome (t * Z).
Variable this : t.
Variables pre contents more : Uint8Array.

(** Short form: one octet below 128 holding the length of the contents. *)
Lemma decodeLengthAndValue_short (l : byte) :
  toZ l = len contents ->
  len contents < 128 ->
  decodeLengthAndValue child_fromBytes this (pre ++ l :: contents ++ more)
    (len pre)
  = Return (set_value this contents, len pre + 1 + len contents).
Proof.
  intros Hl Hlt. unfold decodeLengthAndValue.
  pose proof (len_nonneg pre). pose proof (len_nonneg contents).
  pose proof (len_nonneg more).
  replace (at_ (pre ++ l :: contents ++ more) (len pre)) with (Some l)
    by (rewrite <- (Z.add_0_r (len pre)), at_app_r by lia; reflexivity).
  cbn [num]. rewrite land_0x80_low by lia. cbn [Z.eqb].
  rewrite land_0x7F_octet by apply toZ_range.
  rewrite Z.mod_small by lia. rewrite Hl.
  destruct (Z.gtb_spec (len pre + 1 + len contents)
              (len (pre ++ l :: contents ++ more))) as [H'|_].
  { rewrite len_app, len_cons, len_app in H'. lia. }
  replace (pre ++ l :: contents ++ more) with ((pre ++ [l]) ++ contents ++ more)
    by (rewrite <- app_assoc; reflexivity).
  replace (len pre + 1) with (len (pre ++ [l]))
    by (rewrite len_app, len_cons, len_nil; lia).
  rewrite slice_app_mid. reflexivity.
Qed.

Lemma lengthNumberOctets_1 (bytes : Uint8Array) (cursor : Z) :
  lengthNumberOctets bytes cursor 1
  = [0; 0; 0; toZ (ToUint8 (num (at_ bytes (cursor + 1 - 1))))].
Proof. reflexivity. Qed.

Lemma lengthNumberOctets_2 (bytes : Uint8Array) (cursor : Z) :
  lengthNumberOctets bytes cursor 2
  = [0; 0; toZ (ToUint8 (num (at_ bytes (cursor + 2 - 2))));
     toZ (ToUint8 (num (at_ bytes (cursor + 2 - 1))))].
Proof. reflexivity. Qed.

(** Long form on one length octet. *)
Lemma decodeLengthAndValue_long1 (l : byte) :
  toZ l = len contents ->
  decodeLengthAndValue child_fromBytes this
    (pre ++ x81 :: l :: contents ++ more) (len pre)
  = Return (set_value this contents, len pre + 2 + len contents).
Proof.
  intros Hl. unfold decodeLengthAndValue.
  pose proof (len_nonneg pre). pose proof (len_nonneg contents).
  pose proof (len_nonneg more). pose proof (toZ_range l).
  set (bytes := pre ++ x81 :: l :: contents ++ more).
  assert (Hbytes : len bytes = len pre + 2 + len contents + len more).
  { subst bytes. rewrite len_app, !len_cons, len_app. lia. }
  replace (at_ bytes (len pre)) with (Some x81)
    by (subst bytes; rewrite <- (Z.add_0_r (len pre)), at_app_r by lia; reflexivity).
  cbn [num]. change (Z.land (toZ x81) 128 =? 128) with true.
  change (Z.land (toZ x81) 127) with 1. cbn [negb Z.eqb Pos.eqb Z.gtb Z.compare Pos.compare Pos.compare_cont].
  destruct (Z.geb_spec (len pre + 1) (len bytes)) as [H'|_]; [lia|].
  rewrite lengthNumberOctets_1.
  replace (at_ bytes (len pre + 1 + 1 - 1)) with (Some l)
    by (subst bytes; replace (len pre + 1 + 1 - 1) with (len pre + 1) by lia;
        rewrite at_app_r by lia; reflexivity).
  cbn [num]. rewrite ToUint8_toZ.
  assert (Hdec : decodeLength [0; 0; 0; toZ l] = toZ l).
  { unfold decodeLength. cbn [fold_left].
    change (shl 0 8 + 0) with 0. rewrite (shl_small 0) by lia. lia. }
  rewrite Hdec, Hl.
  destruct (Z.ltb_spec (len pre + 1 + len contents) (len pre + 1)); [lia|].
  destruct (Z.gtb_spec (len pre + 1 + 1 + len contents) (len bytes)); [lia|].
  subst bytes.
  replace (pre ++ x81 :: l :: contents ++ more)
    with ((pre ++ [x81; l]) ++ contents ++ more)
    by (rewrite <- app_assoc; reflexivity).
  replace (len pre + 1 + 1) with (len (pre ++ [x81; l]))
    by (rewrite len_app, !len_cons, len_nil; lia).
  rewrite slice_app_mid. f_equal. f_equal. rewrite len_app, !len_cons, len_nil. lia.
Qed.

(** Long form on two length octets. *)
Lemma decodeLengthAndValue_long2 (h l : byte) :
  toZ h * 256 + toZ l = len contents ->
  decodeLengthAndValue child_fromBytes this
    (pre ++ x82 :: h :: l :: contents ++ more) (len pre)
  = Return (set_value this contents, len pre + 3 + len contents).
Proof.
  intros Hl. unfold decodeLengthAndValue.
  pose proof (len_nonneg pre). pose proof (len_nonneg contents).
  pose proof (len_nonneg more). pose proof (toZ_range l). pose proof (toZ_range h).
  set (bytes := pre ++ x82 :: h :: l :: contents ++ more).
  assert (Hbytes : len bytes = len pre + 3 + len contents + len more).
  { subst bytes. rewrite len_app, !len_cons, len_app. lia. }
  replace (at_ bytes (len pre)) with (Some x82)
    by (subst bytes; rewrite <- (Z.add_0_r (len pre)), at_app_r by lia; reflexivity).
  cbn [num]. change (Z.land (toZ x82) 128 =? 128) with true.
  change (Z.land (toZ x82) 127) with 2. cbn [negb Z.eqb Pos.eqb Z.gtb Z.compare Pos.compare Pos.compare_cont].
  destruct (Z.geb_spec (len pre + 2) (len bytes)) as [H'|_]; [lia|].
  rewrite lengthNumberOctets_2.
  replace (at_ bytes (len pre + 1 + 2 - 2)) with (Some h)
    by (subst bytes; replace (len pre + 1 + 2 - 2) with (len pre + 1) by lia;
        rewrite at_app_r by lia; reflexivity).
  replace (at_ bytes (len pre + 1 + 2 - 1)) with (Some l)
    by (subst bytes; replace (len pre + 1 + 2 - 1) with (len pre + 2) by lia;
        rewrite at_app_r by lia; reflexivity).
  cbn [num]. rewrite !ToUint8_toZ.
  assert (Hdec : decodeLength [0; 0; toZ h; toZ l] = toZ h * 256 + toZ l).
  { unfold decodeLength. cbn [fold_left].
    change (shl (shl 0 8 + 0) 8 + 0) with 0. rewrite (shl_small 0) by lia.
    rewrite shl_small by lia. lia. }
  rewrite Hdec, Hl.
  destruct (Z.ltb_spec (len pre + 1 + len contents) (len pre + 1)); [lia|].
  destruct (Z.gtb_spec (len pre + 1 + 2 + len contents) (len bytes)); [lia|].
  subst bytes.
  replace (pre ++ x82 :: h :: l :: contents ++ more)
    with ((pre ++ [x82; h; l]) ++ contents ++ more)
    by (rewrite <- app_assoc; reflexivity).
  replace (len pre + 1 + 2) with (len (pre ++ [x82; h; l]))
    by (rewrite len_app, !len_cons, len_nil; lia).
  rewrite slice_app_mid. f_equal. f_equal. rewrite len_app, !len_cons, len_nil. lia.
Qed.

End LengthOctets.

(** The count of [toBytes] over the first three of the four length octets:
    one for every zero octet among them, leading or not. *)
Lemma startOfNonPadding_count (a b c d : Z) :
  fold_left
    (fun start i =>
       if nth (Z.to_nat i) [a; b; c; d] 0 =? 0x00 then start + 1 else start)
    [0; 1; 2] 0
  = (if a =? 0 then 1 else 0) + (if b =? 0 then 1 else 0)
    + (if c =? 0 then 1 else 0).
Proof.
  cbn [fold_left].
  change (nth (Z.to_nat 0) [a; b; c; d] 0) with a.
  change (nth (Z.to_nat 1) [a; b; c; d] 0) with b.
  change (nth (Z.to_nat 2) [a; b; c; d] 0) with c.
  destruct (a =? 0), (b =? 0), (c =? 0); reflexivity.
Qed.

(** The length octets that [toBytes] writes under the definite preference. *)
Lemma definiteLengthOctets_short (length : Z) :
  length < 127 -> definiteLengthOctets length = [length].
Proof.
  intros H. unfold definiteLengthOctets.
  destruct (Z.ltb_spec length 127); [reflexivity|lia].
Qed.

Lemma definiteLengthOctets_long1 (length : Z) :
  127 <= length < 256 -> definiteLengthOctets length = [0x81; length].
Proof.
  intros H. unfold definiteLengthOctets.
  destruct (Z.ltb_spec length 127); [lia|].
  cbn [map].
  change (shl (3 - 0) 3) with 24. change (shl (3 - 1) 3) with 16.
  change (shl (3 - 2) 3) with 8. change (shl (3 - 3) 3) with 0.
  rewrite !ushr_small by lia.
  change 0xFF with (Z.ones 8). rewrite !Z.land_ones by lia.
  rewrite (Z.div_small length (2 ^ 24)), (Z.div_small length (2 ^ 16)),
    (Z.div_small length (2 ^ 8)) by lia.
  rewrite Z.div_1_r, (Z.mod_small length) by lia.
  reflexivity.
Qed.

Lemma definiteLengthOctets_long2 (length : Z) :
  256 <= length < 65536 ->
  definiteLengthOctets length = [0x82; length / 256; length mod 256].
Proof.
  intros H. unfold definiteLengthOctets.
  destruct (Z.ltb_spec length 127); [lia|].
  cbn [map].
  change (shl (3 - 0) 3) with 24. change (shl (3 - 1) 3) with 16.
  change (shl (3 - 2) 3) with 8. change (shl (3 - 3) 3) with 0.
  rewrite !ushr_small by lia.
  change 0xFF with (Z.ones 8). rewrite !Z.land_ones by lia.
  rewrite (Z.div_small length (2 ^ 24)), (Z.div_small length (2 ^ 16)) by lia.
  rewrite Z.div_1_r. change (2 ^ 8) with 256.
  assert (Hd : 1 <= length / 256 < 256) by (Z.to_euclidean_division_equations; lia).
  rewrite (Z.mod_small (length / 256)) by lia.
  change (0 mod 256) with 0. cbv zeta. rewrite startOfNonPadding_count.
  destruct (Z.eqb_spec (length / 256) 0); [lia|].
  reflexivity.
Qed.

(** ** The identifier octets that [toBytes] writes *)

Lemma identifier_octet (c : ASN1TagClass) (k : ASN1Construction) (n : Z) :
  0 <= n < 32 ->
  let id :=
    ToUint8
      (Z.lor (Z.lor (Z.lor 0x00 (shl (tagClassCode c) 6))
                (shl (constructionCode k) 5)) n) in
  classOf id = c /\ constructionOf id = k /\ Z.land (toZ id) 0x1F = n.
Proof.
  intros Hn.
  assert (Hm : exists m : nat, (m < 32)%nat /\ n = Z.of_nat m)
    by (exists (Z.to_nat n); lia).
  destruct Hm as (m & Hm & ->).
  do 32 (destruct m as [|m]; [destruct c, k; vm_compute; auto|]).
  lia.
Qed.

Lemma lor_0x80 (x : Z) : 0 <= x < 128 -> Z.lor x 0x80 = 128 + x.
Proof.
  intros H. rewrite Z.lor_comm.
  apply (lor_small_disjoint 1 x 7); lia.
Qed.

Lemma land_0x7F_clear (x : Z) : 0 <= x < 128 -> Z.land (128 + x) 0x7F = x.
Proof.
  intros H. change 0x7F with (Z.ones 7). rewrite Z.land_ones by lia.
  change (2 ^ 7) with 128. Z.to_euclidean_division_equations. lia.
Qed.

(** One round of the loop [while (number !== 0)]. *)
Lemma encodeTagNumber_round (rounds : nat) (number : Z) (encodedNumber : list Z) :
  0 < number < 2 ^ 31 ->
  encodeTagNumber (S rounds) number encodedNumber
  = encodeTagNumber rounds (number / 128)
      (128 + number mod 128 :: encodedNumber).
Proof.
  intros H. cbn [encodeTagNumber].
  destruct (Z.eqb_spec number 0); [lia|].
  rewrite ToInt32_small, ushr_small by lia.
  change 0x7F with (Z.ones 7). rewrite Z.land_ones by lia.
  change (2 ^ 7) with 128. cbn [orFirst].
  rewrite lor_0x80 by (apply Z.mod_pos_bound; lia). reflexivity.
Qed.

Lemma encodeTagNumber_done (rounds : nat) (encodedNumber : list Z) :
  encodeTagNumber rounds 0 encodedNumber = encodedNumber.
Proof. destruct rounds; reflexivity. Qed.

Lemma ushr_7_bound (n k : Z) :
  0 <= k -> 0 <= n < 2 ^ (7 + k) -> 0 <= ushr n 7 < 2 ^ k.
Proof.
  intros Hk Hn. unfold ushr, ToUint32. rewrite Z.shiftr_div_pow2 by lia.
  pose proof (Z.mod_pos_bound n (2 ^ 32)).
  assert (n mod 2 ^ 32 <= n) by (apply Z.mod_le; lia).
  split; [apply Z.div_pos; lia|].
  apply Z.div_lt_upper_bound; [lia|]. rewrite <- Z.pow_add_r by lia. lia.
Qed.

Lemma encodeTagNumber_stable (rounds : nat) (number : Z) (encodedNumber : list Z) :
  0 <= number < 2 ^ (7 * Z.of_nat rounds) ->
  encodeTagNumber (S rounds) number encodedNumber
  = encodeTagNumber rounds number encodedNumber.
Proof.
  revert number encodedNumber.
  induction rounds as [|rounds IH]; intros number encodedNumber H.
  - change (2 ^ (7 * Z.of_nat 0)) with 1 in H.
    replace number with 0 by lia. reflexivity.
  - change (encodeTagNumber (S (S rounds)) number encodedNumber)
      with (if number =? 0 then encodedNumber
            else encodeTagNumber (S rounds) (ushr number 7)
                   (orFirst 0x80 (Z.land (ToInt32 number) 0x7F :: encodedNumber))).
    change (encodeTagNumber (S rounds) number encodedNumber)
      with (if number =? 0 then encodedNumber
            else encodeTagNumber rounds (ushr number 7)
                   (orFirst 0x80 (Z.land (ToInt32 number) 0x7F :: encodedNumber))).
    destruct (number =? 0); [reflexivity|].
    apply IH. apply ushr_7_bound; [lia|].
    replace (7 + 7 * Z.of_nat rounds) with (7 * Z.of_nat (S rounds)) by lia.
    exact H.
Qed.

(** The loop ends within five rounds: a sixth changes nothing. *)
Lemma encodeTagNumber_rounds (number : Z) (encodedNumber : list Z) :
  encodeTagNumber 6 number encodedNumber = encodeTagNumber 5 number encodedNumber.
Proof.
  change (encodeTagNumber 6 number encodedNumber)
    with (if number =? 0 then encodedNumber
          else encodeTagNumber 5 (ushr number 7)
                 (orFirst 0x80 (Z.land (ToInt32 number) 0x7F :: encodedNumber))).
  change (encodeTagNumber 5 number encodedNumber)
    with (if number =? 0 then encodedNumber
          else encodeTagNumber 4 (ushr number 7)
                 (orFirst 0x80 (Z.land (ToInt32 number) 0x7F :: encodedNumber))).
  destruct (number =? 0); [reflexivity|].
  apply encodeTagNumber_stable.
  unfold ushr, ToUint32. rewrite Z.shiftr_div_pow2 by lia.
  pose proof (Z.mod_pos_bound number (2 ^ 32)).
  split; [apply Z.div_pos; lia|]. apply Z.div_lt_upper_bound; lia.
Qed.

Lemma encodedNumber_1 (n : Z) :
  0 < n < 128 -> andLast 0x7F (encodeTagNumber 5 n []) = [n].
Proof.
  intros H. rewrite encodeTagNumber_round by lia.
  rewrite Z.div_small, encodeTagNumber_done by lia.
  cbn [andLast]. rewrite land_0x7F_clear by (apply Z.mod_pos_bound; lia).
  rewrite Z.mod_small by lia. reflexivity.
Qed.

Lemma encodedNumber_2 (n : Z) :
  128 <= n < 2 ^ 14 ->
  andLast 0x7F (encodeTagNumber 5 n []) = [128 + n / 128; n mod 128].
Proof.
  intros H.
  assert (0 < n / 128 < 128) by (Z.to_euclidean_division_equations; lia).
  rewrite encodeTagNumber_round by lia.
  rewrite encodeTagNumber_round by lia.
  rewrite (Z.div_small (n / 128)), encodeTagNumber_done by lia.
  cbn [andLast]. rewrite land_0x7F_clear by (apply Z.mod_pos_bound; lia).
  rewrite (Z.mod_small (n / 128)) by lia. reflexivity.
Qed.

Lemma encodedNumber_3 (n : Z) :
  2 ^ 14 <= n < 2 ^ 21 ->
  andLast 0x7F (encodeTagNumber 5 n [])
  = [128 + n / 128 / 128; 128 + (n / 128) mod 128; n mod 128].
Proof.
  intros H.
  assert (128 <= n / 128 < 2 ^ 14) by (Z.to_euclidean_division_equations; lia).
  assert (0 < n / 128 / 128 < 128) by (Z.to_euclidean_division_equations; lia).
  rewrite encodeTagNumber_round by lia.
  rewrite encodeTagNumber_round by lia.
  rewrite encodeTagNumber_round by lia.
  rewrite (Z.div_small (n / 128 / 128)), encodeTagNumber_done by lia.
  cbn [andLast]. rewrite land_0x7F_clear by (apply Z.mod_pos_bound; lia).
  rewrite (Z.mod_small (n / 128 / 128)) by lia. reflexivity.
Qed.

(** The identifier octets of [toBytes] in short form. *)
Lemma tagBytes_short (e : t) :
  0 <= tagNumber e < 31 ->
  exists id,
    map ToUint8 (tagBytes e) = [id]
    /\ ~ longForm id
    /\ classOf id = tagClass e /\ constructionOf id = construction e
    /\ Z.land (toZ id) 0x1F = tagNumber e.
Proof.
  intros H. unfold tagBytes. cbv zeta.
  destruct (Z.ltb_spec (tagNumber e) 31); [|lia].
  destruct (identifier_octet (tagClass e) (construction e) (tagNumber e))
    as (Hc & Hk & Hn); [lia|].
  eexists. split; [reflexivity|]. unfold longForm.
  repeat split; try assumption. rewrite Hn. lia.
Qed.

(** The identifier octets of [toBytes] in long form, below [2 ^ 21]: the
    continuation octets are a minimal encoding of the tag number. *)
Lemma tagBytes_long (e : t) :
  31 <= tagNumber e < 2 ^ 21 ->
  exists id octets,
    map ToUint8 (tagBytes e) = id :: octets
    /\ longForm id
    /\ classOf id = tagClass e /\ constructionOf id = construction e
    /\ minimalBase128 octets (tagNumber e).
Proof.
  intros H. unfold tagBytes. cbv zeta.
  destruct (Z.ltb_spec (tagNumber e) 31); [lia|].
  destruct (identifier_octet (tagClass e) (construction e) 31)
    as (Hc & Hk & Hn); [lia|].
  set (n := tagNumber e) in *.
  assert (Hcases : n < 128 \/ 128 <= n < 2 ^ 14 \/ 2 ^ 14 <= n < 2 ^ 21) by lia.
  destruct Hcases as [H1|[H2|H3]].
  - rewrite encodedNumber_1 by lia. cbn [map].
    eexists. eexists. split; [reflexivity|].
    unfold minimalBase128. cbn [continuation hd]. repeat split; try assumption.
    + rewrite toZ_ToUint8; lia.
    + intros E. apply (f_equal toZ) in E.
      rewrite toZ_ToUint8 in E by lia. change (toZ x80) with 128 in E. lia.
    + unfold base128. cbn [fold_left]. rewrite toZ_ToUint8 by lia.
      rewrite Z.mod_small; lia.
  - rewrite encodedNumber_2 by lia. cbn [map].
    assert (0 < n / 128 < 128) by (Z.to_euclidean_division_equations; lia).
    pose proof (Z.mod_pos_bound n 128).
    eexists. eexists. split; [reflexivity|].
    unfold minimalBase128. cbn [continuation hd]. repeat split; try assumption.
    + rewrite toZ_ToUint8; lia.
    + rewrite toZ_ToUint8; lia.
    + intros E. apply (f_equal toZ) in E.
      rewrite toZ_ToUint8 in E by lia. change (toZ x80) with 128 in E. lia.
    + unfold base128. cbn [fold_left]. rewrite !toZ_ToUint8 by lia.
      Z.to_euclidean_division_equations. lia.
  - rewrite encodedNumber_3 by lia. cbn [map].
    assert (128 <= n / 128 < 2 ^ 14) by (Z.to_euclidean_division_equations; lia).
    assert (0 < n / 128 / 128 < 128) by (Z.to_euclidean_division_equations; lia).
    pose proof (Z.mod_pos_bound n 128). pose proof (Z.mod_pos_bound (n / 128) 128).
    eexists. eexists. split; [reflexivity|].
    unfold minimalBase128. cbn [continuation hd]. repeat split; try assumption.
    + rewrite toZ_ToUint8; lia.
    + rewrite toZ_ToUint8; lia.
    + rewrite toZ_ToUint8; lia.
    + intros E. apply (f_equal toZ) in E.
      rewrite toZ_ToUint8 in E by lia. change (toZ x80) with 128 in E. lia.
    + unfold base128. cbn [fold_left]. rewrite !toZ_ToUint8 by lia.
      Z.to_euclidean_division_equations. lia.
Qed.

(** ** Reading back what [toBytes] wrote *)

(** The definite length octets of [toBytes] and the contents, read back by
    [fromBytes] past any identifier octets [pre]. *)
Lemma decodeLengthAndValue_definite (child_fromBytes : Uint8Array -> outcome (t * Z))
    (this : t) (pre contents more : Uint8Array) :
  len contents < 65536 ->
  decodeLengthAndValue child_fromBytes this
    (pre ++ map ToUint8 (definiteLengthOctets (len contents)) ++ contents ++ more)
    (len pre)
  = Return (set_value this contents,
            len pre + len (definiteLengthOctets (len contents)) + len contents).
Proof.
  intros Hlt. pose proof (len_nonneg contents) as Hpos.
  assert (Hcases : len contents < 127 \/ 127 <= len contents < 256
                   \/ 256 <= len contents < 65536) by lia.
  destruct Hcases as [H|[H|H]].
  - rewrite definiteLengthOctets_short by assumption. cbn [map app].
    rewrite decodeLengthAndValue_short; [reflexivity| |lia].
    apply toZ_ToUint8. lia.
  - rewrite definiteLengthOctets_long1 by assumption. cbn [map app].
    change (ToUint8 129) with x81.
    rewrite decodeLengthAndValue_long1; [reflexivity|].
    apply toZ_ToUint8. lia.
  - rewrite definiteLengthOctets_long2 by assumption. cbn [map app].
    change (ToUint8 130) with x82.
    assert (0 <= len contents / 256 < 256) by (Z.to_euclidean_division_equations; lia).
    pose proof (Z.mod_pos_bound (len contents) 256).
    rewrite decodeLengthAndValue_long2; [reflexivity|].
    rewrite !toZ_ToUint8 by lia. Z.to_euclidean_division_equations. lia.
Qed.

(** [fromBytes] on the octets of [toBytes], whatever follows them. *)
Lemma fromBytes_toBytes_app (this e : t) (more : Uint8Array) :
  recursionCount this + 1 <= nestingRecursionLimit ->
  0 <= tagNumber e < 31 \/ 31 < tagNumber e < 2 ^ 21 ->
  len (value e) < 65536 ->
  fromBytes this (toBytes definite e ++ more)
  = Return (mkElement (recursionCount this) (tagClass e) (construction e)
              (tagNumber e) (value e),
            len (toBytes definite e)).
Proof.
  intros Hrc Htag Hlen. unfold toBytes, lengthOctets.
  rewrite app_nil_r, !len_app, !len_map, <- !app_assoc.
  assert (Hrest : forall l, map ToUint8 (definiteLengthOctets (len (value e))) ++ l <> []).
  { intros l. unfold definiteLengthOctets. destruct (_ <? _); discriminate. }
  destruct Htag as [Hshort|Hlong].
  - destruct (tagBytes_short e Hshort) as (id & Hid & Hnl & Hc & Hk & Hn).
    assert (Hl : len (tagBytes e) = 1).
    { rewrite <- (len_map ToUint8), Hid. reflexivity. }
    rewrite Hid, Hl. cbn [app].
    rewrite fromBytes_short_tag by (try assumption; apply Hrest).
    rewrite Hc, Hk, Hn.
    change (id :: map ToUint8 (definiteLengthOctets (len (value e))) ++ value e ++ more)
      with ([id] ++ map ToUint8 (definiteLengthOctets (len (value e))) ++ value e ++ more).
    change 1 with (len [id]) at 1.
    rewrite decodeLengthAndValue_definite by assumption.
    unfold set_value. cbn [recursionCount tagClass construction tagNumber].
    f_equal. f_equal. change (len [id]) with 1. lia.
  - destruct (tagBytes_long e) as (id & octets & Hid & Hl & Hc & Hk & Hmin); [lia|].
    assert (Hlen' : len (tagBytes e) = 1 + len octets).
    { rewrite <- (len_map ToUint8), Hid, len_cons. lia. }
    rewrite Hid, Hlen'. cbn [app].
    rewrite (fromBytes_long_tag this id octets _ (tagNumber e))
      by (try assumption; try lia; apply Hrest).
    rewrite Hc, Hk.
    change (id :: octets ++ map ToUint8 (definiteLengthOctets (len (value e))) ++ value e ++ more)
      with ((id :: octets) ++ map ToUint8 (definiteLengthOctets (len (value e))) ++ value e ++ more).
    replace (1 + len octets) with (len (id :: octets)) by (rewrite len_cons; lia).
    rewrite decodeLengthAndValue_definite by assumption.
    unfold set_value. cbn [recursionCount tagClass construction tagNumber].
    f_equal. f_equal. rewrite len_cons. lia.
Qed.

(** ** Constructed strings *)

Lemma ASN1TagClass_eqb_eq (a b : ASN1TagClass) :
  ASN1TagClass_eqb a b = true <-> a = b.
Proof. destruct a, b; split; intros H; try reflexivity; discriminate. Qed.

Lemma checkSubstring_sameTag (this substring : t) :
  sameTag this substring -> checkSubstring this substring = Return tt.
Proof.
  intros [Hc Hn]. unfold checkSubstring.
  rewrite (proj2 (ASN1TagClass_eqb_eq _ _) Hc), Hn, Z.eqb_refl. reflexivity.
Qed.

Lemma checkSubstring_otherTag (this substring : t) :
  ~ sameTag this substring ->
  checkSubstring this substring = Throw ASN1ConstructionError.
Proof.
  intros H. unfold checkSubstring.
  destruct (ASN1TagClass_eqb (tagClass substring) (tagClass this)) eqn:Ec;
    [|reflexivity].
  destruct (Z.eqb_spec (tagNumber substring) (tagNumber this)); [|reflexivity].
  exfalso. apply H. split; [apply ASN1TagClass_eqb_eq|]; assumption.
Qed.

Lemma sameTag_dec (this substring : t) :
  sameTag this substring \/ ~ sameTag this substring.
Proof.
  unfold sameTag.
  destruct (ASN1TagClass_eqb (tagClass substring) (tagClass this)) eqn:Ec.
  - apply ASN1TagClass_eqb_eq in Ec.
    destruct (Z.eq_dec (tagNumber substring) (tagNumber this)) as [En|En].
    + left. split; assumption.
    + right. intros [_ H]. contradiction.
  - right. intros [H _]. apply ASN1TagClass_eqb_eq in H. congruence.
Qed.

Lemma checkAligned_unaligned (substring : t) :
  unaligned substring -> checkAligned substring = Throw ASN1Error.
Proof.
  intros (Hp & b & rest & Hv & Hb). unfold checkAligned. rewrite Hp, Hv.
  cbn [ASN1Construction_eqb constructionCode Z.eqb andb].
  rewrite len_cons. pose proof (len_nonneg rest).
  destruct (Z.gtb_spec (len rest + 1) 0); [|lia].
  cbn [at_ Z.ltb Z.compare Z.to_nat nth_error strictEq andb].
  destruct (Z.eqb_spec (toZ b) 0) as [E|E]; [|reflexivity].
  exfalso. apply Hb, toZ_inj. rewrite E. reflexivity.
Qed.

Lemma checkAligned_aligned (substring : t) :
  ~ unaligned substring -> checkAligned substring = Return tt.
Proof.
  intros H. unfold checkAligned.
  destruct (construction substring) eqn:Hp; [|reflexivity].
  cbn [ASN1Construction_eqb constructionCode Z.eqb andb].
  destruct (value substring) as [|b rest] eqn:Hv; [reflexivity|].
  rewrite len_cons. pose proof (len_nonneg rest).
  destruct (Z.gtb_spec (len rest + 1) 0); [|lia].
  cbn [at_ Z.ltb Z.compare Z.to_nat nth_error strictEq andb].
  destruct (Z.eqb_spec (toZ b) 0) as [E|E]; [reflexivity|].
  exfalso. apply H. split; [assumption|]. exists b, rest.
  split; [assumption|]. intros ->. apply E. reflexivity.
Qed.

Lemma unaligned_dec (substring : t) : unaligned substring \/ ~ unaligned substring.
Proof.
  unfold unaligned. destruct (construction substring).
  - destruct (value substring) as [|b rest].
    + right. intros (_ & b & rest & H & _). discriminate.
    + destruct (Byte.byte_eq_dec b x00) as [->|Hb].
      * right. intros (_ & b & rest' & [= <- <-] & H). contradiction.
      * left. split; [reflexivity|]. exists b, rest. split; [reflexivity|assumption].
  - right. intros [H _]. discriminate.
Qed.

(** The alignment test over a list of substrings. *)
Lemma forEach_checkAligned (substrings : list t) :
  (Exists unaligned substrings ->
   forEach checkAligned substrings = Throw ASN1Error)
  /\ (~ Exists unaligned substrings ->
      exists units, forEach checkAligned substrings = Return units).
Proof.
  induction substrings as [|s substrings [IH1 IH2]]; split; intros H.
  - inversion H.
  - exists []. reflexivity.
  - cbn [forEach]. destruct (unaligned_dec s) as [Hs|Hs].
    + rewrite checkAligned_unaligned by assumption. reflexivity.
    + rewrite checkAligned_aligned by assumption. cbn [bind].
      rewrite IH1; [reflexivity|]. inversion H; [contradiction|assumption].
  - cbn [forEach]. rewrite checkAligned_aligned
      by (intros Hs; apply H; constructor; assumption).
    cbn [bind]. destruct IH2 as [units ->].
    + intros Hs. apply H. apply Exists_cons_tl. assumption.
    + eexists. reflexivity.
Qed.

(** [substrings.slice(0, substrings.length - 1)]: all but the last. *)
Lemma slice_removelast {A} (l : list A) : slice l 0 (len l - 1) = removelast l.
Proof.
  unfold slice. destruct l as [|x l]; [reflexivity|].
  rewrite len_cons. pose proof (len_nonneg l).
  rewrite !relIndex_in by (rewrite ?len_cons; lia).
  cbn [Z.to_nat skipn].
  replace (Z.to_nat (len l + 1 - 1 - 0)) with (length l) by (unfold len; lia).
  revert x. induction l as [|y l IH]; intros x; [reflexivity|].
  cbn [length firstn removelast] in *. f_equal.
  rewrite IH by apply len_nonneg. reflexivity.
Qed.

Lemma deconstruct_at_total (remaining : nat) (this : t) :
  deconstruct_at remaining this <> OutOfFuel.
Proof.
  revert this. induction remaining as [|remaining IH]; intros this;
    cbn [deconstruct_at]; destruct (construction this); try discriminate.
  pose proof (sequence_total this) as Hs.
  destruct (sequence this) as [substrings| |]; cbn [bind]; [|discriminate|congruence].
  assert (Hf : forEach
                 (fun substring =>
                    _ <- checkSubstring this substring ;;
                    deconstruct_at remaining
                      (set_recursionCount substring (recursionCount this + 1)))
                 substrings <> OutOfFuel).
  { apply forEach_total. intros s _. unfold checkSubstring.
    split_ifs; cbn [bind]; try discriminate. apply IH. }
  destruct (forEach _ substrings); cbn [bind]; [discriminate|discriminate|congruence].
Qed.

(** [deconstruct] ends on every element. *)
Lemma deconstruct_total (this : t) : deconstruct this <> OutOfFuel.
Proof. apply deconstruct_at_total. Qed.

Lemma bitString_at_total (remaining : nat) (this : t) :
  bitString_at remaining this <> OutOfFuel.
Proof.
  revert this. induction remaining as [|remaining IH]; intros this;
    cbn [bitString_at]; destruct (construction this); try discriminate;
    try (unfold bitString_primitive; split_ifs; discriminate).
  pose proof (sequence_total this) as Hs.
  destruct (sequence this) as [substrings| |]; cbn [bind]; [|discriminate|congruence].
  assert (Ha : forEach checkAligned (slice substrings 0 (len substrings - 1))
               <> OutOfFuel).
  { apply forEach_total. intros s _. unfold checkAligned. split_ifs; discriminate. }
  destruct (forEach checkAligned _); cbn [bind]; [|discriminate|congruence].
  assert (Hf : forEach
                 (fun substring =>
                    _ <- checkSubstring this substring ;;
                    bitString_at remaining
                      (set_recursionCount substring (recursionCount this + 1)))
                 substrings <> OutOfFuel).
  { apply forEach_total. intros s _. unfold checkSubstring.
    split_ifs; cbn [bind]; try discriminate. apply IH. }
  destruct (forEach _ substrings); cbn [bind]; [discriminate|discriminate|congruence].
Qed.

(** The [bitString] getter ends on every element. *)
Lemma bitString_total (this : t) : bitString this <> OutOfFuel.
Proof. apply bitString_at_total. Qed.

(** The results of the recursive calls on substrings of the outer tag are the
    results of the iteration. *)
Lemma forEach_substrings {B} (get : t -> outcome B) (this : t)
    (substrings : list t) (results : list B) :
  Forall (sameTag this) substrings ->
  Forall2 (fun s r => get (nested this s) = Return r) substrings results ->
  Forall2
    (fun s r => (_ <- checkSubstring this s ;; get (nested this s)) = Return r)
    substrings results.
Proof.
  intros Htag Hres. induction Hres as [|s r substrings results Hs _ IH];
    constructor.
  - rewrite checkSubstring_sameTag by (inversion Htag; assumption). exact Hs.
  - apply IH. inversion Htag; assumption.
Qed.

(** A substring of another tag makes the iteration throw. *)
Lemma forEach_substrings_otherTag {B} (get : t -> outcome B) (this : t)
    (substrings : list t) :
  Exists (fun s => ~ sameTag this s) substrings ->
  forall results,
    forEach (fun s => _ <- checkSubstring this s ;; get (nested this s)) substrings
    <> Return results.
Proof.
  intros Hex results Hr. apply forEach_Return_inv in Hr.
  revert results Hr. induction Hex as [s substrings Hs|s substrings _ IH];
    intros results Hr; inversion Hr as [|? r ? results' Hs' Hrest]; subst.
  - rewrite checkSubstring_otherTag in Hs' by assumption. discriminate.
  - apply (IH results'). assumption.
Qed.

(** ** The recursion guard at work *)

(** The guard of [fromBytes]. *)
Lemma fromBytes_beyond_limit (this : t) (bytes : Uint8Array) :
  2 <= len bytes ->
  recursionCount this + 1 > nestingRecursionLimit ->
  fromBytes this bytes = Throw ASN1RecursionError.
Proof.
  intros Hlen Hrc. rewrite fromBytes_unfold.
  destruct (Z.ltb_spec (len bytes) 2); [lia|].
  destruct (Z.gtb_spec (recursionCount this + 1) nestingRecursionLimit); [reflexivity|lia].
Qed.

(** The guard of [deconstruct], on constructed elements only. *)
Lemma deconstruct_beyond_limit (this : t) :
  construction this = constructed ->
  recursionCount this + 1 > nestingRecursionLimit ->
  deconstruct this = Throw ASN1RecursionError.
Proof.
  intros Hc Hrc. rewrite deconstruct_unfold, Hc.
  destruct (Z.gtb_spec (recursionCount this + 1) nestingRecursionLimit); [reflexivity|lia].
Qed.

(** The guard of the [bitString] getter, on constructed elements only. *)
Lemma bitString_beyond_limit (this : t) :
  construction this = constructed ->
  recursionCount this + 1 > nestingRecursionLimit ->
  bitString this = Throw ASN1RecursionError.
Proof.
  intros Hc Hrc. rewrite bitString_unfold, Hc.
  destruct (Z.gtb_spec (recursionCount this + 1) nestingRecursionLimit); [reflexivity|lia].
Qed.

Lemma scanChildren_Throw (child_fromBytes : Uint8Array -> outcome (t * Z))
    (rounds : nat) (bytes : Uint8Array) (sentinel : Z) (err : ASN1ErrorKind) :
  scanChildren child_fromBytes rounds bytes sentinel = Throw err ->
  exists i, child_fromBytes (sliceFrom bytes i) = Throw err.
Proof.
  revert sentinel. induction rounds as [|rounds IH]; intros sentinel;
    cbn [scanChildren]; [discriminate|].
  destruct (sentinel <? len bytes); [|discriminate].
  destruct (child_fromBytes (sliceFrom bytes sentinel)) as [[child n]|e|] eqn:E;
    cbn [bind]; [|intros [= ->]; exists sentinel; exact E|discriminate].
  destruct (isEndOfContent child); [discriminate|]. apply IH.
Qed.

(** Within the limit, a [ASN1RecursionError] of [fromBytes] is that of a
    child of an indefinite-length element, one level deeper. *)
Lemma fromBytes_RecursionError_origin (this : t) (bytes : Uint8Array) :
  fromBytes this bytes = Throw ASN1RecursionError ->
  recursionCount this + 1 > nestingRecursionLimit
  \/ exists i,
       fromBytes (newChild this) (sliceFrom bytes i) = Throw ASN1RecursionError.
Proof.
  rewrite fromBytes_unfold. destruct (len bytes <? 2); [discriminate|].
  destruct (Z.gtb_spec (recursionCount this + 1) nestingRecursionLimit); [left; lia|].
  intros Hthrow. right. revert Hthrow. unfold fromBytes_body.
  destruct (Z.land (num (at_ bytes 0)) 31 >=? 31).
  - unfold decodeLongTagNumber. split_ifs; cbn [bind]; try discriminate;
      unfold decodeLengthAndValue;
      destruct (scanChildren _ _ _ _) as [s|e|] eqn:E; cbn [bind];
      split_ifs; try discriminate;
      intros [= ->]; apply scanChildren_Throw in E; exact E.
  - cbn [bind]. unfold decodeLengthAndValue.
    destruct (scanChildren _ _ _ _) as [s|e|] eqn:E; cbn [bind];
      split_ifs; try discriminate;
      intros [= ->]; apply scanChildren_Throw in E; exact E.
Qed.

(** Indefinite-length levels that take an element beyond the limit. *)
Lemma fromBytes_indefiniteNest_deep (levels : nat) (this : t)
    (inner more : Uint8Array) :
  2 <= len inner ->
  recursionCount this + Z.of_nat levels + 1 > nestingRecursionLimit ->
  fromBytes this (indefiniteNest levels inner ++ more)
  = Throw ASN1RecursionError.
Proof.
  intros Hinner. revert this more.
  induction levels as [|levels IH]; intros this more Hrc; cbn [indefiniteNest].
  - apply fromBytes_beyond_limit; [|lia].
    rewrite len_app. pose proof (len_nonneg more). lia.
  - destruct (Z.le_gt_cases (recursionCount this + 1) nestingRecursionLimit) as [Hin|Hout].
    + cbn [app]. rewrite fromBytes_short_tag by (try assumption; discriminate).
      change (constructionOf x24) with constructed.
      unfold decodeLengthAndValue.
      change (num (at_ (x24 :: x80 :: (indefiniteNest levels inner ++ [x00; x00]) ++ more) 1))
        with 128.
      cbn [Z.land Pos.land Z.eqb Pos.eqb negb ASN1Construction_eqb constructionCode
           construction].
      cbn [scanChildren].
      assert (Hlen : (1 + 1 <? len (x24 :: x80 :: (indefiniteNest levels inner ++ [x00; x00]) ++ more)) = true).
      { apply Z.ltb_lt. rewrite !len_cons, !len_app.
        pose proof (len_nonneg (indefiniteNest levels inner)).
        pose proof (len_nonneg more). change (len [x00; x00]) with 2. lia. }
      rewrite Hlen.
      change (x24 :: x80 :: (indefiniteNest levels inner ++ [x00; x00]) ++ more)
        with ([x24; x80] ++ (indefiniteNest levels inner ++ [x00; x00]) ++ more).
      change (1 + 1) with (len [x24; x80]).
      rewrite sliceFrom_app, <- app_assoc.
      rewrite IH; [reflexivity|].
      change (recursionCount (newChild this)) with (recursionCount this + 1). lia.
    + apply fromBytes_beyond_limit; [|lia].
      cbn [app]. rewrite !len_cons, len_app.
      pose proof (len_nonneg (indefiniteNest levels inner ++ [x00; x00])).
      pose proof (len_nonneg more). lia.
Qed.

Lemma forEach_Throw_inv {A B} (f : A -> outcome B) (l : list A)
    (err : ASN1ErrorKind) :
  forEach f l = Throw err -> exists x, In x l /\ f x = Throw err.
Proof.
  induction l as [|x l IH]; cbn [forEach]; [discriminate|].
  destruct (f x) as [y|e|] eqn:Hx; cbn [bind].
  - destruct (forEach f l) as [ys|e|]; cbn [bind]; try discriminate.
    intros [= ->]. destruct (IH eq_refl) as (x' & Hin & Hx').
    exists x'. split; [right; assumption|assumption].
  - intros [= ->]. exists x. split; [left; reflexivity|assumption].
  - discriminate.
Qed.

(** Within the limit, a [ASN1RecursionError] of the recursive call on the
    substrings is that of a substring, one level deeper. *)
Lemma forEach_substrings_RecursionError {B} (get : t -> outcome B) (this : t)
    (substrings : list t) :
  forEach (fun s => _ <- checkSubstring this s ;; get (nested this s)) substrings
  = Throw ASN1RecursionError ->
  exists s, In s substrings /\ get (nested this s) = Throw ASN1RecursionError.
Proof.
  intros H. apply forEach_Throw_inv in H. destruct H as (s & Hin & Hs).
  exists s. split; [assumption|]. revert Hs. unfold checkSubstring.
  split_ifs; cbn [bind]; try discriminate. trivial.
Qed.

Lemma deconstruct_RecursionError_origin (this : t) :
  recursionCount this + 1 <= nestingRecursionLimit ->
  deconstruct this = Throw ASN1RecursionError ->
  sequence this = Throw ASN1RecursionError
  \/ exists substrings s,
       sequence this = Return substrings /\ In s substrings
       /\ deconstruct (nested this s) = Throw ASN1RecursionError.
Proof.
  intros Hrc. rewrite deconstruct_unfold.
  destruct (construction this); [discriminate|].
  destruct (Z.gtb_spec (recursionCount this + 1) nestingRecursionLimit); [lia|].
  destruct (sequence this) as [substrings|e|]; cbn [bind];
    [|intros [= ->]; left; reflexivity|discriminate].
  fold (nested this).
  destruct (forEach _ substrings) as [ys|e|] eqn:E; cbn [bind]; try discriminate.
  intros [= ->]. right.
  destruct (forEach_substrings_RecursionError deconstruct this substrings E)
    as (s & Hin & Hs).
  exists substrings, s. repeat split; assumption.
Qed.

Lemma bitString_RecursionError_origin (this : t) :
  recursionCount this + 1 <= nestingRecursionLimit ->
  bitString this = Throw ASN1RecursionError ->
  sequence this = Throw ASN1RecursionError
  \/ exists substrings s,
       sequence this = Return substrings /\ In s substrings
       /\ bitString (nested this s) = Throw ASN1RecursionError.
Proof.
  intros Hrc. rewrite bitString_unfold.
  destruct (construction this).
  { unfold bitString_primitive. split_ifs; discriminate. }
  destruct (Z.gtb_spec (recursionCount this + 1) nestingRecursionLimit); [lia|].
  destruct (sequence this) as [substrings|e|]; cbn [bind];
    [|intros [= ->]; left; reflexivity|discriminate].
  fold (nested this).
  destruct (forEach checkAligned _) as [units|e|] eqn:Ea; cbn [bind];
    [| |discriminate].
  - destruct (forEach _ substrings) as [ys|e|] eqn:E; cbn [bind]; try discriminate.
    intros [= ->]. right.
    destruct (forEach_substrings_RecursionError bitString this substrings E)
      as (s & Hin & Hs).
    exists substrings, s. repeat split; assumption.
  - intros [= ->]. apply forEach_Throw_inv in Ea. destruct Ea as (s & _ & Hs).
    revert Hs. unfold checkAligned. split_ifs; discriminate.
Qed.

(** *** The accepted identifier octets *)

Lemma identifierOctets_len (pre : Uint8Array) (id : byte) (n : Z) :
  identifierOctets pre id n -> 1 <= len pre <= 4.
Proof.
  intros [(_ & -> & _)|(_ & octets & -> & Hmin & Hn)].
  - rewrite len_cons, len_nil. lia.
  - pose proof (minimalBase128_short _ _ Hmin (proj2 Hn)).
    rewrite len_cons. pose proof (len_nonneg octets). lia.
Qed.

(** Past accepted identifier octets, [fromBytes] has the tag fields set and
    goes on with the length octets. *)
Lemma fromBytes_identifier (this : t) (pre rest : Uint8Array) (id : byte) (n : Z) :
  identifierOctets pre id n ->
  rest <> [] ->
  recursionCount this + 1 <= nestingRecursionLimit ->
  fromBytes this (pre ++ rest)
  = decodeLengthAndValue (fromBytes (newChild this))
      (mkElement (recursionCount this) (classOf id) (constructionOf id) n
         (value this))
      (pre ++ rest) (len pre).
Proof.
  intros [(Hshort & -> & ->)|(Hlong & octets & -> & Hmin & Hn)] Hrest Hrc.
  - cbn [app]. apply fromBytes_short_tag; assumption.
  - cbn [app]. rewrite len_cons, Z.add_comm.
    apply fromBytes_long_tag; assumption.
Qed.

Lemma at_app_here (pre rest : Uint8Array) (l : byte) :
  at_ (pre ++ l :: rest) (len pre) = Some l.
Proof.
  rewrite <- (Z.add_0_r (len pre)), at_app_r by lia. reflexivity.
Qed.

Lemma fromBytes_long_unfold (this : t) (id : byte) (rest : Uint8Array) :
  longForm id ->
  rest <> [] ->
  recursionCount this + 1 <= nestingRecursionLimit ->
  fromBytes this (id :: rest)
  = ('(tagNumber, cursor) <- decodeLongTagNumber (id :: rest) 1 ;;
     decodeLengthAndValue (fromBytes (newChild this))
       (mkElement (recursionCount this) (classOf id) (constructionOf id)
          tagNumber (value this))
       (id :: rest) cursor).
Proof.
  intros Hlong Hrest Hrc. rewrite fromBytes_unfold.
  destruct rest as [|r rest]; [contradiction|].
  destruct (Z.ltb_spec (len (id :: r :: rest)) 2) as [H|_];
    [rewrite !len_cons in H; pose proof (len_nonneg rest); lia|].
  destruct (Z.gtb_spec (recursionCount this + 1) nestingRecursionLimit); [lia|].
  unfold fromBytes_body. rewrite at_0_cons, longForm_geb by assumption.
  change (0 + 1) with 1.
  destruct (decodeLongTagNumber (id :: r :: rest) 1) as [[tn c]| |]; cbn [bind];
    [|reflexivity|reflexivity].
  rewrite identifier_tagClass, identifier_construction. reflexivity.
Qed.

(** *** Where [ASN1RecursionError] comes from *)

(** The octets that the loop over the continuation octets goes past, but for
    the last one, have their high bit set. *)
Lemma skipTagNumber_scanned (rounds : nat) (bytes : Uint8Array)
    (limit cursor i : Z) :
  cursor <= i < skipTagNumber rounds bytes limit cursor - 1 ->
  Z.land (num (at_ bytes i)) 0x80 <> 0.
Proof.
  revert cursor. induction rounds as [|rounds IH]; intros cursor;
    cbn [skipTagNumber]; [lia|].
  destruct (cursor <? limit); [|lia].
  destruct (Z.eqb_spec (Z.land (num (at_ bytes cursor)) 0x80) 0) as [E|E]; [lia|].
  intros Hi. destruct (Z.eq_dec i cursor) as [->|Hne]; [exact E|].
  apply (IH (cursor + 1)). lia.
Qed.

Lemma octet_high (d : byte) : Z.land (toZ d) 0x80 <> 0 -> 128 <= toZ d.
Proof.
  rewrite land_0x80_octet by apply toZ_range.
  destruct (Z.ltb_spec (toZ d) 128); [congruence|lia].
Qed.

Lemma octet_low (d : byte) : Z.land (toZ d) 0x80 = 0 -> toZ d < 128.
Proof.
  rewrite land_0x80_octet by apply toZ_range.
  destruct (Z.ltb_spec (toZ d) 128); [lia|discriminate].
Qed.

(** A tag number returned by the long-form branch was read from minimal
    continuation octets, with more octets after them. *)
Lemma decodeLongTagNumber_Return_inv (id : byte) (rest : Uint8Array)
    (tn cursor : Z) :
  decodeLongTagNumber (id :: rest) 1 = Return (tn, cursor) ->
  exists octets more : Uint8Array,
    rest = octets ++ more
    /\ minimalBase128 octets tn /\ 31 < tn < 2 ^ 21
    /\ cursor = 1 + len octets /\ more <> [].
Proof.
  intros Hret.
  assert (Hlen : 2 <= len (id :: rest)).
  { destruct rest as [|d rest]; [destruct id; vm_compute in Hret; discriminate Hret|].
    rewrite !len_cons. pose proof (len_nonneg rest). lia. }
  destruct (decodeLongTagNumber_bounds _ _ _ Hlen Hret) as [Htn Hcur].
  assert (Hshape :
            cursor <= 4
            /\ strictEq (at_ (id :: rest) 1) 0x80 = false
            /\ Z.land (num (at_ (id :: rest) (cursor - 1))) 0x80 = 0
            /\ (forall i, 1 <= i < cursor - 1 ->
                          Z.land (num (at_ (id :: rest) i)) 0x80 <> 0)
            /\ tn = decodeTagNumber (id :: rest) cursor).
  { revert Hret. unfold decodeLongTagNumber.
    destruct (strictEq (at_ (id :: rest) 1) 128) eqn:Epad; [discriminate|].
    set (limit := if len (id :: rest) - 1 >=? 4 then 4 else len (id :: rest) - 1).
    assert (Hlimit : 1 <= limit <= 4).
    { subst limit. destruct (Z.geb_spec (len (id :: rest) - 1) 4); lia. }
    pose proof (skipTagNumber_bounds (Z.to_nat limit) (id :: rest) limit 1) as Hb.
    pose proof (skipTagNumber_scanned (Z.to_nat limit) (id :: rest) limit 1) as Hs.
    set (c := skipTagNumber (Z.to_nat limit) (id :: rest) limit 1) in *.
    destruct (Z.eqb_spec (Z.land (num (at_ (id :: rest) (c - 1))) 128) 0) as [Elow|];
      cbn [negb]; [|destruct (limit =? _); discriminate].
    destruct (decodeTagNumber (id :: rest) c <=? 31); [discriminate|].
    intros [= <- <-]. repeat split; try assumption; try lia. }
  destruct Hshape as (Hc4 & Hpad & Hlow & Hhigh & ->).
  assert (Hc : cursor = 1 \/ cursor = 2 \/ cursor = 3 \/ cursor = 4) by lia.
  destruct Hc as [-> | [-> | [-> | ->]]].
  - change (decodeTagNumber (id :: rest) 1) with 0 in Htn. lia.
  - destruct rest as [|d1 more]; [unfold len in Hcur; cbn [length] in Hcur; lia|].
    exists [d1], more.
    assert (Hcont : continuation [d1]) by (apply octet_low; exact Hlow).
    assert (Hmore : more <> []).
    { intros ->. unfold len in Hcur. cbn [length] in Hcur. lia. }
    destruct (decodeLongTagNumber_Return id [d1] more _ _ Hcont Hret)
      as (Hb & _ & _ & _ & _).
    split; [reflexivity|]. split; [|split; [lia|split; [reflexivity|assumption]]].
    split; [assumption|]. split; [|symmetry; exact Hb].
    cbn [hd]. intros ->. discriminate Hpad.
  - destruct rest as [|d1 [|d2 more]];
      try (unfold len in Hcur; cbn [length] in Hcur; lia).
    exists [d1; d2], more.
    assert (Hcont : continuation [d1; d2]).
    { split; [apply octet_high, (Hhigh 1); lia|apply octet_low; exact Hlow]. }
    assert (Hmore : more <> []).
    { intros ->. unfold len in Hcur. cbn [length] in Hcur. lia. }
    destruct (decodeLongTagNumber_Return id [d1; d2] more _ _ Hcont Hret)
      as (Hb & _ & _ & _ & _).
    split; [reflexivity|]. split; [|split; [lia|split; [reflexivity|assumption]]].
    split; [assumption|]. split; [|symmetry; exact Hb].
    cbn [hd]. intros ->. discriminate Hpad.
  - destruct rest as [|d1 [|d2 [|d3 more]]];
      try (unfold len in Hcur; cbn [length] in Hcur; lia).
    exists [d1; d2; d3], more.
    assert (Hcont : continuation [d1; d2; d3]).
    { split; [apply octet_high, (Hhigh 1); lia|].
      split; [apply octet_high, (Hhigh 2); lia|apply octet_low; exact Hlow]. }
    assert (Hmore : more <> []).
    { intros ->. unfold len in Hcur. cbn [length] in Hcur. lia. }
    destruct (decodeLongTagNumber_Return id [d1; d2; d3] more _ _ Hcont Hret)
      as (Hb & _ & _ & _ & _).
    split; [reflexivity|]. split; [|split; [lia|split; [reflexivity|assumption]]].
    split; [assumption|]. split; [|symmetry; exact Hb].
    cbn [hd]. intros ->. discriminate Hpad.
Qed.

(** A throw of the scan is the throw of a child that the scan reaches. *)
Lemma scanChildren_Throw_at (child_fromBytes : Uint8Array -> outcome (t * Z))
    (rounds : nat) (bytes : Uint8Array) (sentinel : Z) (err : ASN1ErrorKind) :
  scanChildren child_fromBytes rounds bytes sentinel = Throw err ->
  exists i,
    childOffset child_fromBytes bytes sentinel i
    /\ child_fromBytes (sliceFrom bytes i) = Throw err.
Proof.
  revert sentinel. induction rounds as [|rounds IH]; intros sentinel;
    cbn [scanChildren]; [discriminate|].
  destruct (sentinel <? len bytes); [|discriminate].
  destruct (child_fromBytes (sliceFrom bytes sentinel)) as [[child n]|e|] eqn:E;
    cbn [bind]; [| |discriminate].
  - destruct (isEndOfContent child) eqn:Eend; [discriminate|].
    intros Hthrow. destruct (IH _ Hthrow) as (i & Hreach & Hi).
    exists i. split; [|exact Hi].
    exact (childOffset_next _ _ sentinel child n i E Eend Hreach).
  - intros [= ->]. exists sentinel. split; [apply childOffset_first|exact E].
Qed.

(** [ASN1RecursionError] past the identifier octets: the length octet is
    [80], the element is constructed and the scan of its children throws. *)
Lemma decodeLengthAndValue_RecursionError
    (child_fromBytes : Uint8Array -> outcome (t * Z)) (this : t)
    (bytes : Uint8Array) (cursor : Z) :
  decodeLengthAndValue child_fromBytes this bytes cursor
  = Throw ASN1RecursionError ->
  at_ bytes cursor = Some x80
  /\ construction this = constructed
  /\ scanChildren child_fromBytes (S (length bytes)) bytes (cursor + 1)
     = Throw ASN1RecursionError.
Proof.
  unfold decodeLengthAndValue.
  destruct (Z.eqb_spec (Z.land (num (at_ bytes cursor)) 0x80) 0x80) as [Ehigh|];
    [|split_ifs; discriminate].
  destruct (Z.eqb_spec (Z.land (num (at_ bytes cursor)) 0x7F) 0) as [Elow|];
    cbn [negb]; [|split_ifs; discriminate].
  destruct (construction this) eqn:Ec;
    cbn [ASN1Construction_eqb constructionCode Z.eqb negb]; [discriminate|].
  destruct (scanChildren _ _ _ _) as [s|e|] eqn:E; cbn [bind];
    [split_ifs; discriminate| |discriminate].
  intros [= ->]. split; [|split; [reflexivity|reflexivity]].
  destruct (at_ bytes cursor) as [d|]; [|discriminate Ehigh].
  cbn [num] in *. f_equal. apply toZ_inj.
  pose proof (toZ_range d).
  rewrite land_0x7F_octet in Elow by assumption.
  rewrite land_0x80_octet in Ehigh by assumption.
  destruct (Z.ltb_spec (toZ d) 128); [discriminate|].
  change (toZ x80) with 128. Z.to_euclidean_division_equations. lia.
Qed.

Lemma at_Some_split (bytes pre after : Uint8Array) (d : byte) :
  bytes = pre ++ after -> at_ bytes (len pre) = Some d ->
  exists rest, bytes = pre ++ d :: rest.
Proof.
  intros -> H. destruct after as [|d' rest].
  - exfalso. rewrite app_nil_r in H. unfold at_, len in H.
    destruct (Z.ltb_spec (Z.of_nat (length pre)) 0); [discriminate|].
    rewrite Nat2Z.id in H.
    assert (Hn : nth_error pre (length pre) = None) by (apply nth_error_None; lia).
    congruence.
  - rewrite at_app_here in H. injection H as ->. exists rest. reflexivity.
Qed.

(** Within the limit, [fromBytes] throws [ASN1RecursionError] on a
    constructed element of indefinite length only, when it does on one of
    the children that its scan reaches, one level deeper. *)
Lemma fromBytes_RecursionError_inv (this : t) (bytes : Uint8Array) :
  recursionCount this + 1 <= nestingRecursionLimit ->
  fromBytes this bytes = Throw ASN1RecursionError ->
  exists (pre rest : Uint8Array) (identifier : byte) (n i : Z),
    bytes = pre ++ x80 :: rest
    /\ identifierOctets pre identifier n
    /\ constructionOf identifier = constructed
    /\ childOffset (fromBytes (newChild this)) bytes (len pre + 1) i
    /\ fromBytes (newChild this) (sliceFrom bytes i) = Throw ASN1RecursionError.
Proof.
  intros Hrc Hthrow.
  assert (Hlen : 2 <= len bytes).
  { rewrite fromBytes_unfold in Hthrow.
    destruct (Z.ltb_spec (len bytes) 2); [discriminate|lia]. }
  destruct bytes as [|id rest0]; [unfold len in Hlen; cbn [length] in Hlen; lia|].
  assert (Hrest0 : rest0 <> []).
  { intros ->. unfold len in Hlen. cbn [length] in Hlen. lia. }
  assert (Hcases :
            exists (pre after : Uint8Array) (n : Z),
              id :: rest0 = pre ++ after
              /\ identifierOctets pre id n
              /\ decodeLengthAndValue (fromBytes (newChild this))
                   (mkElement (recursionCount this) (classOf id) (constructionOf id)
                      n (value this))
                   (id :: rest0) (len pre)
                 = Throw ASN1RecursionError).
  { destruct (Z.eq_dec (Z.land (toZ id) 0x1F) 0x1F) as [Hlong|Hshort].
    - rewrite fromBytes_long_unfold in Hthrow by assumption.
      destruct (decodeLongTagNumber (id :: rest0) 1) as [[tn cursor]|e|] eqn:E;
        cbn [bind] in Hthrow; [| |discriminate].
      + destruct (decodeLongTagNumber_Return_inv _ _ _ _ E)
          as (octets & more & -> & Hmin & Htn & -> & Hmore).
        exists (id :: octets), more, tn. split; [reflexivity|].
        split.
        * right. split; [exact Hlong|]. exists octets. repeat split; try apply Hmin; lia.
        * rewrite len_cons. replace (len octets + 1) with (1 + len octets) by lia.
          exact Hthrow.
      + exfalso. injection Hthrow as ->. revert E. unfold decodeLongTagNumber.
        split_ifs; discriminate.
    - rewrite fromBytes_short_tag in Hthrow by assumption.
      exists [id], rest0, (Z.land (toZ id) 0x1F). split; [reflexivity|].
      split; [left; repeat split; exact Hshort|exact Hthrow]. }
  destruct Hcases as (pre & after & n & Hsplit & Hid & Hdecode).
  apply decodeLengthAndValue_RecursionError in Hdecode.
  destruct Hdecode as (Hat & Hc & Hscan).
  destruct (at_Some_split _ _ _ _ Hsplit Hat) as [rest Hbytes].
  apply scanChildren_Throw_at in Hscan. destruct Hscan as (i & Hreach & Hi).
  exists pre, rest, id, n, i. rewrite <- Hbytes.
  repeat split; assumption.
Qed.

(** A definite length never leads to [ASN1RecursionError] within the
    limit. *)
Lemma fromBytes_definite_no_RecursionError (this : t) (pre rest : Uint8Array)
    (identifier l : byte) (n : Z) :
  identifierOctets pre identifier n ->
  recursionCount this + 1 <= nestingRecursionLimit ->
  l <> x80 ->
  fromBytes this (pre ++ l :: rest) <> Throw ASN1RecursionError.
Proof.
  intros Hid Hrc Hl Hthrow.
  rewrite (fromBytes_identifier this pre _ identifier n) in Hthrow
    by (try assumption; discriminate).
  apply decodeLengthAndValue_RecursionError in Hthrow.
  destruct Hthrow as (Hat & _). rewrite at_app_here in Hat. congruence.
Qed.

(** ** The pieces of a CER value *)


Lemma splitOctets_cons (rounds : nat) (b : byte) (v : Uint8Array) :
  CERElement.splitOctets (S rounds) (b :: v)
  = firstn (Z.to_nat 1000) (b :: v)
    :: CERElement.splitOctets rounds (skipn (Z.to_nat 1000) (b :: v)).
Proof. reflexivity. Qed.

(** The pieces, one after the other, are the value. *)
Lemma splitOctets_concat (rounds : nat) (v : Uint8Array) :
  (length v <= rounds)%nat -> concat (CERElement.splitOctets rounds v) = v.
Proof.
  revert v. induction rounds as [|rounds IH]; intros v Hlen.
  - destruct v; [reflexivity|cbn [length] in Hlen; lia].
  - destruct v as [|b v]; [reflexivity|].
    rewrite splitOctets_cons. cbn [concat].
    rewrite IH; [apply firstn_skipn|].
    rewrite length_skipn. cbn [length] in *. lia.
Qed.


(** * The claims *)

(** ** Round trip through [toBytes] and [fromBytes] *)

(** C1, counterexample: the element of tag number [2 ^ 21] is written with
    four continuation octets, which [fromBytes] refuses as too large. *)
Lemma roundtrip_fails_on_four_continuation_octets :
  let e := new universal primitive (2 ^ 21) in
  toBytes definite e = [x1f; x81; x80; x80; x00; x00]
  /\ fromBytes new_default (toBytes definite e) = Throw ASN1OverflowError.
Proof. split; reflexivity. Qed.

(** C1, as amended: under the definite length preference, for every element
    whose tag number is at most 30 or from 32 to [2 ^ 21 - 1] and whose value
    is shorter than 65536 octets, [fromBytes] on a fresh element and the
    octets of [toBytes] returns, reads exactly these octets and gives back the
    tag class, construction, tag number and value octets. *)
Theorem roundtrip_definite (e : t) :
  0 <= tagNumber e < 31 \/ 31 < tagNumber e < 2 ^ 21 ->
  len (value e) < 65536 ->
  fromBytes new_default (toBytes definite e)
  = Return (mkElement initialRecursionCount (tagClass e) (construction e)
              (tagNumber e) (value e),
            len (toBytes definite e)).
Proof.
  intros Htag Hlen.
  rewrite <- (app_nil_r (toBytes definite e)) at 1.
  apply (fromBytes_toBytes_app new_default e []);
    [vm_compute; discriminate|assumption|assumption].
Qed.

Lemma roundtrip_definite_witness :
  let e := mkElement 0 context constructed 1000 [x04; x01; xff] in
  (0 <= tagNumber e < 31 \/ 31 < tagNumber e < 2 ^ 21)
  /\ len (value e) < 65536
  /\ fromBytes new_default (toBytes definite e)
     = Return (mkElement initialRecursionCount (tagClass e) (construction e)
                 (tagNumber e) (value e),
               len (toBytes definite e)).
Proof.
  cbv zeta.
  assert (Htag : 0 <= 1000 < 31 \/ 31 < 1000 < 2 ^ 21) by (right; lia).
  assert (Hlen : len [x04; x01; xff] < 65536) by (vm_compute; reflexivity).
  split; [exact Htag|]. split; [exact Hlen|].
  exact (roundtrip_definite (mkElement 0 context constructed 1000 [x04; x01; xff])
           Htag Hlen).
Defined.

(** ** Long-form tag numbers *)

(** C2, counterexample: [81 80 80 00] is the minimal encoding of [2 ^ 21], a
    32-bit number, and [fromBytes] refuses it. *)
Lemma long_tag_of_four_octets_refused :
  longForm x1f
  /\ minimalBase128 [x81; x80; x80; x00] (2 ^ 21)
  /\ fromBytes new_default [x1f; x81; x80; x80; x00; x00] = Throw ASN1OverflowError.
Proof.
  split; [reflexivity|]. split; [|reflexivity].
  unfold minimalBase128. cbn [continuation hd].
  repeat split; vm_compute; congruence.
Qed.

(** C2, as amended: on a buffer whose identifier octet has the long-form flag,
    [fromBytes] throws when the continuation octets decode to 30 or less; and
    when they are the minimal encoding of a number from 32 to [2 ^ 21 - 1],
    followed by a short-form length and as many content octets, it returns
    the element with that tag number. *)
Theorem long_form_tag_number :
  (forall (this : t) (id : byte) (octets rest : Uint8Array),
      longForm id ->
      continuation octets ->
      base128 octets <= 30 ->
      exists err, fromBytes this (id :: octets ++ rest) = Throw err)
  /\ (forall (this : t) (id : byte) (octets contents more : Uint8Array) (n : Z),
         longForm id ->
         minimalBase128 octets n ->
         31 < n < 2 ^ 21 ->
         len contents < 128 ->
         recursionCount this + 1 <= nestingRecursionLimit ->
         fromBytes this (id :: octets ++ ToUint8 (len contents) :: contents ++ more)
         = Return (mkElement (recursionCount this) (classOf id)
                     (constructionOf id) n contents,
                   1 + len octets + 1 + len contents)).
Proof.
  split.
  - intros this id octets rest Hlong Hc Hle.
    pose proof (fromBytes_total this (id :: octets ++ rest)) as Htotal.
    destruct (fromBytes this (id :: octets ++ rest)) as [[e n]|err|] eqn:E.
    + apply fromBytes_long_tag_Return in E; [lia|assumption|assumption].
    + exists err. reflexivity.
    + contradiction.
  - intros this id octets contents more n Hlong Hmin Hn Hlen Hrc.
    rewrite (fromBytes_long_tag this id octets _ n)
      by (try assumption; discriminate).
    change (id :: octets ++ ToUint8 (len contents) :: contents ++ more)
      with ((id :: octets) ++ ToUint8 (len contents) :: contents ++ more).
    replace (1 + len octets) with (len (id :: octets)) by (rewrite len_cons; lia).
    rewrite decodeLengthAndValue_short;
      [reflexivity|apply toZ_ToUint8; pose proof (len_nonneg contents); lia|assumption].
Qed.

Lemma long_form_tag_number_witness :
  fromBytes new_default [x1f; x1e; x00] = Throw ASN1Error
  /\ fromBytes new_default [xbf; x81; x00; x02; x05; x00; xff]
     = Return (mkElement 0 context constructed 128 [x05; x00], 6).
Proof.
  split.
  - assert (Hlong : longForm x1f) by reflexivity.
    assert (Hc : continuation [x1e]) by (vm_compute; reflexivity).
    assert (Hle : base128 [x1e] <= 30) by (vm_compute; discriminate).
    destruct (proj1 long_form_tag_number new_default x1f [x1e] [x00] Hlong Hc Hle)
      as [err Herr].
    cbn [app] in Herr. rewrite Herr. vm_compute in Herr.
    injection Herr as <-. reflexivity.
  - assert (Hlong : longForm xbf) by reflexivity.
    assert (Hmin : minimalBase128 [x81; x00] 128).
    { unfold minimalBase128. cbn [continuation hd].
      repeat split; vm_compute; congruence. }
    assert (Hn : 31 < 128 < 2 ^ 21) by lia.
    assert (Hlen : len [x05; x00] < 128) by (vm_compute; reflexivity).
    assert (Hrc : recursionCount new_default + 1 <= nestingRecursionLimit)
      by (vm_compute; discriminate).
    exact (proj2 long_form_tag_number new_default xbf [x81; x00] [x05; x00] [xff]
             128 Hlong Hmin Hn Hlen Hrc).
Defined.

(** ** Length octets of [toBytes] *)

(** C3, the code at the failing inputs: a value of 127 octets is given the
    long form [81 7F], not the short form; a value of 65536 octets is given
    [82 00 00], which is the length 0 and not the minimal long form
    [83 01 00 00], so that [fromBytes] reads back an empty value. *)
Theorem definite_length_defects :
  let e127 := set_value (new universal primitive 4) (repeat x00 127) in
  let e65536 := set_value (new universal primitive 4) (repeat x00 (Z.to_nat 65536)) in
  toBytes definite e127 = [x04; x81; x7f] ++ repeat x00 127
  /\ definiteLengthOctets 65536 = [0x82; 0x00; 0x00]
  /\ firstn 4 (toBytes definite e65536) = [x04; x82; x00; x00]
  /\ fromBytes new_default (toBytes definite e65536)
     = Return (new universal primitive 4, 4).
Proof. cbv zeta. repeat split; vm_compute; reflexivity. Qed.

(** ** BOOLEAN *)

(** C6: the setter stores the one octet [FF] or [00]; the encoding of [true]
    is [01 01 FF]; the getter throws [ASN1ConstructionError] on a constructed
    element, [ASN1SizeError] on a value not of one octet, and otherwise
    returns [false] for [00] and [true] for every other octet. *)
Theorem boolean_codec :
  (forall (this : t) (v : bool),
      value (set_boolean this v) = [if v then xff else x00])
  /\ toBytes definite (set_boolean (new universal primitive 1) true)
     = [x01; x01; xff]
  /\ (forall this : t,
         construction this = constructed ->
         boolean this = Throw ASN1ConstructionError)
  /\ (forall this : t,
         construction this = primitive ->
         len (value this) <> 1 ->
         boolean this = Throw ASN1SizeError)
  /\ (forall (this : t) (b : byte),
         construction this = primitive ->
         value this = [b] ->
         boolean this = Return (if Byte.eqb b x00 then false else true)).
Proof.
  repeat split.
  - intros this []; reflexivity.
  - intros this H. unfold boolean. rewrite H. reflexivity.
  - intros this H Hlen. unfold boolean. rewrite H. cbn [ASN1Construction_eqb constructionCode Z.eqb negb].
    destruct (Z.eqb_spec (len (value this)) 1); [contradiction|reflexivity].
  - intros this b H Hv. unfold boolean. rewrite H, Hv.
    destruct b; reflexivity.
Qed.

Lemma boolean_codec_witness :
  boolean (mkElement 0 universal constructed 1 [xff]) = Throw ASN1ConstructionError
  /\ boolean (mkElement 0 universal primitive 1 []) = Throw ASN1SizeError
  /\ boolean (mkElement 0 universal primitive 1 [x01]) = Return true.
Proof.
  destruct boolean_codec as (_ & _ & Hc & Hs & Hv).
  split; [|split].
  - apply Hc. reflexivity.
  - apply Hs; [reflexivity|vm_compute; discriminate].
  - apply (Hv _ x01); reflexivity.
Defined.

(** ** Indefinite length *)

(** C4, the code at the failing inputs.  With a marker [00 00] after the
    children the value is the octets before it, and without one the buffer
    [24 80 04 01 AA] is refused as truncated.  But the only child of
    [24 80 04 02 00 00] is the OCTET STRING [04 02 00 00], not an
    end-of-contents marker; the buffer ends without one, and [fromBytes]
    returns, with a value that has lost the two content octets of the child,
    where the claim has [ASN1TruncationError].  And past a marker in long
    length form, [00 81 00], the value keeps the first octet of the marker. *)
Theorem indefinite_length_sentinel_defects :
  fromBytes new_default [x24; x80; x04; x01; xaa; x00; x00]
  = Return (mkElement 0 universal constructed 4 [x04; x01; xaa], 7)
  /\ fromBytes new_default [x24; x80; x04; x01; xaa] = Throw ASN1TruncationError
  /\ fromBytes (newChild new_default) [x04; x02; x00; x00]
     = Return (mkElement 1 universal primitive 4 [x00; x00], 4)
  /\ isEndOfContent (mkElement 1 universal primitive 4 [x00; x00]) = false
  /\ fromBytes new_default [x24; x80; x04; x02; x00; x00]
     = Return (mkElement 0 universal constructed 4 [x04; x02], 6)
  /\ fromBytes (newChild new_default) [x00; x81; x00; xff]
     = Return (mkElement 1 universal primitive 0 [], 3)
  /\ isEndOfContent (mkElement 1 universal primitive 0 []) = true
  /\ fromBytes new_default [x24; x80; x00; x81; x00; xff]
     = Return (mkElement 0 universal constructed 4 [x00], 5).
Proof. repeat split; reflexivity. Qed.

(** ** Constructed BIT STRING *)

(** C5, counterexample: the first substring of
    [23 0A 23 04 03 02 05 F0 03 02 00 0F] is constructed; its bit string has
    three bits, five bits of its last octet being unused, and its first
    content octet is not zero; the getter returns all the same. *)
Lemma constructed_bitString_unaligned_inner :
  let this :=
    mkElement 0 universal constructed 3
      [x23; x04; x03; x02; x05; xf0; x03; x02; x00; x0f] in
  let first := mkElement 0 universal constructed 3 [x03; x02; x05; xf0] in
  let last := mkElement 0 universal primitive 3 [x00; x0f] in
  fromBytes new_default [x23; x0a; x23; x04; x03; x02; x05; xf0; x03; x02; x00; x0f]
  = Return (this, 12)
  /\ sequence this = Return [first; last]
  /\ bitString (nested this first) = Return [true; true; true]
  /\ at_ (value first) 0 = Some x03
  /\ bitString this
     = Return [true; true; true;
               false; false; false; false; true; true; true; true].
Proof. repeat split; reflexivity. Qed.

(** C5, as amended: on a constructed element within the nesting limit whose
    value decodes into substrings, the [bitString] getter throws when a
    primitive substring other than the last has a non-empty value that
    starts with a non-zero octet; when there is none, every substring
    carries the tag class and number of the element and the getter returns
    on each of them, it returns the concatenation of their bit strings. *)
Theorem constructed_bitString (this : t) (substrings : list t) :
  construction this = constructed ->
  recursionCount this + 1 <= nestingRecursionLimit ->
  sequence this = Return substrings ->
  (Exists unaligned (removelast substrings) ->
   bitString this = Throw ASN1Error)
  /\ (forall bits : list (list bool),
         ~ Exists unaligned (removelast substrings) ->
         Forall (sameTag this) substrings ->
         Forall2 (fun s b => bitString (nested this s) = Return b)
           substrings bits ->
         bitString this = Return (concat bits)).
Proof.
  intros Hc Hrc Hseq. rewrite bitString_unfold, Hc, Hseq.
  destruct (Z.gtb_spec (recursionCount this + 1) nestingRecursionLimit); [lia|].
  cbn [bind]. rewrite slice_removelast.
  destruct (forEach_checkAligned (removelast substrings)) as [Hbad Hgood].
  split.
  - intros Hex. rewrite (Hbad Hex). reflexivity.
  - intros bits Hnone Htag Hbits. destruct (Hgood Hnone) as [units ->].
    cbn [bind].
    rewrite (forEach_Return _ substrings bits); [reflexivity|].
    apply (forEach_substrings bitString); assumption.
Qed.

Lemma constructed_bitString_witness :
  bitString
    (mkElement 0 universal constructed 3
       [x03; x02; x00; x0f; x23; x04; x03; x02; x00; x0f; x03; x02; x05; xf0])
  = Return [false; false; false; false; true; true; true; true;
            false; false; false; false; true; true; true; true;
            true; true; true]
  /\ bitString
       (mkElement 0 universal constructed 3 [x03; x02; x05; xf0; x03; x02; x00; x0f])
     = Throw ASN1Error.
Proof.
  split.
  - apply (proj2 (constructed_bitString
                    (mkElement 0 universal constructed 3
                       [x03; x02; x00; x0f; x23; x04; x03; x02; x00; x0f;
                        x03; x02; x05; xf0])
                    [mkElement 0 universal primitive 3 [x00; x0f];
                     mkElement 0 universal constructed 3 [x03; x02; x00; x0f];
                     mkElement 0 universal primitive 3 [x05; xf0]]
                    eq_refl ltac:(vm_compute; discriminate) eq_refl)
             [[false; false; false; false; true; true; true; true];
              [false; false; false; false; true; true; true; true];
              [true; true; true]]).
    + cbn [removelast]. intros H.
      apply Exists_cons in H. destruct H as [(_ & b & rest & Heq & Hb)|H].
      * injection Heq as <- <-. apply Hb. reflexivity.
      * apply Exists_cons in H. destruct H as [(Hp & _)|H]; [discriminate|].
        apply Exists_nil in H. exact H.
    + repeat constructor.
    + repeat constructor.
  - apply (proj1 (constructed_bitString
                    (mkElement 0 universal constructed 3
                       [x03; x02; x05; xf0; x03; x02; x00; x0f])
                    [mkElement 0 universal primitive 3 [x05; xf0];
                     mkElement 0 universal primitive 3 [x00; x0f]]
                    eq_refl ltac:(vm_compute; discriminate) eq_refl)).
    cbn [removelast]. constructor. split; [reflexivity|].
    exists x05, [xf0]. split; [reflexivity|discriminate].
Defined.

(** ** Constructed OCTET STRING *)

(** C9, counterexample: the second substring of [24 05 24 01 00 05 00] has
    another tag number than the element, and the getter throws the
    [ASN1TruncationError] of the first substring, whose one content octet
    does not hold an element. *)
Lemma constructed_octetString_other_error :
  let this := mkElement 0 universal constructed 4 [x24; x01; x00; x05; x00] in
  fromBytes new_default [x24; x05; x24; x01; x00; x05; x00] = Return (this, 7)
  /\ sequence this
     = Return [mkElement 0 universal constructed 4 [x00];
               mkElement 0 universal primitive 5 []]
  /\ octetString this = Throw ASN1TruncationError.
Proof. repeat split; reflexivity. Qed.

(** C9, as amended: on a constructed element within the nesting limit whose
    value decodes into substrings, [octetString] (that is, [deconstruct])
    throws whenever some substring has another tag class or number than the
    element, and it throws [ASN1ConstructionError] when the substrings before
    the first such one deconstruct; otherwise it throws the error of the
    first failing substring, which carries the tag of the element and is
    preceded by substrings that carry it and deconstruct.  When all
    substrings carry the tag of the element and deconstruct, it returns the
    concatenation of their contents.
    [24 11 04 04 01 02 03 04 24 05 04 03 05 06 07 04 02 08 09] decodes to
    [01 02 03 04 05 06 07 08 09]. *)
Theorem constructed_octetString (this : t) (substrings : list t) :
  construction this = constructed ->
  recursionCount this + 1 <= nestingRecursionLimit ->
  sequence this = Return substrings ->
  (Exists (fun s => ~ sameTag this s) substrings ->
   exists err, octetString this = Throw err)
  /\ (forall (before after : list t) (other : t) (contents : list Uint8Array),
         substrings = before ++ other :: after ->
         Forall (sameTag this) before ->
         Forall2 (fun s c => deconstruct (nested this s) = Return c)
           before contents ->
         ~ sameTag this other ->
         octetString this = Throw ASN1ConstructionError)
  /\ (forall (before after : list t) (failing : t)
            (contents : list Uint8Array) (err : ASN1ErrorKind),
         substrings = before ++ failing :: after ->
         Forall (sameTag this) before ->
         Forall2 (fun s c => deconstruct (nested this s) = Return c)
           before contents ->
         sameTag this failing ->
         deconstruct (nested this failing) = Throw err ->
         octetString this = Throw err)
  /\ (forall contents : list Uint8Array,
         Forall (sameTag this) substrings ->
         Forall2 (fun s c => deconstruct (nested this s) = Return c)
           substrings contents ->
         octetString this = Return (concat contents))
  /\ (e <- fromBytes new_default
             [x24; x11; x04; x04; x01; x02; x03; x04; x24; x05; x04; x03;
              x05; x06; x07; x04; x02; x08; x09] ;;
      octetString (fst e))
     = Return [x01; x02; x03; x04; x05; x06; x07; x08; x09].
Proof.
  intros Hc Hrc Hseq.
  assert (Hthrows : Exists (fun s => ~ sameTag this s) substrings ->
                    exists err, octetString this = Throw err).
  { intros Hex. unfold octetString.
    destruct (deconstruct this) as [r|err|] eqn:E;
      [exfalso|exists err; reflexivity|exfalso; apply (deconstruct_total this E)].
    rewrite deconstruct_unfold, Hc, Hseq in E.
    destruct (Z.gtb_spec (recursionCount this + 1) nestingRecursionLimit); [lia|].
    cbn [bind] in E.
    destruct (forEach _ substrings) as [results| |] eqn:F; cbn [bind] in E;
      try discriminate.
    apply (forEach_substrings_otherTag deconstruct this substrings Hex results).
    exact F. }
  split; [exact Hthrows|].
  unfold octetString. rewrite deconstruct_unfold, Hc, Hseq.
  destruct (Z.gtb_spec (recursionCount this + 1) nestingRecursionLimit); [lia|].
  cbn [bind]. fold (nested this). repeat split.
  - intros before after other contents -> Htag Hcontents Hother.
    rewrite (forEach_Throw _ before after other contents ASN1ConstructionError);
      [reflexivity| |].
    + apply (forEach_substrings deconstruct); assumption.
    + rewrite checkSubstring_otherTag by assumption. reflexivity.
  - intros before after failing contents err -> Htag Hcontents Hsame Hfails.
    rewrite (forEach_Throw _ before after failing contents err);
      [reflexivity| |].
    + apply (forEach_substrings deconstruct); assumption.
    + rewrite checkSubstring_sameTag by assumption. exact Hfails.
  - intros contents Htag Hcontents.
    rewrite (forEach_Return _ substrings contents); [reflexivity|].
    apply (forEach_substrings deconstruct); assumption.
Qed.

Lemma constructed_octetString_witness :
  octetString (mkElement 0 universal constructed 4 [x04; x01; xaa; x04; x01; xbb])
  = Return [xaa; xbb]
  /\ octetString (mkElement 0 universal constructed 4 [x04; x01; xaa; x05; x00])
     = Throw ASN1ConstructionError
  /\ octetString
       (mkElement 0 universal constructed 4
          [x04; x01; xaa; x24; x01; x00; x05; x00])
     = Throw ASN1TruncationError.
Proof.
  split; [|split].
  - apply (proj1 (proj2 (proj2 (proj2
             (constructed_octetString
                (mkElement 0 universal constructed 4 [x04; x01; xaa; x04; x01; xbb])
                [mkElement 0 universal primitive 4 [xaa];
                 mkElement 0 universal primitive 4 [xbb]]
                eq_refl ltac:(vm_compute; discriminate) eq_refl))))
             [[xaa]; [xbb]]).
    + repeat constructor.
    + repeat constructor.
  - apply (proj1 (proj2
             (constructed_octetString
                (mkElement 0 universal constructed 4 [x04; x01; xaa; x05; x00])
                [mkElement 0 universal primitive 4 [xaa];
                 mkElement 0 universal primitive 5 []]
                eq_refl ltac:(vm_compute; discriminate) eq_refl))
             [mkElement 0 universal primitive 4 [xaa]] []
             (mkElement 0 universal primitive 5 []) [[xaa]]).
    + reflexivity.
    + repeat constructor.
    + repeat constructor.
    + intros [_ H]. discriminate.
  - apply (proj1 (proj2 (proj2
             (constructed_octetString
                (mkElement 0 universal constructed 4
                   [x04; x01; xaa; x24; x01; x00; x05; x00])
                [mkElement 0 universal primitive 4 [xaa];
                 mkElement 0 universal constructed 4 [x00];
                 mkElement 0 universal primitive 5 []]
                eq_refl ltac:(vm_compute; discriminate) eq_refl)))
             [mkElement 0 universal primitive 4 [xaa]]
             [mkElement 0 universal primitive 5 []]
             (mkElement 0 universal constructed 4 [x00]) [[xaa]]
             ASN1TruncationError).
    + reflexivity.
    + repeat constructor.
    + repeat constructor.
    + split; reflexivity.
    + reflexivity.
Defined.

(** ** The nesting limit *)

(** C8, counterexample: five constructed levels around a primitive OCTET
    STRING.  With indefinite lengths, [fromBytes] throws
    [ASN1RecursionError]; with definite lengths, [fromBytes] and then
    [deconstruct] return, the leaf at the sixth level included. *)
Lemma nesting_depth_counted_two_ways :
  fromBytes new_default (indefiniteNest 5 [x04; x00]) = Throw ASN1RecursionError
  /\ (e <- fromBytes new_default (definiteNest x24 5 [x04; x00]) ;;
      deconstruct (fst e)) = Return [].
Proof. split; reflexivity. Qed.

(** C8, as amended: [fromBytes], given two octets at least, throws
    [ASN1RecursionError] when the element it decodes is beyond the nesting
    limit of 5, the children of an indefinite-length element, its
    end-of-contents marker among them, being one level below it: so a leaf
    inside four indefinite-length levels decodes and inside five or more it
    does not.  Within the limit, [fromBytes] throws [ASN1RecursionError]
    only when the decoding of a child does: the buffer starts with accepted
    identifier octets of constructed form and the length octet [80], and a
    child that the scan reaches from the first, at the octet after [80], one
    level deeper, throws it; past accepted identifier octets, a length octet
    other than [80] never leads to it.  [deconstruct] and the [bitString]
    getter throw [ASN1RecursionError] on a constructed element beyond the
    limit, and [deconstruct] returns the value of a primitive element at any
    level: so five constructed levels around a primitive leaf are read and
    six are not.  Within the limit, a [ASN1RecursionError] of these two
    comes from decoding a substring. *)
Theorem nesting_limit :
  (forall (this : t) (bytes : Uint8Array),
      2 <= len bytes ->
      recursionCount this + 1 > nestingRecursionLimit ->
      fromBytes this bytes = Throw ASN1RecursionError)
  /\ (forall (this : t) (bytes : Uint8Array),
         recursionCount this + 1 <= nestingRecursionLimit ->
         fromBytes this bytes = Throw ASN1RecursionError ->
         exists (pre rest : Uint8Array) (identifier : byte) (n i : Z),
           bytes = pre ++ x80 :: rest
           /\ identifierOctets pre identifier n
           /\ constructionOf identifier = constructed
           /\ childOffset (fromBytes (newChild this)) bytes (len pre + 1) i
           /\ fromBytes (newChild this) (sliceFrom bytes i)
              = Throw ASN1RecursionError)
  /\ (forall (this : t) (pre rest : Uint8Array) (identifier l : byte) (n : Z),
         identifierOctets pre identifier n ->
         recursionCount this + 1 <= nestingRecursionLimit ->
         l <> x80 ->
         fromBytes this (pre ++ l :: rest) <> Throw ASN1RecursionError)
  /\ (forall levels : nat,
         (levels <= 4)%nat ->
         exists e,
           fromBytes new_default (indefiniteNest levels [x04; x00])
           = Return (e, len (indefiniteNest levels [x04; x00])))
  /\ (forall levels : nat,
         (5 <= levels)%nat ->
         fromBytes new_default (indefiniteNest levels [x04; x00])
         = Throw ASN1RecursionError)
  /\ (forall this : t,
         construction this = constructed ->
         recursionCount this + 1 > nestingRecursionLimit ->
         deconstruct this = Throw ASN1RecursionError
         /\ bitString this = Throw ASN1RecursionError)
  /\ (forall this : t,
         construction this = primitive ->
         deconstruct this = Return (value this))
  /\ (forall this : t,
         recursionCount this + 1 <= nestingRecursionLimit ->
         deconstruct this = Throw ASN1RecursionError ->
         sequence this = Throw ASN1RecursionError
         \/ exists substrings s,
              sequence this = Return substrings /\ In s substrings
              /\ deconstruct (nested this s) = Throw ASN1RecursionError)
  /\ (forall this : t,
         recursionCount this + 1 <= nestingRecursionLimit ->
         bitString this = Throw ASN1RecursionError ->
         sequence this = Throw ASN1RecursionError
         \/ exists substrings s,
              sequence this = Return substrings /\ In s substrings
              /\ bitString (nested this s) = Throw ASN1RecursionError)
  /\ (e <- fromBytes new_default (definiteNest x24 5 [x04; x00]) ;;
      deconstruct (fst e)) = Return []
  /\ (e <- fromBytes new_default (definiteNest x24 6 [x04; x00]) ;;
      deconstruct (fst e)) = Throw ASN1RecursionError
  /\ (e <- fromBytes new_default (definiteNest x23 5 [x03; x02; x05; xf0]) ;;
      bitString (fst e)) = Return [true; true; true]
  /\ (e <- fromBytes new_default (definiteNest x23 6 [x03; x02; x05; xf0]) ;;
      bitString (fst e)) = Throw ASN1RecursionError.
Proof.
  split; [exact fromBytes_beyond_limit|].
  split; [exact fromBytes_RecursionError_inv|].
  split; [exact fromBytes_definite_no_RecursionError|].
  split.
  { intros levels Hle.
    do 5 (destruct levels as [|levels]; [eexists; vm_compute; reflexivity|]).
    lia. }
  split.
  { intros levels Hle.
    rewrite <- (app_nil_r (indefiniteNest levels [x04; x00])).
    apply fromBytes_indefiniteNest_deep; [vm_compute; discriminate|].
    change (recursionCount new_default) with 0.
    change nestingRecursionLimit with 5. lia. }
  split.
  { intros this Hc Hrc. split;
      [apply deconstruct_beyond_limit|apply bitString_beyond_limit]; assumption. }
  split.
  { intros this Hp. rewrite deconstruct_unfold, Hp. reflexivity. }
  split; [exact deconstruct_RecursionError_origin|].
  split; [exact bitString_RecursionError_origin|].
  repeat split; reflexivity.
Qed.

Lemma nesting_limit_witness :
  fromBytes (mkElement 5 universal primitive 0 []) [x04; x00]
  = Throw ASN1RecursionError
  /\ (exists (pre rest : Uint8Array) (identifier : byte) (n i : Z),
         [x24; x80; x04; x00; x24; x80; x04; x00; x00; x00; x00; x00]
         = pre ++ x80 :: rest
         /\ identifierOctets pre identifier n
         /\ constructionOf identifier = constructed
         /\ childOffset
              (fromBytes (newChild (mkElement 3 universal primitive 0 [])))
              [x24; x80; x04; x00; x24; x80; x04; x00; x00; x00; x00; x00]
              (len pre + 1) i
         /\ fromBytes (newChild (mkElement 3 universal primitive 0 []))
              (sliceFrom
                 [x24; x80; x04; x00; x24; x80; x04; x00; x00; x00; x00; x00] i)
            = Throw ASN1RecursionError)
  /\ fromBytes (mkElement 4 universal primitive 0 []) [x24; x02; x04; x00]
     <> Throw ASN1RecursionError
  /\ deconstruct (mkElement 5 universal constructed 4 [])
     = Throw ASN1RecursionError
  /\ deconstruct (mkElement 5 universal primitive 4 [x01]) = Return [x01]
  /\ fromBytes new_default (indefiniteNest 6 [x04; x00])
     = Throw ASN1RecursionError.
Proof.
  destruct nesting_limit as (Hf & Hchild & Hdefinite & _ & Hdeep & Hd & Hp & _).
  split; [|split; [|split; [|split; [|split]]]].
  - apply Hf; [vm_compute; discriminate|vm_compute; reflexivity].
  - apply Hchild; [vm_compute; discriminate|vm_compute; reflexivity].
  - apply (Hdefinite (mkElement 4 universal primitive 0 []) [x24] [x04; x00]
             x24 x02 4).
    + left. repeat split. vm_compute. discriminate.
    + vm_compute. discriminate.
    + discriminate.
  - apply Hd; [reflexivity|vm_compute; reflexivity].
  - apply (Hp (mkElement 5 universal primitive 4 [x01])). reflexivity.
  - apply Hdeep. apply le_S, le_n.
Defined.

(** ** Fragmentation under CER *)



(** * Further properties of the codecs *)

(** ** The identifier octets that [fromBytes] accepts *)

(** The identifier octets of [toBytes] are accepted ones, but for the tag
    number 31. *)
Lemma tagBytes_identifierOctets (e : t) :
  0 <= tagNumber e < 31 \/ 31 < tagNumber e < 2 ^ 21 ->
  exists id,
    identifierOctets (map ToUint8 (tagBytes e)) id (tagNumber e)
    /\ classOf id = tagClass e /\ constructionOf id = construction e.
Proof.
  intros [Hshort|Hlong].
  - destruct (tagBytes_short e Hshort) as (id & Hid & Hnl & Hc & Hk & Hn).
    exists id. split; [|split; assumption].
    left. rewrite Hid, Hn. repeat split. assumption.
  - destruct (tagBytes_long e) as (id & octets & Hid & Hl & Hc & Hk & Hmin); [lia|].
    exists id. split; [|split; assumption].
    right. split; [assumption|]. exists octets. rewrite Hid.
    split; [reflexivity|]. split; [assumption|lia].
Qed.

(** ** Tag numbers that [fromBytes] refuses *)

(** Three continuation octets with the high bit set, and two more octets at
    least: the tag number takes a fourth octet, and it is refused. *)
Lemma decodeLongTagNumber_overflow (id d1 d2 d3 : byte) (more : Uint8Array) :
  d1 <> x80 ->
  128 <= toZ d1 -> 128 <= toZ d2 -> 128 <= toZ d3 ->
  2 <= len more ->
  decodeLongTagNumber (id :: d1 :: d2 :: d3 :: more) 1 = Throw ASN1OverflowError.
Proof.
  intros Hd1 H1 H2 H3 Hmore. unfold decodeLongTagNumber.
  assert (Hfirst : strictEq (at_ (id :: d1 :: d2 :: d3 :: more) 1) 0x80 = false).
  { cbn. apply Z.eqb_neq. intros E. apply Hd1, toZ_inj. rewrite E. reflexivity. }
  rewrite Hfirst.
  assert (Hlen : len (id :: d1 :: d2 :: d3 :: more) - 1 = 3 + len more)
    by (rewrite !len_cons; lia).
  rewrite Hlen.
  destruct (Z.geb_spec (3 + len more) 4); [|lia].
  change (Z.to_nat 4) with 4%nat. cbn [skipTagNumber].
  change (1 <? 4) with true. change (1 + 1 <? 4) with true.
  change (1 + 1 + 1 <? 4) with true. change (1 + 1 + 1 + 1 <? 4) with false.
  change (at_ (id :: d1 :: d2 :: d3 :: more) 1) with (Some d1).
  change (at_ (id :: d1 :: d2 :: d3 :: more) (1 + 1)) with (Some d2).
  change (at_ (id :: d1 :: d2 :: d3 :: more) (1 + 1 + 1)) with (Some d3).
  cbn [num]. rewrite !land_0x80_high by assumption.
  change (128 =? 0) with false. cbn iota.
  change (at_ (id :: d1 :: d2 :: d3 :: more) (1 + 1 + 1 + 1 - 1)) with (Some d3).
  cbn [num]. rewrite land_0x80_high by assumption.
  change (negb (128 =? 0)) with true. cbn iota.
  destruct (Z.eqb_spec 4 (3 + len more)); [lia|reflexivity].
Qed.

(** One round of the loop [while (number !== 0)], for every 32-bit number. *)
Lemma encodeTagNumber_round32 (rounds : nat) (number : Z) (encodedNumber : list Z) :
  0 < number < 2 ^ 32 ->
  encodeTagNumber (S rounds) number encodedNumber
  = encodeTagNumber rounds (number / 128)
      (128 + number mod 128 :: encodedNumber).
Proof.
  intros H. cbn [encodeTagNumber].
  destruct (Z.eqb_spec number 0); [lia|].
  rewrite ushr_small by lia.
  change 0x7F with (Z.ones 7). rewrite Z.land_ones by lia.
  change (2 ^ 7) with 128. cbn [orFirst].
  assert (Hmod : ToInt32 number mod 128 = number mod 128).
  { unfold ToInt32. Z.to_euclidean_division_equations. lia. }
  rewrite Hmod, lor_0x80 by (apply Z.mod_pos_bound; lia). reflexivity.
Qed.

Lemma encodedNumber_4 (n : Z) :
  2 ^ 21 <= n < 2 ^ 28 ->
  andLast 0x7F (encodeTagNumber 5 n [])
  = [128 + n / 128 / 128 / 128; 128 + (n / 128 / 128) mod 128;
     128 + (n / 128) mod 128; n mod 128].
Proof.
  intros H.
  assert (2 ^ 14 <= n / 128 < 2 ^ 21) by (Z.to_euclidean_division_equations; lia).
  assert (128 <= n / 128 / 128 < 2 ^ 14) by (Z.to_euclidean_division_equations; lia).
  assert (0 < n / 128 / 128 / 128 < 128) by (Z.to_euclidean_division_equations; lia).
  do 4 (rewrite encodeTagNumber_round32 by lia).
  rewrite (Z.div_small (n / 128 / 128 / 128)), encodeTagNumber_done by lia.
  cbn [andLast]. rewrite land_0x7F_clear by (apply Z.mod_pos_bound; lia).
  rewrite (Z.mod_small (n / 128 / 128 / 128)) by lia. reflexivity.
Qed.

Lemma encodedNumber_5 (n : Z) :
  2 ^ 28 <= n < 2 ^ 32 ->
  andLast 0x7F (encodeTagNumber 5 n [])
  = [128 + n / 128 / 128 / 128 / 128; 128 + (n / 128 / 128 / 128) mod 128;
     128 + (n / 128 / 128) mod 128; 128 + (n / 128) mod 128; n mod 128].
Proof.
  intros H.
  assert (2 ^ 21 <= n / 128 < 2 ^ 25) by (Z.to_euclidean_division_equations; lia).
  assert (2 ^ 14 <= n / 128 / 128 < 2 ^ 18) by (Z.to_euclidean_division_equations; lia).
  assert (128 <= n / 128 / 128 / 128 < 2 ^ 11) by (Z.to_euclidean_division_equations; lia).
  assert (0 < n / 128 / 128 / 128 / 128 < 16) by (Z.to_euclidean_division_equations; lia).
  do 5 (rewrite encodeTagNumber_round32 by lia).
  cbn [encodeTagNumber andLast].
  rewrite land_0x7F_clear by (apply Z.mod_pos_bound; lia).
  rewrite (Z.mod_small (n / 128 / 128 / 128 / 128)) by lia. reflexivity.
Qed.

Lemma toZ_ToUint8_high (x : Z) : 0 <= x < 128 -> 128 <= toZ (ToUint8 (128 + x)).
Proof. intros H. rewrite toZ_ToUint8; lia. Qed.

Lemma lengthOctets_nonempty (preference : LengthEncodingPreference) (e : t) :
  lengthOctets preference e <> [].
Proof.
  destruct preference; cbn [lengthOctets]; [|discriminate].
  unfold definiteLengthOctets. destruct (_ <? _); discriminate.
Qed.

(** X1: the tag numbers that [toBytes] writes and [fromBytes] refuses,
    whatever the class, the construction, the value, the length preference
    and the octets that follow: 31, written in long form and refused as a
    number for the short form, and the numbers from [2 ^ 21] on, written on
    four or five continuation octets and refused as too large. *)
Theorem toBytes_tag_number_refused (preference : LengthEncodingPreference)
    (this e : t) (more : Uint8Array) :
  recursionCount this + 1 <= nestingRecursionLimit ->
  (tagNumber e = 31 ->
   fromBytes this (toBytes preference e ++ more) = Throw ASN1Error)
  /\ (2 ^ 21 <= tagNumber e < 2 ^ 32 ->
      fromBytes this (toBytes preference e ++ more) = Throw ASN1OverflowError).
Proof.
  intros Hrc.
  pose proof (lengthOctets_nonempty preference e) as Hlo.
  assert (Hne : forall l : Uint8Array,
             map ToUint8 (lengthOctets preference e) ++ l <> []).
  { intros l. destruct (lengthOctets preference e); [contradiction|discriminate]. }
  destruct (identifier_octet (tagClass e) (construction e) 31)
    as (_ & _ & Hlong); [lia|]. cbv zeta in Hlong.
  unfold toBytes, tagBytes. cbv zeta. split.
  - intros E. rewrite E. change (31 <? 31) with false. cbn iota.
    change (andLast 127 (encodeTagNumber 5 31 [])) with [31].
    cbn [map app]. change (ToUint8 31) with x1f.
    rewrite <- !app_assoc.
    rewrite fromBytes_long_unfold by (try assumption; discriminate).
    match goal with
    | |- context [decodeLongTagNumber (?i :: x1f :: ?r) 1] =>
        pose proof (decodeLongTagNumber_continuation i [x1f] r) as Hd
    end.
    cbn [app] in Hd.
    rewrite Hd;
      [reflexivity|vm_compute; reflexivity|discriminate|vm_compute; discriminate|apply Hne].
  - intros H. destruct (Z.ltb_spec (tagNumber e) 31); [lia|].
    set (n := tagNumber e) in *.
    destruct (Z.lt_ge_cases n (2 ^ 28)) as [H4|H5].
    + rewrite encodedNumber_4 by lia. cbn [map app]. rewrite <- !app_assoc.
      assert (0 < n / 128 / 128 / 128 < 128) by (Z.to_euclidean_division_equations; lia).
      rewrite fromBytes_long_unfold by (try assumption; discriminate).
      rewrite decodeLongTagNumber_overflow; [reflexivity| | | | |].
      * intros E. apply (f_equal toZ) in E. rewrite toZ_ToUint8 in E by lia.
        change (toZ x80) with 128 in E. lia.
      * apply toZ_ToUint8_high. lia.
      * apply toZ_ToUint8_high. apply Z.mod_pos_bound. lia.
      * apply toZ_ToUint8_high. apply Z.mod_pos_bound. lia.
      * rewrite len_cons, len_app.
        pose proof (len_nonneg (value e ++ match preference with definite => [] | indefinite => [x00; x00] end ++ more)).
        destruct (lengthOctets preference e); [contradiction|].
        cbn [map]. rewrite len_cons. pose proof (len_nonneg (map ToUint8 l)). lia.
    + rewrite encodedNumber_5 by lia. cbn [map app]. rewrite <- !app_assoc.
      assert (0 < n / 128 / 128 / 128 / 128 < 16) by (Z.to_euclidean_division_equations; lia).
      rewrite fromBytes_long_unfold by (try assumption; discriminate).
      rewrite decodeLongTagNumber_overflow; [reflexivity| | | | |].
      * intros E. apply (f_equal toZ) in E. rewrite toZ_ToUint8 in E by lia.
        change (toZ x80) with 128 in E. lia.
      * apply toZ_ToUint8_high. lia.
      * apply toZ_ToUint8_high. apply Z.mod_pos_bound. lia.
      * apply toZ_ToUint8_high. apply Z.mod_pos_bound. lia.
      * rewrite !len_cons.
        pose proof (len_nonneg (map ToUint8 (lengthOctets preference e) ++ value e ++ match preference with definite => [] | indefinite => [x00; x00] end ++ more)).
        lia.
Qed.

Lemma toBytes_tag_number_refused_witness :
  fromBytes new_default (toBytes definite (new universal primitive 31) ++ [])
  = Throw ASN1Error
  /\ fromBytes new_default
       (toBytes indefinite (new context constructed (2 ^ 21)) ++ [xff])
     = Throw ASN1OverflowError.
Proof.
  assert (Hrc : recursionCount new_default + 1 <= nestingRecursionLimit)
    by (vm_compute; discriminate).
  split.
  - apply (proj1 (toBytes_tag_number_refused definite new_default
                    (new universal primitive 31) [] Hrc)).
    reflexivity.
  - apply (proj2 (toBytes_tag_number_refused indefinite new_default
                    (new context constructed (2 ^ 21)) [xff] Hrc)).
    cbn [tagNumber new]. lia.
Defined.

(** The loop over octets that all have the high bit set runs up to the
    limit. *)
Lemma skipTagNumber_high (octets pre rest : Uint8Array) (rounds : nat) (limit : Z) :
  Forall (fun d => 128 <= toZ d) octets ->
  len pre <= limit <= len pre + len octets ->
  limit - len pre <= Z.of_nat rounds ->
  skipTagNumber rounds (pre ++ octets ++ rest) limit (len pre) = limit.
Proof.
  intros Hhigh. revert pre rounds.
  induction Hhigh as [|d octets Hd _ IH]; intros pre rounds Hl Hr.
  - rewrite len_nil in Hl. destruct rounds; cbn [skipTagNumber]; [lia|].
    destruct (Z.ltb_spec (len pre) limit); lia.
  - rewrite len_cons in Hl. pose proof (len_nonneg octets).
    destruct rounds as [|rounds]; cbn [skipTagNumber]; [lia|].
    destruct (Z.ltb_spec (len pre) limit); [|lia].
    cbn [app]. rewrite at_app_here. cbn [num].
    rewrite land_0x80_high by assumption. change (128 =? 0) with false. cbn iota.
    specialize (IH (pre ++ [d]) rounds).
    rewrite len_app, len_cons, len_nil, <- app_assoc in IH. cbn [app] in IH.
    replace (len pre + (0 + 1)) with (len pre + 1) in IH by lia.
    apply IH; lia.
Qed.

Lemma Forall_at (P : byte -> Prop) (octets : Uint8Array) (i : Z) :
  Forall P octets -> 0 <= i < len octets ->
  exists d, at_ octets i = Some d /\ P d.
Proof.
  intros H. revert i. induction H as [|d octets Hd _ IH]; intros i Hi.
  - unfold len in Hi. cbn [length] in Hi. lia.
  - rewrite len_cons in Hi. destruct (Z.eq_dec i 0) as [->|].
    + exists d. split; [reflexivity|assumption].
    + rewrite at_cons_S by lia. apply IH. lia.
Qed.

(** Continuation octets that all announce a further octet, up to the limit
    of the loop: the tag number is cut short by the end of the buffer, or it
    goes beyond the third octet. *)
Lemma decodeLongTagNumber_high (id : byte) (octets rest : Uint8Array) :
  Forall (fun d => 128 <= toZ d) octets ->
  hd x00 octets <> x80 ->
  2 <= len octets ->
  Z.min 4 (len octets + len rest) <= 1 + len octets ->
  decodeLongTagNumber (id :: octets ++ rest) 1
  = if len octets + len rest <=? 4 then Throw ASN1TruncationError
    else Throw ASN1OverflowError.
Proof.
  intros Hhigh Hhd Hlen Hmin. unfold decodeLongTagNumber.
  pose proof (len_nonneg rest) as Hrest.
  set (bytes := id :: octets ++ rest).
  assert (Hbytes : len bytes - 1 = len octets + len rest).
  { subst bytes. rewrite len_cons, len_app. lia. }
  assert (Hfirst : strictEq (at_ bytes 1) 0x80 = false).
  { subst bytes. destruct octets as [|d octets]; [rewrite len_nil in Hlen; lia|].
    cbn [hd] in Hhd. cbn. apply Z.eqb_neq. intros E. apply Hhd, toZ_inj.
    rewrite E. reflexivity. }
  rewrite Hfirst, Hbytes.
  set (limit := if len octets + len rest >=? 4 then 4 else len octets + len rest).
  assert (Hlimit : 2 <= limit <= 4 /\ limit <= 1 + len octets
                   /\ (limit = len octets + len rest <-> len octets + len rest <= 4)).
  { subst limit. destruct (Z.geb_spec (len octets + len rest) 4); lia. }
  pose proof (skipTagNumber_high octets [id] rest (Z.to_nat limit) limit Hhigh) as Hskip.
  change (len [id]) with 1 in Hskip. change ([id] ++ octets ++ rest) with bytes in Hskip.
  rewrite Hskip by lia.
  destruct (Forall_at _ octets (limit - 2) Hhigh) as (d & Hd & Hdhigh); [lia|].
  replace (limit - 1) with (len [id] + (limit - 2)) by (change (len [id]) with 1; lia).
  subst bytes. change (id :: octets ++ rest) with ([id] ++ octets ++ rest).
  rewrite at_app_r, at_app_l, Hd by lia. cbn [num].
  rewrite land_0x80_high by assumption. change (negb (128 =? 0)) with true. cbn iota.
  destruct (Z.eqb_spec limit (len octets + len rest)), (Z.leb_spec (len octets + len rest) 4);
    try reflexivity; lia.
Qed.

(** X2: long-form tag numbers that [fromBytes] refuses, whatever the
    identifier octet: a first continuation octet [80] is padding; continuation
    octets that run to the end of the buffer without one that ends the
    number make a truncated element; and a number that goes on past its
    third octet is too large. *)
Theorem fromBytes_long_tag_refused (this : t) (id : byte) :
  longForm id ->
  recursionCount this + 1 <= nestingRecursionLimit ->
  (forall rest : Uint8Array,
      fromBytes this (id :: x80 :: rest) = Throw ASN1PaddingError)
  /\ (forall octets : Uint8Array,
         Forall (fun d => 128 <= toZ d) octets ->
         hd x00 octets <> x80 ->
         2 <= len octets <= 4 ->
         fromBytes this (id :: octets) = Throw ASN1TruncationError)
  /\ (forall octets rest : Uint8Array,
         Forall (fun d => 128 <= toZ d) octets ->
         hd x00 octets <> x80 ->
         3 <= len octets ->
         5 <= len octets + len rest ->
         fromBytes this (id :: octets ++ rest) = Throw ASN1OverflowError).
Proof.
  intros Hlong Hrc. split; [|split].
  - intros rest. rewrite fromBytes_long_unfold by (try assumption; discriminate).
    reflexivity.
  - intros octets Hhigh Hhd Hlen.
    assert (Hne : octets <> []) by (intros ->; rewrite len_nil in Hlen; lia).
    rewrite fromBytes_long_unfold by assumption.
    rewrite <- (app_nil_r octets).
    rewrite decodeLongTagNumber_high; try assumption; rewrite ?len_nil; try lia.
    destruct (Z.leb_spec (len octets + 0) 4); [reflexivity|lia].
  - intros octets rest Hhigh Hhd Hlen Htotal.
    assert (Hne : octets ++ rest <> []).
    { destruct octets; [rewrite len_nil in Hlen; lia|discriminate]. }
    rewrite fromBytes_long_unfold by assumption.
    pose proof (len_nonneg rest).
    rewrite decodeLongTagNumber_high; try assumption; try lia.
    destruct (Z.leb_spec (len octets + len rest) 4); [lia|reflexivity].
Qed.

Lemma fromBytes_long_tag_refused_witness :
  fromBytes new_default [x1f; x80; x01; x00] = Throw ASN1PaddingError
  /\ fromBytes new_default [x1f; x81; x82] = Throw ASN1TruncationError
  /\ fromBytes new_default [x1f; x81; x80; x80; x00; x00] = Throw ASN1OverflowError.
Proof.
  assert (Hlong : longForm x1f) by reflexivity.
  assert (Hrc : recursionCount new_default + 1 <= nestingRecursionLimit)
    by (vm_compute; discriminate).
  destruct (fromBytes_long_tag_refused new_default x1f Hlong Hrc) as (Hp & Ht & Ho).
  split; [apply Hp|]. split.
  - apply Ht.
    + repeat constructor; vm_compute; discriminate.
    + discriminate.
    + vm_compute. split; discriminate.
  - apply (Ho [x81; x80; x80] [x00; x00]).
    + repeat constructor; vm_compute; discriminate.
    + discriminate.
    + vm_compute. discriminate.
    + vm_compute. discriminate.
Defined.

(** ** The length octets that [fromBytes] reads *)

Lemma at_app_past (pre rest : Uint8Array) (l : byte) (j : Z) :
  0 <= j -> at_ (pre ++ l :: rest) (len pre + 1 + j) = at_ rest j.
Proof.
  intros Hj. change (pre ++ l :: rest) with (pre ++ [l] ++ rest).
  rewrite app_assoc.
  replace (len pre + 1) with (len (pre ++ [l]))
    by (rewrite len_app, len_cons, len_nil; lia).
  apply at_app_r. exact Hj.
Qed.

Lemma slice_app_firstn {A} (pre rest : list A) (n : Z) :
  0 <= n <= len rest ->
  slice (pre ++ rest) (len pre) (len pre + n) = firstn (Z.to_nat n) rest.
Proof.
  intros Hn.
  assert (Hl : len (firstn (Z.to_nat n) rest) = n)
    by (unfold len in *; rewrite length_firstn; lia).
  pose proof (slice_app_mid pre (firstn (Z.to_nat n) rest) (skipn (Z.to_nat n) rest))
    as H.
  rewrite firstn_skipn, Hl in H. exact H.
Qed.

Lemma lengthNumberOctets_3 (bytes : Uint8Array) (cursor : Z) :
  lengthNumberOctets bytes cursor 3
  = [0; toZ (ToUint8 (num (at_ bytes (cursor + 3 - 3))));
     toZ (ToUint8 (num (at_ bytes (cursor + 3 - 2))));
     toZ (ToUint8 (num (at_ bytes (cursor + 3 - 1))))].
Proof. reflexivity. Qed.

Lemma lengthNumberOctets_4 (bytes : Uint8Array) (cursor : Z) :
  lengthNumberOctets bytes cursor 4
  = [toZ (ToUint8 (num (at_ bytes (cursor + 4 - 4))));
     toZ (ToUint8 (num (at_ bytes (cursor + 4 - 3))));
     toZ (ToUint8 (num (at_ bytes (cursor + 4 - 2))));
     toZ (ToUint8 (num (at_ bytes (cursor + 4 - 1))))].
Proof. reflexivity. Qed.

Lemma bigEndian_bounds (octets : list byte) :
  0 <= bigEndian octets < 256 ^ len octets.
Proof.
  unfold bigEndian.
  assert (H : forall a, 0 <= a ->
             0 <= fold_left (fun n d => n * 256 + toZ d) octets a
             < (a + 1) * 256 ^ len octets).
  { induction octets as [|d octets IH]; intros a Ha.
    - cbn. lia.
    - cbn [fold_left]. pose proof (toZ_range d).
      specialize (IH (a * 256 + toZ d)). rewrite len_cons.
      rewrite Z.pow_add_r by (pose proof (len_nonneg octets); lia).
      assert (0 < 256 ^ len octets) by (apply Z.pow_pos_nonneg; [lia|apply len_nonneg]).
      nia. }
  specialize (H 0). lia.
Qed.

(** The loop [length <<= 8; length += octet] over the four length octets:
    the big-endian number of the octets read, as a 32-bit signed integer. *)
Lemma decodeLength_lengthNumberOctets (pre ls rest : Uint8Array) (l : byte) :
  1 <= len ls <= 4 ->
  decodeLength (lengthNumberOctets (pre ++ l :: ls ++ rest) (len pre + 1) (len ls))
  = ToInt32 (bigEndian ls).
Proof.
  intros Hlen.
  destruct ls as [|d1 [|d2 [|d3 [|d4 [|d5 ls]]]]];
    try (unfold len in Hlen; cbn [length] in Hlen; lia).
  - change (len [d1]) with 1. rewrite lengthNumberOctets_1.
    replace (len pre + 1 + 1 - 1) with (len pre + 1 + 0) by lia.
    rewrite at_app_past by lia.
    change (at_ ([d1] ++ rest) 0) with (Some d1). cbn [num]. rewrite ToUint8_toZ.
    pose proof (toZ_range d1).
    unfold decodeLength, bigEndian. cbn [fold_left].
    change (shl (shl (shl 0 8 + 0) 8 + 0) 8 + 0) with 0.
    rewrite (shl_small 0), ToInt32_small by lia. lia.
  - change (len [d1; d2]) with 2. rewrite lengthNumberOctets_2.
    replace (len pre + 1 + 2 - 2) with (len pre + 1 + 0) by lia.
    replace (len pre + 1 + 2 - 1) with (len pre + 1 + 1) by lia.
    rewrite !at_app_past by lia.
    change (at_ ([d1; d2] ++ rest) 0) with (Some d1).
    change (at_ ([d1; d2] ++ rest) 1) with (Some d2).
    cbn [num]. rewrite !ToUint8_toZ.
    pose proof (toZ_range d1). pose proof (toZ_range d2).
    unfold decodeLength, bigEndian. cbn [fold_left].
    change (shl (shl 0 8 + 0) 8 + 0) with 0.
    rewrite (shl_small 0) by lia. rewrite shl_small by lia.
    rewrite ToInt32_small by lia. lia.
  - change (len [d1; d2; d3]) with 3. rewrite lengthNumberOctets_3.
    replace (len pre + 1 + 3 - 3) with (len pre + 1 + 0) by lia.
    replace (len pre + 1 + 3 - 2) with (len pre + 1 + 1) by lia.
    replace (len pre + 1 + 3 - 1) with (len pre + 1 + 2) by lia.
    rewrite !at_app_past by lia.
    change (at_ ([d1; d2; d3] ++ rest) 0) with (Some d1).
    change (at_ ([d1; d2; d3] ++ rest) 1) with (Some d2).
    change (at_ ([d1; d2; d3] ++ rest) 2) with (Some d3).
    cbn [num]. rewrite !ToUint8_toZ.
    pose proof (toZ_range d1). pose proof (toZ_range d2). pose proof (toZ_range d3).
    unfold decodeLength, bigEndian. cbn [fold_left].
    change (shl 0 8 + 0) with 0.
    rewrite (shl_small 0) by lia. rewrite (shl_small (0 * 2 ^ 8 + toZ d1)) by lia.
    rewrite shl_small by lia.
    rewrite ToInt32_small by lia. lia.
  - change (len [d1; d2; d3; d4]) with 4. rewrite lengthNumberOctets_4.
    replace (len pre + 1 + 4 - 4) with (len pre + 1 + 0) by lia.
    replace (len pre + 1 + 4 - 3) with (len pre + 1 + 1) by lia.
    replace (len pre + 1 + 4 - 2) with (len pre + 1 + 2) by lia.
    replace (len pre + 1 + 4 - 1) with (len pre + 1 + 3) by lia.
    rewrite !at_app_past by lia.
    change (at_ ([d1; d2; d3; d4] ++ rest) 0) with (Some d1).
    change (at_ ([d1; d2; d3; d4] ++ rest) 1) with (Some d2).
    change (at_ ([d1; d2; d3; d4] ++ rest) 2) with (Some d3).
    change (at_ ([d1; d2; d3; d4] ++ rest) 3) with (Some d4).
    cbn [num]. rewrite !ToUint8_toZ.
    pose proof (toZ_range d1). pose proof (toZ_range d2). pose proof (toZ_range d3).
    pose proof (toZ_range d4).
    unfold decodeLength, bigEndian. cbn [fold_left].
    rewrite (shl_small 0) by lia. rewrite (shl_small (0 * 2 ^ 8 + toZ d1)) by lia.
    rewrite (shl_small ((0 * 2 ^ 8 + toZ d1) * 2 ^ 8 + toZ d2)) by lia.
    unfold shl, ToInt32. rewrite Z.shiftl_mul_pow2 by lia.
    Z.to_euclidean_division_equations. lia.
Qed.

Section DefiniteLength.

Variable child_fromBytes : Uint8Array -> outcome (t * Z).
Variable this : t.

(** A length octet in short form: the value is the octets that follow, as
    many as the octet says. *)
Lemma decodeLengthAndValue_shortForm (pre rest : Uint8Array) (l : byte) :
  toZ l < 128 ->
  decodeLengthAndValue child_fromBytes this (pre ++ l :: rest) (len pre)
  = if toZ l >? len rest then Throw ASN1TruncationError
    else Return (set_value this (firstn (Z.to_nat (toZ l)) rest),
                 len pre + 1 + toZ l).
Proof.
  intros Hl. unfold decodeLengthAndValue. rewrite at_app_here. cbn [num].
  pose proof (toZ_range l). pose proof (len_nonneg pre). pose proof (len_nonneg rest).
  rewrite land_0x80_low by assumption. cbn [Z.eqb].
  rewrite land_0x7F_octet, Z.mod_small by lia.
  rewrite len_app, len_cons.
  destruct (Z.gtb_spec (len pre + 1 + toZ l) (len pre + (len rest + 1))),
    (Z.gtb_spec (toZ l) (len rest)); try lia; [reflexivity|].
  change (pre ++ l :: rest) with (pre ++ [l] ++ rest). rewrite app_assoc.
  replace (len pre + 1) with (len (pre ++ [l]))
    by (rewrite len_app, len_cons, len_nil; lia).
  rewrite slice_app_firstn by lia. reflexivity.
Qed.

(** A length octet in long form and the one to four octets it announces: the
    length is their big-endian number, leading zero octets or not. *)
Lemma decodeLengthAndValue_longForm (pre ls rest : Uint8Array) (l : byte) :
  toZ l = 128 + len ls ->
  1 <= len ls <= 4 ->
  decodeLengthAndValue child_fromBytes this (pre ++ l :: ls ++ rest) (len pre)
  = if bigEndian ls >=? 2 ^ 31 then Throw ASN1OverflowError
    else if bigEndian ls >? len rest then Throw ASN1TruncationError
    else Return (set_value this (firstn (Z.to_nat (bigEndian ls)) rest),
                 len pre + 1 + len ls + bigEndian ls).
Proof.
  intros Hl Hlen. unfold decodeLengthAndValue. rewrite at_app_here. cbn [num].
  pose proof (toZ_range l). pose proof (len_nonneg pre). pose proof (len_nonneg rest).
  rewrite land_0x80_high by lia. cbn [Z.eqb Pos.eqb].
  rewrite land_0x7F_octet by lia.
  replace (toZ l mod 128) with (len ls) by (Z.to_euclidean_division_equations; lia).
  destruct (Z.eqb_spec (len ls) 0); [lia|]. cbn [negb].
  destruct (Z.eqb_spec (len ls) 127); [lia|].
  destruct (Z.gtb_spec (len ls) 4); [lia|].
  rewrite len_app, len_cons, len_app.
  destruct (Z.geb_spec (len pre + len ls) (len pre + (len ls + len rest + 1))); [lia|].
  rewrite decodeLength_lengthNumberOctets by assumption.
  pose proof (bigEndian_bounds ls) as Hb.
  assert (256 ^ len ls <= 256 ^ 4) by (apply Z.pow_le_mono_r; lia).
  destruct (Z.geb_spec (bigEndian ls) (2 ^ 31)).
  - assert (ToInt32 (bigEndian ls) = bigEndian ls - 2 ^ 32).
    { unfold ToInt32. Z.to_euclidean_division_equations. lia. }
    destruct (Z.ltb_spec (len pre + 1 + ToInt32 (bigEndian ls)) (len pre + 1));
      [reflexivity|lia].
  - rewrite ToInt32_small by lia.
    destruct (Z.ltb_spec (len pre + 1 + bigEndian ls) (len pre + 1)); [lia|].
    destruct (Z.gtb_spec (len pre + 1 + len ls + bigEndian ls)
                (len pre + (len ls + len rest + 1))),
      (Z.gtb_spec (bigEndian ls) (len rest)); try lia; [reflexivity|].
    change (pre ++ l :: ls ++ rest) with (pre ++ (l :: ls) ++ rest).
    rewrite app_assoc.
    replace (len pre + 1 + len ls) with (len (pre ++ l :: ls))
      by (rewrite len_app, len_cons; lia).
    rewrite slice_app_firstn by lia. reflexivity.
Qed.

(** The length octets that are refused whatever follows them. *)
Lemma decodeLengthAndValue_refused (pre rest : Uint8Array) (l : byte) :
  (toZ l = 0xFF ->
   decodeLengthAndValue child_fromBytes this (pre ++ l :: rest) (len pre)
   = Throw ASN1UndefinedError)
  /\ (0x84 < toZ l < 0xFF ->
      decodeLengthAndValue child_fromBytes this (pre ++ l :: rest) (len pre)
      = Throw ASN1OverflowError)
  /\ (0x80 < toZ l <= 0x84 -> len rest < toZ l - 0x80 ->
      decodeLengthAndValue child_fromBytes this (pre ++ l :: rest) (len pre)
      = Throw ASN1TruncationError)
  /\ (toZ l = 0x80 -> construction this = primitive ->
      decodeLengthAndValue child_fromBytes this (pre ++ l :: rest) (len pre)
      = Throw ASN1ConstructionError).
Proof.
  unfold decodeLengthAndValue. rewrite at_app_here. cbn [num].
  pose proof (toZ_range l). pose proof (len_nonneg pre). pose proof (len_nonneg rest).
  rewrite land_0x7F_octet by lia. rewrite len_app, len_cons.
  repeat split.
  - intros E. rewrite E. reflexivity.
  - intros Hl. rewrite land_0x80_high by lia. cbn [Z.eqb Pos.eqb].
    assert (Hm : toZ l mod 128 = toZ l - 128) by (Z.to_euclidean_division_equations; lia).
    rewrite Hm.
    destruct (Z.eqb_spec (toZ l - 128) 0); [lia|]. cbn [negb].
    destruct (Z.eqb_spec (toZ l - 128) 127); [lia|].
    destruct (Z.gtb_spec (toZ l - 128) 4); [reflexivity|lia].
  - intros Hl Hrest. rewrite land_0x80_high by lia. cbn [Z.eqb Pos.eqb].
    assert (Hm : toZ l mod 128 = toZ l - 128) by (Z.to_euclidean_division_equations; lia).
    rewrite Hm.
    destruct (Z.eqb_spec (toZ l - 128) 0); [lia|]. cbn [negb].
    destruct (Z.eqb_spec (toZ l - 128) 127); [lia|].
    destruct (Z.gtb_spec (toZ l - 128) 4); [lia|].
    destruct (Z.geb_spec (len pre + (toZ l - 128)) (len pre + (len rest + 1)));
      [reflexivity|lia].
  - intros E Hp. rewrite E, Hp. reflexivity.
Qed.

End DefiniteLength.

(** X3: definite lengths, as [fromBytes] reads them past accepted identifier
    octets.  In short form the length octet is the length; in long form the
    length is the big-endian number of the one to four octets announced,
    leading zero octets or not.  A length from [2 ^ 31] on is refused as an
    overflow and a length beyond the end of the buffer as a truncation;
    otherwise the value is the next octets, as many as the length, and the
    count returned is that of the octets up to the end of the value. *)
Theorem fromBytes_definite_length (this : t) (pre : Uint8Array) (id : byte) (n : Z) :
  identifierOctets pre id n ->
  recursionCount this + 1 <= nestingRecursionLimit ->
  (forall (l : byte) (rest : Uint8Array),
      toZ l < 128 ->
      fromBytes this (pre ++ l :: rest)
      = if toZ l >? len rest then Throw ASN1TruncationError
        else Return (mkElement (recursionCount this) (classOf id)
                       (constructionOf id) n (firstn (Z.to_nat (toZ l)) rest),
                     len pre + 1 + toZ l))
  /\ (forall (l : byte) (ls rest : Uint8Array),
         toZ l = 128 + len ls ->
         1 <= len ls <= 4 ->
         fromBytes this (pre ++ l :: ls ++ rest)
         = if bigEndian ls >=? 2 ^ 31 then Throw ASN1OverflowError
           else if bigEndian ls >? len rest then Throw ASN1TruncationError
           else Return (mkElement (recursionCount this) (classOf id)
                          (constructionOf id) n
                          (firstn (Z.to_nat (bigEndian ls)) rest),
                        len pre + 1 + len ls + bigEndian ls)).
Proof.
  intros Hid Hrc. split.
  - intros l rest Hl.
    rewrite (fromBytes_identifier this pre _ id n) by (try assumption; discriminate).
    rewrite decodeLengthAndValue_shortForm by assumption. reflexivity.
  - intros l ls rest Hl Hlen.
    rewrite (fromBytes_identifier this pre _ id n) by (try assumption; discriminate).
    rewrite decodeLengthAndValue_longForm by assumption. reflexivity.
Qed.

Lemma fromBytes_definite_length_witness :
  fromBytes new_default [x04; x02; xaa; xbb; xcc]
  = Return (mkElement 0 universal primitive 4 [xaa; xbb], 4)
  /\ fromBytes new_default [x04; x82; x00; x02; xaa; xbb; xcc]
     = Return (mkElement 0 universal primitive 4 [xaa; xbb], 6)
  /\ fromBytes new_default [x04; x84; x80; x00; x00; x00; xaa]
     = Throw ASN1OverflowError
  /\ fromBytes new_default [x04; x81; x02; xaa] = Throw ASN1TruncationError.
Proof.
  assert (Hid : identifierOctets [x04] x04 4).
  { left. split; [intros H; vm_compute in H; discriminate|].
    split; reflexivity. }
  assert (Hrc : recursionCount new_default + 1 <= nestingRecursionLimit)
    by (vm_compute; discriminate).
  destruct (fromBytes_definite_length new_default [x04] x04 4 Hid Hrc) as [Hs Hl].
  split; [|split; [|split]].
  - assert (H1 : toZ x02 < 128) by reflexivity.
    exact (Hs x02 [xaa; xbb; xcc] H1).
  - assert (H1 : toZ x82 = 128 + len [x00; x02]) by reflexivity.
    assert (H2 : 1 <= len [x00; x02] <= 4) by (vm_compute; split; discriminate).
    exact (Hl x82 [x00; x02] [xaa; xbb; xcc] H1 H2).
  - assert (H1 : toZ x84 = 128 + len [x80; x00; x00; x00]) by reflexivity.
    assert (H2 : 1 <= len [x80; x00; x00; x00] <= 4)
      by (vm_compute; split; discriminate).
    exact (Hl x84 [x80; x00; x00; x00] [xaa] H1 H2).
  - assert (H1 : toZ x81 = 128 + len [x02]) by reflexivity.
    assert (H2 : 1 <= len [x02] <= 4) by (vm_compute; split; discriminate).
    exact (Hl x81 [x02] [xaa] H1 H2).
Defined.

(** X4: the length octets that [fromBytes] refuses past accepted identifier
    octets, whatever follows them: [FF] is reserved; an octet from [85] to
    [FE] announces more than four length octets; an octet from [81] to [84]
    announces more octets than the buffer still has; and [80], the indefinite
    form, is refused on an identifier octet of primitive construction. *)
Theorem fromBytes_length_refused (this : t) (pre rest : Uint8Array) (id l : byte)
    (n : Z) :
  identifierOctets pre id n ->
  recursionCount this + 1 <= nestingRecursionLimit ->
  (toZ l = 0xFF ->
   fromBytes this (pre ++ l :: rest) = Throw ASN1UndefinedError)
  /\ (0x84 < toZ l < 0xFF ->
      fromBytes this (pre ++ l :: rest) = Throw ASN1OverflowError)
  /\ (0x80 < toZ l <= 0x84 -> len rest < toZ l - 0x80 ->
      fromBytes this (pre ++ l :: rest) = Throw ASN1TruncationError)
  /\ (toZ l = 0x80 -> constructionOf id = primitive ->
      fromBytes this (pre ++ l :: rest) = Throw ASN1ConstructionError).
Proof.
  intros Hid Hrc.
  rewrite (fromBytes_identifier this pre _ id n) by (try assumption; discriminate).
  apply decodeLengthAndValue_refused.
Qed.

Lemma fromBytes_length_refused_witness :
  fromBytes new_default [xdf; x81; x00; xff; x00] = Throw ASN1UndefinedError
  /\ fromBytes new_default [xdf; x81; x00; x85; x00] = Throw ASN1OverflowError
  /\ fromBytes new_default [xdf; x81; x00; x82; x00] = Throw ASN1TruncationError
  /\ fromBytes new_default [xdf; x81; x00; x80; x00; x00]
     = Throw ASN1ConstructionError.
Proof.
  assert (Hid : identifierOctets [xdf; x81; x00] xdf 128).
  { right. split; [reflexivity|]. exists [x81; x00]. split; [reflexivity|].
    split; [|lia]. unfold minimalBase128. cbn [continuation hd].
    repeat split; vm_compute; congruence. }
  assert (Hrc : recursionCount new_default + 1 <= nestingRecursionLimit)
    by (vm_compute; discriminate).
  split; [|split; [|split]].
  - apply (proj1 (fromBytes_length_refused new_default [xdf; x81; x00] [x00]
                    xdf xff 128 Hid Hrc)).
    reflexivity.
  - apply (proj1 (proj2 (fromBytes_length_refused new_default [xdf; x81; x00] [x00]
                           xdf x85 128 Hid Hrc))).
    vm_compute. split; reflexivity.
  - apply (proj1 (proj2 (proj2 (fromBytes_length_refused new_default
                                  [xdf; x81; x00] [x00] xdf x82 128 Hid Hrc)))).
    + vm_compute. split; [reflexivity|discriminate].
    + vm_compute. reflexivity.
  - apply (proj2 (proj2 (proj2 (fromBytes_length_refused new_default
                                  [xdf; x81; x00] [x00; x00] xdf x80 128 Hid Hrc)))).
    + reflexivity.
    + reflexivity.
Defined.

(** ** What [fromBytes] returns *)

(** A returned element, step by step: the identifier octet, the tag number
    and the cursor past it, and the length and value read from there. *)
Lemma fromBytes_Return_inv (this e : t) (bytes : Uint8Array) (n : Z) :
  fromBytes this bytes = Return (e, n) ->
  exists (id : byte) (rest : Uint8Array) (tn cursor : Z),
    bytes = id :: rest
    /\ 2 <= len bytes
    /\ ((~ longForm id /\ tn = Z.land (toZ id) 0x1F /\ cursor = 1)
        \/ (longForm id /\ decodeLongTagNumber bytes 1 = Return (tn, cursor)))
    /\ decodeLengthAndValue (fromBytes (newChild this))
         (mkElement (recursionCount this) (classOf id) (constructionOf id) tn
            (value this))
         bytes cursor
       = Return (e, n).
Proof.
  rewrite fromBytes_unfold.
  destruct (Z.ltb_spec (len bytes) 2); [discriminate|].
  destruct (recursionCount this + 1 >? nestingRecursionLimit); [discriminate|].
  destruct bytes as [|id rest]; [unfold len in *; cbn [length] in *; lia|].
  unfold fromBytes_body. rewrite at_0_cons, identifier_tagClass, identifier_construction.
  change (0 + 1) with 1.
  destruct (Z.geb_spec (Z.land (toZ id) 31) 31) as [Hge|Hlt].
  - assert (Hlong : longForm id).
    { unfold longForm.
      assert (0 <= Z.land (toZ id) 0x1F < 32).
      { change 0x1F with (Z.ones 5). rewrite Z.land_ones by lia.
        apply Z.mod_pos_bound. lia. }
      lia. }
    destruct (decodeLongTagNumber (id :: rest) 1) as [[tn cursor]| |] eqn:E;
      cbn [bind]; try discriminate.
    intros Hr. exists id, rest, tn, cursor.
    split; [reflexivity|]. split; [assumption|]. split; [right; split; [assumption|reflexivity]|].
    exact Hr.
  - cbn [bind]. intros Hr. exists id, rest, (Z.land (toZ id) 31), 1.
    split; [reflexivity|]. split; [assumption|].
    split; [left; repeat split; unfold longForm; lia|]. exact Hr.
Qed.

Section ValueOfReturn.

Variable child_fromBytes : Uint8Array -> outcome (t * Z).
Hypothesis child_consumes : consumes 2 child_fromBytes.

(** The scan of the children moves the sentinel forward, by two octets at
    least when there is an octet to read. *)
Lemma scanChildren_Return_bounds (rounds : nat) (bytes : Uint8Array)
    (sentinel s : Z) :
  0 <= sentinel <= len bytes ->
  scanChildren child_fromBytes rounds bytes sentinel = Return s ->
  sentinel <= s <= len bytes /\ (sentinel < len bytes -> sentinel + 2 <= s).
Proof.
  revert sentinel. induction rounds as [|rounds IH]; intros sentinel Hs;
    cbn [scanChildren]; [discriminate|].
  destruct (Z.ltb_spec sentinel (len bytes)); [|intros [= <-]; lia].
  destruct (child_consumes (sliceFrom bytes sentinel)) as [_ Hn].
  destruct (child_fromBytes (sliceFrom bytes sentinel)) as [[child n]| |];
    cbn [bind]; try discriminate.
  specialize (Hn child n eq_refl). rewrite len_sliceFrom in Hn by lia.
  destruct (isEndOfContent child); [intros [= <-]; lia|].
  intros Hr. apply IH in Hr; lia.
Qed.

(** The value that [fromBytes] returns is a stretch of the buffer, after the
    length octets and within the octets counted as read. *)
Lemma decodeLengthAndValue_Return_inv (this e : t) (bytes : Uint8Array)
    (cursor n : Z) :
  1 <= cursor < len bytes ->
  decodeLengthAndValue child_fromBytes this bytes cursor = Return (e, n) ->
  exists a b,
    e = set_value this (slice bytes a b)
    /\ cursor + 1 <= a <= b /\ b <= n <= len bytes.
Proof.
  intros Hc. unfold decodeLengthAndValue.
  assert (Hnum : 0 <= Z.land (num (at_ bytes cursor)) 127).
  { apply Z.land_nonneg. right. lia. }
  destruct (Z.eqb_spec (Z.land (num (at_ bytes cursor)) 128) 128) as [Hhigh|_].
  - destruct (negb (Z.land (num (at_ bytes cursor)) 127 =? 0)) eqn:Hk.
    + split_ifs; try discriminate. bool_to_prop.
      intros [= <- <-]. eexists. eexists. split; [reflexivity|]. lia.
    + destruct (negb (ASN1Construction_eqb (construction this) constructed));
        [discriminate|].
      destruct (scanChildren child_fromBytes (S (length bytes)) bytes (cursor + 1))
        as [s| |] eqn:Es; cbn [bind]; try discriminate.
      apply scanChildren_Return_bounds in Es; [|lia].
      destruct (Z.eqb_spec s (len bytes)) as [Hend|Hmore]; cbn [andb].
      * destruct (Z.eq_dec s (cursor + 1)) as [Hnone|Hsome].
        -- replace (s - 1) with cursor by lia.
           assert (Hz : strictEq (at_ bytes cursor) 0 = false).
           { destruct (at_ bytes cursor) as [d|]; [|reflexivity].
             cbn [strictEq num] in *. apply Z.eqb_neq. intros E.
             rewrite E in Hhigh. discriminate. }
           rewrite Hz. discriminate.
        -- destruct (_ || _); [discriminate|].
           intros [= <- <-]. eexists. eexists. split; [reflexivity|]. lia.
      * intros [= <- <-]. eexists. eexists. split; [reflexivity|]. lia.
  - split_ifs; try discriminate. bool_to_prop.
    intros [= <- <-]. eexists. eexists. split; [reflexivity|]. lia.
Qed.

End ValueOfReturn.

(** X5: the frame of a returned element.  Whenever [fromBytes] returns, the
    count of octets read is at least 2 and at most the length of the buffer;
    the value of the element is a stretch of the buffer that starts after
    the identifier and length octets and ends within the octets read; and
    the recursion count of the element is what it was. *)
Theorem fromBytes_frame (this e : t) (bytes : Uint8Array) (n : Z) :
  fromBytes this bytes = Return (e, n) ->
  2 <= n <= len bytes
  /\ recursionCount e = recursionCount this
  /\ exists a b, value e = slice bytes a b /\ 2 <= a <= b /\ b <= n.
Proof.
  intros Hr. split; [exact (fromBytes_consumed this e bytes n Hr)|].
  apply fromBytes_Return_inv in Hr.
  destruct Hr as (id & rest & tn & cursor & -> & Hlen & Htag & Hr).
  assert (Hc : 1 <= cursor < len (id :: rest)).
  { destruct Htag as [(_ & _ & ->)|(_ & Hl)]; [lia|].
    apply decodeLongTagNumber_bounds in Hl; [lia|assumption]. }
  apply decodeLengthAndValue_Return_inv in Hr;
    [|intros b; apply fromBytes_at_consumes|assumption].
  destruct Hr as (a & b & -> & Hab & Hbn).
  split; [reflexivity|]. exists a, b. split; [reflexivity|]. lia.
Qed.

Lemma fromBytes_frame_witness :
  exists e n,
    fromBytes new_default [x24; x80; x04; x01; xaa; x00; x00; xff] = Return (e, n)
    /\ 2 <= n <= 8
    /\ recursionCount e = 0
    /\ exists a b,
         value e = slice [x24; x80; x04; x01; xaa; x00; x00; xff] a b
         /\ 2 <= a <= b /\ b <= n.
Proof.
  exists (mkElement 0 universal constructed 4 [x04; x01; xaa]), 7.
  assert (Hr : fromBytes new_default [x24; x80; x04; x01; xaa; x00; x00; xff]
               = Return (mkElement 0 universal constructed 4 [x04; x01; xaa], 7))
    by reflexivity.
  split; [exact Hr|].
  exact (fromBytes_frame new_default _ _ _ Hr).
Defined.

(** X6: the tag of a returned element.  Whenever [fromBytes] returns, the tag
    class and the construction are those of the first octet of the buffer;
    the tag number is the low five bits of that octet when they are not all
    set, and otherwise a number from 32 to [2 ^ 21 - 1]: [fromBytes] returns
    no element of tag number 31, and none of a tag number from [2 ^ 21] on. *)
Theorem fromBytes_tag (this e : t) (bytes : Uint8Array) (n : Z) :
  fromBytes this bytes = Return (e, n) ->
  exists (id : byte) (rest : Uint8Array),
    bytes = id :: rest
    /\ tagClass e = classOf id
    /\ construction e = constructionOf id
    /\ (~ longForm id -> tagNumber e = Z.land (toZ id) 0x1F /\ 0 <= tagNumber e < 31)
    /\ (longForm id -> 31 < tagNumber e < 2 ^ 21).
Proof.
  intros Hr. apply fromBytes_Return_inv in Hr.
  destruct Hr as (id & rest & tn & cursor & -> & Hlen & Htag & Hr).
  exists id, rest. split; [reflexivity|].
  assert (Hc : 1 <= cursor < len (id :: rest)).
  { destruct Htag as [(_ & _ & ->)|(_ & Hl)]; [lia|].
    apply decodeLongTagNumber_bounds in Hl; [lia|assumption]. }
  apply decodeLengthAndValue_Return_inv in Hr;
    [|intros b; apply fromBytes_at_consumes|assumption].
  destruct Hr as (a & b & -> & _).
  cbn [set_value tagClass construction tagNumber].
  split; [reflexivity|]. split; [reflexivity|].
  destruct Htag as [(Hshort & -> & _)|(Hlong & Hl)].
  - split; [|contradiction]. intros _. split; [reflexivity|].
    assert (0 <= Z.land (toZ id) 0x1F < 32).
    { change 0x1F with (Z.ones 5). rewrite Z.land_ones by lia.
      apply Z.mod_pos_bound. lia. }
    unfold longForm in Hshort. lia.
  - split; [contradiction|]. intros _.
    apply decodeLongTagNumber_bounds in Hl; [lia|assumption].
Qed.

Lemma fromBytes_tag_witness :
  exists e n,
    fromBytes new_default [xbf; x81; x00; x02; x05; x00] = Return (e, n)
    /\ tagClass e = context /\ construction e = constructed
    /\ 31 < tagNumber e < 2 ^ 21.
Proof.
  exists (mkElement 0 context constructed 128 [x05; x00]), 6.
  assert (Hr : fromBytes new_default [xbf; x81; x00; x02; x05; x00]
               = Return (mkElement 0 context constructed 128 [x05; x00], 6))
    by reflexivity.
  split; [exact Hr|].
  destruct (fromBytes_tag new_default _ _ _ Hr) as (id & rest & E & Hc & Hk & _ & Hl).
  injection E as <- <-.
  split; [exact Hc|]. split; [exact Hk|]. apply Hl. reflexivity.
Defined.

(** ** Elements one after the other *)

Lemma tagBytes_nonempty (e : t) : tagBytes e <> [].
Proof. unfold tagBytes. cbv zeta. destruct (_ <? _); discriminate. Qed.

(** An encoding has an identifier octet and a length octet at least. *)
Lemma len_toBytes (preference : LengthEncodingPreference) (e : t) :
  2 <= len (toBytes preference e).
Proof.
  unfold toBytes. rewrite !len_app, !len_map.
  pose proof (tagBytes_nonempty e) as Ht.
  pose proof (lengthOctets_nonempty preference e) as Hl.
  destruct (tagBytes e) as [|x tb]; [contradiction|].
  destruct (lengthOctets preference e) as [|y lo]; [contradiction|].
  rewrite !len_cons.
  pose proof (len_nonneg tb). pose proof (len_nonneg lo).
  pose proof (len_nonneg (value e)).
  pose proof (len_nonneg match preference with definite => [] | indefinite => [x00; x00] end).
  lia.
Qed.

Lemma length_concat_toBytes (preference : LengthEncodingPreference) (es : list t) :
  (length es <= length (concat (map (toBytes preference) es)))%nat.
Proof.
  induction es as [|e es IH]; cbn [map concat length]; [lia|].
  rewrite length_app. pose proof (len_toBytes preference e) as H.
  unfold len in H. lia.
Qed.

Lemma fromBytes_toBytes_decodedAt (this e : t) (more : Uint8Array) :
  recursionCount this + 1 <= nestingRecursionLimit ->
  readsBack e ->
  fromBytes this (toBytes definite e ++ more)
  = Return (decodedAt (recursionCount this) e, len (toBytes definite e)).
Proof.
  intros Hrc [Htag Hlen]. apply fromBytes_toBytes_app; assumption.
Qed.

(** The loop of the [sequence] getter over encodings one after the other. *)
Lemma decodeElements_concat (rounds : nat) (pre : Uint8Array) (es : list t) :
  Forall readsBack es ->
  (length es < rounds)%nat ->
  decodeElements rounds (pre ++ concat (map (toBytes definite) es)) (len pre)
  = Return (map (decodedAt initialRecursionCount) es).
Proof.
  intros Hes. revert pre rounds.
  induction Hes as [|e es He _ IH]; intros pre rounds Hr;
    (destruct rounds as [|rounds]; [cbn [length] in Hr; lia|]);
    cbn [decodeElements map concat].
  - rewrite app_nil_r. destruct (Z.ltb_spec (len pre) (len pre)); [lia|reflexivity].
  - pose proof (len_toBytes definite e) as H2.
    pose proof (len_nonneg (concat (map (toBytes definite) es))).
    destruct (Z.ltb_spec (len pre)
                (len (pre ++ toBytes definite e ++ concat (map (toBytes definite) es))))
      as [_|Hge]; [|rewrite !len_app in Hge; lia].
    rewrite sliceFrom_app.
    rewrite fromBytes_toBytes_decodedAt by (try assumption; vm_compute; discriminate).
    cbn [bind].
    specialize (IH (pre ++ toBytes definite e) rounds).
    rewrite len_app, <- app_assoc in IH.
    rewrite IH by (cbn [length] in Hr; lia).
    reflexivity.
Qed.

(** The [sequence] getter on encodings one after the other. *)
Lemma sequence_of_encodings (this : t) (elements : list t) :
  construction this = constructed ->
  value this = concat (map (toBytes definite) elements) ->
  Forall readsBack elements ->
  sequence this = Return (map (decodedAt initialRecursionCount) elements).
Proof.
  intros Hk Hv Hes.
  unfold sequence. rewrite Hk, Hv.
  cbn [ASN1Construction_eqb constructionCode Z.eqb negb].
  destruct (Z.eqb_spec (len (concat (map (toBytes definite) elements))) 0) as [E|_].
  - destruct elements as [|e es]; [reflexivity|].
    cbn [map concat] in E. rewrite len_app in E.
    pose proof (len_toBytes definite e).
    pose proof (len_nonneg (concat (map (toBytes definite) es))). lia.
  - apply (decodeElements_concat _ []); [assumption|].
    pose proof (length_concat_toBytes definite elements). lia.
Qed.

(** X7: the [sequence] setter and getter, under the definite preference.  For
    elements whose tag number is at most 30 or from 32 to [2 ^ 21 - 1] and
    whose values are shorter than 65536 octets, the getter returns, after the
    setter, as many elements in the same order, each with the tag class, the
    construction, the tag number and the value of the one given; the element
    itself is constructed and keeps its tag. *)
Theorem sequence_set_sequence (this : t) (elements : list t) :
  Forall readsBack elements ->
  sequence (set_sequence definite this elements)
  = Return (map (decodedAt initialRecursionCount) elements)
  /\ construction (set_sequence definite this elements) = constructed
  /\ tagClass (set_sequence definite this elements) = tagClass this
  /\ tagNumber (set_sequence definite this elements) = tagNumber this.
Proof.
  intros Hes. split; [|repeat split].
  apply sequence_of_encodings; [reflexivity|reflexivity|assumption].
Qed.

Lemma sequence_set_sequence_witness :
  sequence
    (set_sequence definite (new universal primitive 16)
       [set_boolean (new universal primitive 1) true;
        mkElement 3 context constructed 1000 [x05; x00]])
  = Return [mkElement 0 universal primitive 1 [xff];
            mkElement 0 context constructed 1000 [x05; x00]].
Proof.
  refine (proj1 (sequence_set_sequence (new universal primitive 16)
                   [set_boolean (new universal primitive 1) true;
                    mkElement 3 context constructed 1000 [x05; x00]] _)).
  repeat constructor; cbn [tagNumber set_boolean set_value new]; try lia;
    vm_compute; reflexivity.
Defined.

(** ** Indefinite lengths *)

(** The end-of-contents marker [00 00], as the scan of the children reads
    it. *)
Lemma fromBytes_endOfContent (this : t) (more : Uint8Array) :
  recursionCount this + 1 <= nestingRecursionLimit ->
  fromBytes this (x00 :: x00 :: more)
  = Return (mkElement (recursionCount this) universal primitive 0 [], 2).
Proof.
  intros Hrc.
  assert (Hid : identifierOctets [x00] x00 0).
  { left. split; [intros H; vm_compute in H; discriminate|]. split; reflexivity. }
  change (x00 :: x00 :: more) with ([x00] ++ x00 :: more).
  rewrite (fromBytes_identifier this [x00] _ x00 0) by (try assumption; discriminate).
  rewrite decodeLengthAndValue_shortForm by (vm_compute; reflexivity).
  change (toZ x00) with 0. pose proof (len_nonneg more).
  destruct (Z.gtb_spec 0 (len more)); [lia|]. reflexivity.
Qed.

(** The scan of the children over encodings one after the other, none of
    them an end-of-contents marker, and then the marker. *)
Lemma scanChildren_children (this : t) (rounds : nat) (pre more : Uint8Array)
    (children : list t) :
  recursionCount this + 1 <= nestingRecursionLimit ->
  Forall readsBack children ->
  Forall (fun c => isEndOfContent c = false) children ->
  (length children < rounds)%nat ->
  scanChildren (fromBytes this) rounds
    (pre ++ concat (map (toBytes definite) children) ++ [x00; x00] ++ more)
    (len pre)
  = Return (len pre + len (concat (map (toBytes definite) children)) + 2).
Proof.
  intros Hrc Hcs. revert pre rounds.
  induction Hcs as [|c cs Hc _ IH]; intros pre rounds Hne Hr;
    (destruct rounds as [|rounds]; [cbn [length] in Hr; lia|]);
    cbn [scanChildren map concat]; pose proof (len_nonneg more).
  - cbn [app]. rewrite len_app, !len_cons.
    destruct (Z.ltb_spec (len pre) (len pre + (len more + 1 + 1))); [|lia].
    change (pre ++ x00 :: x00 :: more) with (pre ++ [x00; x00] ++ more).
    rewrite sliceFrom_app. cbn [app].
    rewrite fromBytes_endOfContent by assumption. cbn [bind].
    change (isEndOfContent (mkElement (recursionCount this) universal primitive 0 []))
      with true.
    cbn iota. rewrite len_nil. f_equal. lia.
  - pose proof (len_toBytes definite c) as H2.
    pose proof (len_nonneg (concat (map (toBytes definite) cs))).
    rewrite <- app_assoc.
    destruct (Z.ltb_spec (len pre)
                (len (pre ++ toBytes definite c
                      ++ concat (map (toBytes definite) cs) ++ [x00; x00] ++ more)))
      as [_|Hge]; [|rewrite !len_app, !len_cons, len_nil in Hge; lia].
    rewrite sliceFrom_app.
    rewrite fromBytes_toBytes_decodedAt by assumption.
    cbn [bind].
    change (isEndOfContent (decodedAt (recursionCount this) c))
      with (isEndOfContent c).
    rewrite (Forall_inv Hne).
    specialize (IH (pre ++ toBytes definite c) rounds (Forall_inv_tail Hne)).
    rewrite len_app, <- app_assoc in IH.
    rewrite IH by (cbn [length] in Hr; lia).
    rewrite len_app. f_equal. lia.
Qed.

(** An indefinite length over encodings one after the other and the marker. *)
Lemma fromBytes_indefinite_children (this : t) (pre more : Uint8Array) (id : byte)
    (n : Z) (children : list t) :
  identifierOctets pre id n ->
  constructionOf id = constructed ->
  recursionCount this + 2 <= nestingRecursionLimit ->
  Forall readsBack children ->
  Forall (fun c => isEndOfContent c = false) children ->
  fromBytes this
    (pre ++ x80 :: concat (map (toBytes definite) children) ++ [x00; x00] ++ more)
  = Return (mkElement (recursionCount this) (classOf id) constructed n
              (concat (map (toBytes definite) children)),
            len pre + 1 + len (concat (map (toBytes definite) children)) + 2).
Proof.
  intros Hid Hk Hrc Hcs Hne.
  set (contents := concat (map (toBytes definite) children)).
  rewrite (fromBytes_identifier this pre _ id n) by (try assumption; try lia; discriminate).
  unfold decodeLengthAndValue. rewrite at_app_here. cbn [num].
  change (Z.land (toZ x80) 128 =? 128) with true.
  change (negb (Z.land (toZ x80) 127 =? 0)) with false. cbn iota.
  rewrite Hk. cbn [construction ASN1Construction_eqb constructionCode Z.eqb negb].
  change (pre ++ x80 :: contents ++ [x00; x00] ++ more)
    with (pre ++ [x80] ++ contents ++ [x00; x00] ++ more).
  rewrite (app_assoc pre [x80]).
  assert (Hpre : len pre + 1 = len (pre ++ [x80]))
    by (rewrite len_app, len_cons, len_nil; lia).
  rewrite Hpre. subst contents.
  rewrite scanChildren_children; try assumption.
  - cbn [bind].
    set (contents := concat (map (toBytes definite) children)).
    set (hdr := pre ++ [x80]).
    pose proof (len_nonneg hdr). pose proof (len_nonneg contents).
    pose proof (len_nonneg more).
    assert (Hlast : at_ (hdr ++ contents ++ [x00; x00] ++ more)
                   (len hdr + len contents + 2 - 1) = Some x00).
    { rewrite (app_assoc hdr contents).
      replace (len hdr + len contents + 2 - 1) with (len (hdr ++ contents) + 1)
        by (rewrite len_app; lia).
      rewrite at_app_r by lia. reflexivity. }
    assert (Hprev : at_ (hdr ++ contents ++ [x00; x00] ++ more)
                   (len hdr + len contents + 2 - 2) = Some x00).
    { rewrite (app_assoc hdr contents).
      replace (len hdr + len contents + 2 - 2) with (len (hdr ++ contents) + 0)
        by (rewrite len_app; lia).
      rewrite at_app_r by lia. reflexivity. }
    rewrite Hlast, Hprev. cbn [strictEq]. change (toZ x00 =? 0) with true.
    cbn [negb orb]. rewrite andb_false_r.
    replace (len hdr + len contents + 2 - 2) with (len hdr + len contents) by lia.
    rewrite slice_app_mid. reflexivity.
  - change (recursionCount (newChild this)) with (recursionCount this + 1). lia.
  - pose proof (length_concat_toBytes definite children).
    rewrite !length_app. lia.
Qed.

(** X8: an indefinite length, as [fromBytes] reads it past accepted
    identifier octets of constructed form: when the contents are encodings
    one after the other, in definite form and none of them of an element
    that passes for an end-of-contents marker, and the marker [00 00]
    follows them, the value is the contents without the marker, and the
    count returned includes the marker; the octets after the marker are left
    alone.  The children are decoded one level deeper, which the nesting
    limit has to allow. *)
Theorem fromBytes_indefinite_length (this : t) (pre more : Uint8Array) (id : byte)
    (n : Z) (children : list t) :
  identifierOctets pre id n ->
  constructionOf id = constructed ->
  recursionCount this + 2 <= nestingRecursionLimit ->
  Forall readsBack children ->
  Forall (fun c => isEndOfContent c = false) children ->
  fromBytes this
    (pre ++ x80 :: concat (map (toBytes definite) children) ++ [x00; x00] ++ more)
  = Return (mkElement (recursionCount this) (classOf id) constructed n
              (concat (map (toBytes definite) children)),
            len pre + 1 + len (concat (map (toBytes definite) children)) + 2).
Proof. apply fromBytes_indefinite_children. Qed.

Lemma fromBytes_indefinite_length_witness :
  fromBytes new_default [x30; x80; x01; x01; xff; x05; x00; x00; x00; xaa]
  = Return (mkElement 0 universal constructed 16 [x01; x01; xff; x05; x00], 9).
Proof.
  assert (Hid : identifierOctets [x30] x30 16).
  { left. split; [intros H; vm_compute in H; discriminate|]. split; reflexivity. }
  refine (fromBytes_indefinite_length new_default [x30] [xaa] x30 16
            [set_boolean (new universal primitive 1) true; new universal primitive 5]
            Hid eq_refl _ _ _).
  - vm_compute. discriminate.
  - repeat constructor; cbn [tagNumber set_boolean set_value new]; try lia;
      vm_compute; reflexivity.
  - repeat constructor.
Defined.

Lemma sliceFrom_zero {A} (l : list A) : sliceFrom l 0 = l.
Proof. exact (sliceFrom_app [] l). Qed.

(** X9: under the indefinite length preference, [toBytes] gives every element
    the length octet [80], primitive ones too, and [fromBytes] refuses that
    octet on a primitive element; so no primitive element is read back, and
    the [sequence] getter throws after the setter as soon as the first
    element given is primitive. *)
Theorem toBytes_indefinite_primitive_refused (this e : t) :
  construction e = primitive ->
  0 <= tagNumber e < 31 \/ 31 < tagNumber e < 2 ^ 21 ->
  (forall more : Uint8Array,
      recursionCount this + 1 <= nestingRecursionLimit ->
      fromBytes this (toBytes indefinite e ++ more) = Throw ASN1ConstructionError)
  /\ (forall elements : list t,
         sequence (set_sequence indefinite this (e :: elements))
         = Throw ASN1ConstructionError).
Proof.
  intros Hp Htag.
  assert (Hfrom : forall (that : t) (more : Uint8Array),
             recursionCount that + 1 <= nestingRecursionLimit ->
             fromBytes that (toBytes indefinite e ++ more)
             = Throw ASN1ConstructionError).
  { intros that more Hrc.
    destruct (tagBytes_identifierOctets e Htag) as (id & Hid & _ & Hk).
    unfold toBytes. cbn [lengthOctets map]. change (ToUint8 128) with x80.
    rewrite <- !app_assoc. cbn [app].
    rewrite (fromBytes_identifier that _ _ id (tagNumber e))
      by (try assumption; discriminate).
    apply decodeLengthAndValue_refused; [reflexivity|].
    cbn [construction]. congruence. }
  split; [intros more; apply Hfrom|].
  intros elements. unfold sequence.
  cbn [set_sequence set_construction set_value construction value map concat].
  cbn [ASN1Construction_eqb constructionCode Z.eqb negb].
  pose proof (len_toBytes indefinite e).
  pose proof (len_nonneg (concat (map (toBytes indefinite) elements))).
  destruct (Z.eqb_spec
              (len (toBytes indefinite e ++ concat (map (toBytes indefinite) elements)))
              0) as [E|_]; [rewrite len_app in E; lia|].
  cbn [decodeElements].
  destruct (Z.ltb_spec 0
              (len (toBytes indefinite e ++ concat (map (toBytes indefinite) elements))))
    as [_|Hge]; [|rewrite len_app in Hge; lia].
  rewrite sliceFrom_zero.
  rewrite Hfrom by (vm_compute; discriminate). reflexivity.
Qed.

Lemma toBytes_indefinite_primitive_refused_witness :
  fromBytes new_default
    (toBytes indefinite (set_boolean (new universal primitive 1) true) ++ [])
  = Throw ASN1ConstructionError
  /\ sequence
       (set_sequence indefinite (new universal constructed 16)
          [set_boolean (new universal primitive 1) true])
     = Throw ASN1ConstructionError.
Proof.
  assert (Htag : 0 <= tagNumber (set_boolean (new universal primitive 1) true) < 31
                 \/ 31 < tagNumber (set_boolean (new universal primitive 1) true)
                    < 2 ^ 21)
    by (left; cbn [tagNumber set_boolean set_value new]; lia).
  split.
  - apply (proj1 (toBytes_indefinite_primitive_refused new_default
                    (set_boolean (new universal primitive 1) true) eq_refl Htag)).
    vm_compute. discriminate.
  - apply (proj2 (toBytes_indefinite_primitive_refused
                    (new universal constructed 16)
                    (set_boolean (new universal primitive 1) true) eq_refl Htag)).
Defined.

(** ** Strings in pieces *)

Lemma deconstruct_primitive (this : t) :
  construction this = primitive -> deconstruct this = Return (value this).
Proof. intros H. rewrite deconstruct_unfold, H. reflexivity. Qed.

(** [deconstruct] on primitive pieces of the tag of the element, encoded one
    after the other. *)
Lemma deconstruct_pieces (this : t) (pieces : list Uint8Array) :
  construction this = constructed ->
  value this
  = concat
      (map (toBytes definite)
         (map (set_octetString (new (tagClass this) primitive (tagNumber this)))
            pieces)) ->
  0 <= tagNumber this < 31 \/ 31 < tagNumber this < 2 ^ 21 ->
  recursionCount this + 1 <= nestingRecursionLimit ->
  Forall (fun piece => len piece < 65536) pieces ->
  deconstruct this = Return (concat pieces).
Proof.
  intros Hk Hv Htag Hrc Hpieces.
  set (elements :=
         map (set_octetString (new (tagClass this) primitive (tagNumber this))) pieces)
    in *.
  assert (Hes : Forall readsBack elements).
  { subst elements. apply Forall_map.
    refine (Forall_impl _ _ Hpieces). intros piece Hlen. split; assumption. }
  pose proof (sequence_of_encodings this elements Hk Hv Hes) as Hseq.
  rewrite deconstruct_unfold, Hk, Hseq.
  destruct (Z.gtb_spec (recursionCount this + 1) nestingRecursionLimit); [lia|].
  cbn [bind].
  rewrite (forEach_Return _ _ pieces); [reflexivity|].
  subst elements. clear. induction pieces as [|piece pieces IH]; constructor.
  - rewrite checkSubstring_sameTag by (split; reflexivity).
    cbn [bind]. apply deconstruct_primitive. reflexivity.
  - exact IH.
Qed.

(** X10: an OCTET STRING put together by hand.  When the [sequence] setter is
    given primitive elements of the tag of the element, holding pieces of
    less than 65536 octets, the [octetString] getter returns the pieces one
    after the other. *)
Theorem octetString_of_pieces (this : t) (pieces : list Uint8Array) :
  0 <= tagNumber this < 31 \/ 31 < tagNumber this < 2 ^ 21 ->
  recursionCount this + 1 <= nestingRecursionLimit ->
  Forall (fun piece => len piece < 65536) pieces ->
  octetString
    (set_sequence definite this
       (map (set_octetString (new (tagClass this) primitive (tagNumber this)))
          pieces))
  = Return (concat pieces).
Proof.
  intros Htag Hrc Hpieces.
  apply deconstruct_pieces; try assumption; reflexivity.
Qed.

Lemma octetString_of_pieces_witness :
  octetString
    (set_sequence definite (new universal primitive 4)
       (map (set_octetString (new universal primitive 4)) [[xaa; xbb]; []; [xcc]]))
  = Return [xaa; xbb; xcc].
Proof.
  refine (octetString_of_pieces (new universal primitive 4) [[xaa; xbb]; []; [xcc]]
            _ _ _).
  - left. cbn [tagNumber new]. lia.
  - vm_compute. discriminate.
  - repeat constructor.
Defined.

(** ** BIT STRING, written and read *)

Lemma nth_orAt (pre : list Z) (k k' : nat) (m : Z) :
  nth k' (orAt pre k m) 0
  = if Nat.eqb k' k then Z.lor (nth k pre 0) m else nth k' pre 0.
Proof.
  revert pre k'. induction k as [|k IH]; intros pre k'.
  - destruct pre as [|x pre], k' as [|k']; cbn [orAt nth Nat.eqb]; try reflexivity.
    destruct k'; reflexivity.
  - destruct pre as [|x pre], k' as [|k']; cbn [orAt nth Nat.eqb]; try reflexivity.
    + rewrite IH. destruct (Nat.eqb k' k); [destruct k; reflexivity|destruct k'; reflexivity].
    + apply IH.
Qed.

Lemma length_orAt (pre : list Z) (k : nat) (m : Z) :
  (k < length pre)%nat -> length (orAt pre k m) = length pre.
Proof.
  revert pre. induction k as [|k IH]; intros [|x pre] Hk; cbn [length] in *;
    try lia; cbn [orAt length]; [reflexivity|].
  rewrite IH by lia. reflexivity.
Qed.

Lemma ushr_0x80 (j : Z) : 0 <= j < 8 -> ushr 0x80 j = 2 ^ (7 - j).
Proof.
  intros H.
  assert (Hc : j = 0 \/ j = 1 \/ j = 2 \/ j = 3 \/ j = 4 \/ j = 5 \/ j = 6 \/ j = 7) by lia.
  destruct Hc as [-> | [-> | [-> | [-> | [-> | [-> | [-> | ->]]]]]]]; reflexivity.
Qed.

Lemma bitAt_orAt (pre : list Z) (i i' : Z) :
  0 <= i < 2 ^ 32 -> 0 <= i' ->
  bitAt (orAt pre (Z.to_nat (ushr i 3 + 1)) (ushr 0x80 (i mod 8))) i'
  = bitAt pre i' || (i' =? i).
Proof.
  intros Hi Hi'. unfold bitAt.
  rewrite ushr_small by lia. change (2 ^ 3) with 8.
  pose proof (Z.mod_pos_bound i 8). pose proof (Z.mod_pos_bound i' 8).
  rewrite ushr_0x80 by lia. rewrite nth_orAt.
  destruct (Nat.eqb_spec (Z.to_nat (i' / 8 + 1)) (Z.to_nat (i / 8 + 1))) as [E|E].
  - assert (Hq : i' / 8 = i / 8) by (Z.to_euclidean_division_equations; lia).
    rewrite Z.lor_spec, Z.pow2_bits_eqb by lia. rewrite E. f_equal.
    destruct (Z.eqb_spec (7 - i mod 8) (7 - i' mod 8)), (Z.eqb_spec i' i);
      try reflexivity; exfalso; Z.to_euclidean_division_equations; lia.
  - destruct (Z.eqb_spec i' i) as [->|_]; [contradiction|].
    rewrite orb_false_r. reflexivity.
Qed.

(** The loop of the setter sets the bits of the string, and no other. *)
Lemma bitAt_setBits (value : list bool) (i0 i' : Z) (pre : list Z) :
  0 <= i0 -> i0 + len value <= 2 ^ 32 -> 0 <= i' ->
  bitAt (setBits value i0 pre) i'
  = bitAt pre i'
    || ((i0 <=? i') && (i' <? i0 + len value)
        && nth (Z.to_nat (i' - i0)) value false).
Proof.
  revert i0 pre. induction value as [|b value IH]; intros i0 pre H0 Hn Hi';
    cbn [setBits].
  - rewrite len_nil. destruct (Z.leb_spec i0 i'), (Z.ltb_spec i' (i0 + 0));
      cbn [andb]; try lia; rewrite orb_false_r; reflexivity.
  - rewrite len_cons in *. pose proof (len_nonneg value).
    rewrite IH by lia.
    assert (Hpre : bitAt (if b then orAt pre (Z.to_nat (ushr i0 3 + 1))
                                      (ushr 128 (i0 mod 8)) else pre) i'
                   = bitAt pre i' || ((i' =? i0) && b)).
    { destruct b; [rewrite bitAt_orAt by lia; rewrite andb_true_r; reflexivity|].
      rewrite andb_false_r, orb_false_r. reflexivity. }
    rewrite Hpre, <- orb_assoc. f_equal.
    destruct (Z.eqb_spec i' i0) as [->|Hne].
    + replace (i0 - i0) with 0 by lia. cbn [Z.to_nat nth].
      destruct (Z.leb_spec (i0 + 1) i0); [lia|].
      destruct (Z.leb_spec i0 i0); [|lia].
      destruct (Z.ltb_spec i0 (i0 + (len value + 1))); [|lia].
      cbn [andb]. rewrite orb_false_r. reflexivity.
    + cbn [andb orb].
      destruct (Z.leb_spec (i0 + 1) i'), (Z.leb_spec i0 i'); cbn [andb];
        try lia; try reflexivity.
      replace (i0 + 1 + len value) with (i0 + (len value + 1)) by lia.
      destruct (Z.ltb_spec i' (i0 + (len value + 1))); cbn [andb]; [|reflexivity].
      replace (Z.to_nat (i' - i0)) with (S (Z.to_nat (i' - (i0 + 1)))) by lia.
      reflexivity.
Qed.

Lemma length_setBits (value : list bool) (i0 : Z) (pre : list Z) :
  0 <= i0 -> i0 + len value <= 2 ^ 32 ->
  i0 + len value <= 8 * (len pre - 1) ->
  length (setBits value i0 pre) = length pre.
Proof.
  revert i0 pre. induction value as [|b value IH]; intros i0 pre H0 Hn Hpre;
    cbn [setBits]; [reflexivity|].
  rewrite len_cons in *. pose proof (len_nonneg value).
  assert (Hlen : length (if b then orAt pre (Z.to_nat (ushr i0 3 + 1))
                                     (ushr 128 (i0 mod 8)) else pre)
                 = length pre).
  { destruct b; [|reflexivity]. apply length_orAt.
    rewrite ushr_small by lia. change (2 ^ 3) with 8. unfold len in Hpre.
    Z.to_euclidean_division_equations. lia. }
  rewrite IH; [exact Hlen|lia|lia|]. unfold len in *. rewrite Hlen. lia.
Qed.

Lemma toZ_ToUint8_mod (z : Z) : toZ (ToUint8 z) = z mod 256.
Proof.
  rewrite <- (toZ_ToUint8 (z mod 256)) by (apply Z.mod_pos_bound; lia).
  unfold ToUint8. rewrite Z.mod_mod by lia. reflexivity.
Qed.

Lemma land_pow2_testbit (a p : Z) :
  0 <= p -> negb (Z.land a (2 ^ p) =? 0) = Z.testbit a p.
Proof.
  intros Hp.
  assert (H : Z.land a (2 ^ p) = if Z.testbit a p then 2 ^ p else 0).
  { apply Z.bits_inj'. intros q Hq. rewrite Z.land_spec, Z.pow2_bits_eqb by lia.
    destruct (Z.eqb_spec p q) as [->|Hne].
    - rewrite andb_true_r. destruct (Z.testbit a q) eqn:E.
      + rewrite Z.pow2_bits_eqb, Z.eqb_refl by lia. reflexivity.
      + rewrite Z.bits_0. reflexivity.
    - rewrite andb_false_r. destruct (Z.testbit a p).
      + rewrite Z.pow2_bits_eqb by lia. symmetry. apply Z.eqb_neq. exact Hne.
      + rewrite Z.bits_0. reflexivity. }
  rewrite H. destruct (Z.testbit a p); [|reflexivity].
  assert (0 < 2 ^ p) by (apply Z.pow_pos_nonneg; lia).
  destruct (Z.eqb_spec (2 ^ p) 0); [lia|reflexivity].
Qed.

(** The eight booleans of a stored octet are the low eight bits of the number
    stored. *)
Lemma nth_bitsOfOctet (x : Z) (j : nat) :
  (j < 8)%nat ->
  nth j (bitsOfOctet (ToUint8 x)) false = Z.testbit x (7 - Z.of_nat j).
Proof.
  intros Hj. unfold bitsOfOctet. rewrite toZ_ToUint8_mod.
  change 256 with (2 ^ 8).
  do 8 (destruct j as [|j];
        [cbn [map nth];
         match goal with
         | |- negb (Z.land _ ?m =? 0) = Z.testbit _ ?p =>
             let q := eval vm_compute in p in
             change m with (2 ^ q); change p with q
         end;
         rewrite land_pow2_testbit by lia;
         apply Z.mod_pow2_bits_low; lia|]).
  lia.
Qed.

Lemma length_bitsOfOctet (b : byte) : length (bitsOfOctet b) = 8%nat.
Proof. reflexivity. Qed.

Lemma length_flat_map_bitsOfOctet (l : Uint8Array) :
  length (flat_map bitsOfOctet l) = (8 * length l)%nat.
Proof.
  induction l as [|b l IH]; [reflexivity|].
  cbn [flat_map]. rewrite length_app, length_bitsOfOctet, IH. cbn [length]. lia.
Qed.

Lemma nth_flat_map_bitsOfOctet (l : Uint8Array) (k j : nat) :
  (j < 8)%nat -> (k < length l)%nat ->
  nth (8 * k + j) (flat_map bitsOfOctet l) false
  = nth j (bitsOfOctet (nth k l x00)) false.
Proof.
  intros Hj. revert k. induction l as [|b l IH]; intros k Hk;
    [cbn [length] in Hk; lia|].
  cbn [flat_map]. destruct k as [|k].
  - rewrite app_nth1 by (rewrite length_bitsOfOctet; lia).
    replace (8 * 0 + j)%nat with j by lia. reflexivity.
  - rewrite app_nth2 by (rewrite length_bitsOfOctet; lia).
    rewrite length_bitsOfOctet.
    replace (8 * S k + j - 8)%nat with (8 * k + j)%nat by lia.
    cbn [nth length] in *. apply IH. lia.
Qed.

Lemma bitAt_zeros (count : nat) (i : Z) : bitAt (repeat 0 count) i = false.
Proof.
  unfold bitAt.
  assert (H : forall k, nth k (repeat 0 count) 0 = 0).
  { intros k. destruct (Nat.lt_ge_cases k count).
    - apply nth_repeat_lt. assumption.
    - apply nth_overflow. rewrite repeat_length. assumption. }
  rewrite H. apply Z.bits_0.
Qed.

Lemma nth_tl {A} (l : list A) (k : nat) (d : A) : nth k (tl l) d = nth (S k) l d.
Proof. destruct l; [destruct k; reflexivity|reflexivity]. Qed.

(** The octets that the setter stores: the count of unused bits, and then
    octets whose bits, read as the getter reads them, begin with the bits
    given. *)
Lemma value_set_bitString (this : t) (bits : list bool) :
  len bits < 2 ^ 32 ->
  exists (unused : byte) (payload : Uint8Array),
    value (set_bitString this bits) = unused :: payload
    /\ 0 <= toZ unused <= 7
    /\ 8 * len payload - toZ unused = len bits
    /\ firstn (length bits) (flat_map bitsOfOctet payload) = bits.
Proof.
  intros Hn. pose proof (len_nonneg bits) as Hn0.
  unfold set_bitString. cbv zeta. cbn [set_value value map].
  rewrite ushr_small by lia. change (2 ^ 3) with 8.
  set (n := len bits) in *.
  set (m := n / 8 + (if negb (n mod 8 =? 0) then 1 else 0)).
  set (P := setBits bits 0 (repeat 0 (Z.to_nat (m + 1)))).
  set (pre0 := if 8 - n mod 8 =? 8 then 0 else 8 - n mod 8).
  pose proof (Z.mod_pos_bound n 8) as Hmod.
  assert (Hm : 0 <= m /\ 8 * m - pre0 = n /\ 0 <= pre0 <= 7).
  { subst m pre0. destruct (Z.eqb_spec (n mod 8) 0), (Z.eqb_spec (8 - n mod 8) 8);
      cbn [negb]; Z.to_euclidean_division_equations; lia. }
  assert (HP : length P = Z.to_nat (m + 1)).
  { subst P. rewrite length_setBits; [apply repeat_length|lia|fold n; lia|].
    fold n. unfold len. rewrite repeat_length. lia. }
  assert (Hpayload : length (map ToUint8 (tl P)) = Z.to_nat m).
  { rewrite length_map. destruct P as [|x P]; cbn [length tl] in *; lia. }
  exists (ToUint8 pre0), (map ToUint8 (tl P)).
  split; [reflexivity|]. rewrite toZ_ToUint8 by lia.
  split; [lia|]. split; [unfold len; rewrite Hpayload; lia|].
  apply (nth_ext _ _ false false).
  - rewrite length_firstn, length_flat_map_bitsOfOctet, Hpayload.
    unfold n, len in *. lia.
  - intros I HI. rewrite length_firstn in HI.
    assert (HIn : (I < length bits)%nat) by lia.
    rewrite nth_firstn.
    destruct (Nat.ltb_spec I (length bits)); [|lia].
    set (i := Z.of_nat I).
    assert (Hi : 0 <= i < n) by (unfold i, n, len; lia).
    pose proof (Z.mod_pos_bound i 8).
    replace I with (8 * Z.to_nat (i / 8) + Z.to_nat (i mod 8))%nat
      by (unfold i; Z.to_euclidean_division_equations; lia).
    rewrite nth_flat_map_bitsOfOctet
      by (rewrite ?Hpayload; Z.to_euclidean_division_equations; lia).
    change x00 with (ToUint8 0). rewrite map_nth, nth_tl, nth_bitsOfOctet by lia.
    rewrite Z2Nat.id by lia.
    replace (S (Z.to_nat (i / 8))) with (Z.to_nat (i / 8 + 1))
      by (Z.to_euclidean_division_equations; lia).
    fold (bitAt P i). subst P.
    rewrite bitAt_setBits by (fold n; lia). rewrite bitAt_zeros. cbn [orb].
    fold n. destruct (Z.leb_spec 0 i); [|lia].
    destruct (Z.ltb_spec i (0 + n)); [|lia]. cbn [andb].
    f_equal. unfold i. Z.to_euclidean_division_equations. lia.
Qed.

(** What the primitive getter returns on such octets. *)
Lemma bitString_primitive_value (this : t) (unused : byte) (payload : Uint8Array) :
  value this = unused :: payload ->
  0 <= toZ unused <= 7 ->
  0 <= 8 * len payload - toZ unused ->
  bitString_primitive this
  = Return (firstn (Z.to_nat (8 * len payload - toZ unused))
              (flat_map bitsOfOctet payload)).
Proof.
  intros Hv Hu Hlen. unfold bitString_primitive. rewrite Hv.
  rewrite len_cons. pose proof (len_nonneg payload).
  destruct (Z.eqb_spec (len payload + 1) 0); [lia|].
  change (at_ (unused :: payload) 0) with (Some unused). cbn [strictEq num].
  assert (Hfirst : (len payload + 1 =? 1) && negb (toZ unused =? 0) = false).
  { destruct (Z.eqb_spec (len payload + 1) 1); [|reflexivity].
    destruct (Z.eqb_spec (toZ unused) 0); [reflexivity|lia]. }
  rewrite Hfirst. destruct (Z.gtb_spec (toZ unused) 7); [lia|].
  change (unused :: payload) with ([unused] ++ payload).
  change 1 with (len [unused]). rewrite sliceFrom_app.
  unfold len at 1. rewrite length_flat_map_bitsOfOctet.
  do 2 f_equal. unfold len. lia.
Qed.

(** X11: the [bitString] setter and getter.  On a primitive element, the
    getter returns, after the setter, the bits given, whatever their number
    (an array has less than [2 ^ 32] members); the setter leaves the tag and
    the construction alone, stores one octet for the count of unused bits,
    from 0 to 7, and one octet for every eight bits or part of them. *)
Theorem bitString_set_bitString (this : t) (bits : list bool) :
  construction this = primitive ->
  len bits < 2 ^ 32 ->
  bitString (set_bitString this bits) = Return bits
  /\ len (value (set_bitString this bits)) = (len bits + 7) / 8 + 1
  /\ tagClass (set_bitString this bits) = tagClass this
  /\ tagNumber (set_bitString this bits) = tagNumber this
  /\ construction (set_bitString this bits) = primitive.
Proof.
  intros Hp Hn.
  destruct (value_set_bitString this bits Hn) as (unused & payload & Hv & Hu & Hlen & Hbits).
  split; [|split; [|repeat split; assumption]].
  - rewrite bitString_unfold.
    change (construction (set_bitString this bits)) with (construction this).
    rewrite Hp. rewrite (bitString_primitive_value _ unused payload Hv Hu)
      by (pose proof (len_nonneg bits); lia).
    rewrite Hlen. unfold len. rewrite Nat2Z.id, Hbits. reflexivity.
  - rewrite Hv, len_cons. pose proof (len_nonneg payload).
    Z.to_euclidean_division_equations. lia.
Qed.

Lemma bitString_set_bitString_witness :
  bitString (set_bitString (new universal primitive 3)
               [true; false; true; true; false; false; false; false; true])
  = Return [true; false; true; true; false; false; false; false; true].
Proof.
  refine (proj1 (bitString_set_bitString (new universal primitive 3)
                   [true; false; true; true; false; false; false; false; true]
                   eq_refl _)).
  vm_compute. reflexivity.
Defined.

Lemma removelast_map {A B} (f : A -> B) (l : list A) :
  removelast (map f l) = map f (removelast l).
Proof.
  induction l as [|x l IH]; [reflexivity|].
  destruct l as [|y l]; [reflexivity|].
  cbn [map removelast] in *. rewrite IH. reflexivity.
Qed.

(** The getter after the setter, at any recursion count. *)
Lemma bitString_after_setter (this that : t) (bits : list bool) :
  len bits < 2 ^ 32 ->
  construction that = primitive ->
  value that = value (set_bitString this bits) ->
  bitString that = Return bits.
Proof.
  intros Hn Hp Hv.
  destruct (value_set_bitString this bits Hn) as (unused & payload & Hv' & Hu & Hlen & Hbits).
  rewrite bitString_unfold, Hp.
  rewrite (bitString_primitive_value _ unused payload) by (try congruence; pose proof (len_nonneg bits); lia).
  rewrite Hlen. unfold len. rewrite Nat2Z.id, Hbits. reflexivity.
Qed.

(** X12: a BIT STRING put together by hand.  When the [sequence] setter is
    given primitive elements of the tag of the element, each made by the
    [bitString] setter from a piece of the bits, every piece but the last
    being a whole number of octets, the [bitString] getter returns the
    pieces one after the other. *)
Theorem bitString_of_pieces (this : t) (pieces : list (list bool)) :
  0 <= tagNumber this < 31 \/ 31 < tagNumber this < 2 ^ 21 ->
  recursionCount this + 1 <= nestingRecursionLimit ->
  Forall (fun piece => len piece <= 8 * 65534) pieces ->
  Forall (fun piece => len piece mod 8 = 0) (removelast pieces) ->
  bitString
    (set_sequence definite this
       (map (set_bitString (new (tagClass this) primitive (tagNumber this))) pieces))
  = Return (concat pieces).
Proof.
  intros Htag Hrc Hpieces Hwhole.
  set (child := new (tagClass this) primitive (tagNumber this)).
  set (elements := map (set_bitString child) pieces).
  assert (Hes : Forall readsBack elements).
  { subst elements. apply Forall_map.
    refine (Forall_impl _ _ Hpieces). intros piece Hlen. split; [exact Htag|].
    destruct (value_set_bitString child piece) as (unused & payload & Hv & Hu & Hl & _);
      [lia|].
    rewrite Hv, len_cons. lia. }
  pose proof (sequence_of_encodings (set_sequence definite this elements) elements
                eq_refl eq_refl Hes) as Hseq.
  rewrite bitString_unfold.
  change (construction (set_sequence definite this elements)) with constructed.
  cbv iota. rewrite Hseq.
  change (recursionCount (set_sequence definite this elements))
    with (recursionCount this).
  destruct (Z.gtb_spec (recursionCount this + 1) nestingRecursionLimit); [lia|].
  cbn [bind]. rewrite slice_removelast.
  destruct (proj2 (forEach_checkAligned
                     (removelast (map (decodedAt initialRecursionCount) elements))))
    as [units ->].
  { subst elements. rewrite !removelast_map, !Exists_map.
    intros Hex. apply Exists_exists in Hex.
    destruct Hex as (piece & Hin & _ & b & rest & Hv & Hb).
    rewrite Forall_forall in Hwhole. specialize (Hwhole piece Hin).
    assert (Hlen : len piece <= 8 * 65534).
    { rewrite Forall_forall in Hpieces. apply Hpieces.
      clear - Hin. induction pieces as [|p [|q pieces] IH]; [contradiction|contradiction|].
      destruct Hin as [->|Hin]; [left; reflexivity|right; apply IH; exact Hin]. }
    destruct (value_set_bitString child piece) as (unused & payload & Hv' & Hu & Hl & _);
      [lia|].
    change (value (decodedAt initialRecursionCount (set_bitString child piece)))
      with (value (set_bitString child piece)) in Hv.
    rewrite Hv' in Hv. injection Hv as -> ->.
    apply Hb, toZ_inj. change (toZ x00) with 0.
    Z.to_euclidean_division_equations. lia. }
  cbn [bind].
  rewrite (forEach_Return _ _ pieces); [reflexivity|].
  subst elements. clear - Hpieces.
  induction Hpieces as [|piece pieces Hlen _ IH]; constructor; [|exact IH].
  rewrite checkSubstring_sameTag by (split; reflexivity).
  cbn [bind]. apply (bitString_after_setter child); [lia|reflexivity|reflexivity].
Qed.

Lemma bitString_of_pieces_witness :
  bitString
    (set_sequence definite (new universal primitive 3)
       (map (set_bitString (new universal primitive 3))
          [[true; true; true; true; false; false; false; false]; [true; false; true]]))
  = Return [true; true; true; true; false; false; false; false; true; false; true].
Proof.
  refine (bitString_of_pieces (new universal primitive 3)
            [[true; true; true; true; false; false; false; false]; [true; false; true]]
            _ _ _ _).
  - left. cbn [tagNumber new]. lia.
  - vm_compute. discriminate.
  - repeat constructor; vm_compute; discriminate.
  - cbn [removelast]. repeat constructor.
Defined.

(** ** UniversalString *)

Lemma ToInt32_mod_65536 (z : Z) : ToInt32 z mod 65536 = z mod 65536.
Proof. unfold ToInt32. Z.to_euclidean_division_equations. lia. Qed.

(** One round of the loop of the getter, on the four octets of a code point:
    [String.fromCharCode] keeps the low sixteen bits. *)
Lemma fromCharCode_ucs4 (codePoint : Z) :
  0 <= codePoint < 2 ^ 32 ->
  fromCharCode
    (shl (toZ (ToUint8 (codePoint / 2 ^ 24))) 24
     + shl (toZ (ToUint8 (codePoint / 2 ^ 16))) 16
     + shl (toZ (ToUint8 (codePoint / 2 ^ 8))) 8
     + shl (toZ (ToUint8 codePoint)) 0)
  = codePoint mod 65536.
Proof.
  intros Hc. rewrite !toZ_ToUint8_mod. unfold fromCharCode.
  pose proof (Z.mod_pos_bound (codePoint / 2 ^ 16) 256).
  pose proof (Z.mod_pos_bound (codePoint / 2 ^ 8) 256).
  pose proof (Z.mod_pos_bound codePoint 256).
  rewrite (shl_small _ 16), (shl_small _ 8), (shl_small _ 0) by lia.
  unfold shl. rewrite Z.shiftl_mul_pow2 by lia.
  set (A := ToInt32 ((codePoint / 2 ^ 24) mod 256 * 2 ^ 24)).
  assert (HA : A mod 65536 = 0).
  { subst A. rewrite ToInt32_mod_65536.
    Z.to_euclidean_division_equations. lia. }
  clearbody A. Z.to_euclidean_division_equations. lia.
Qed.

Lemma universalChars_ucs4 (codePoints : list Z) :
  Forall (fun codePoint => 0 <= codePoint < 2 ^ 32) codePoints ->
  universalChars (flat_map ucs4 codePoints)
  = map (fun codePoint => codePoint mod 65536) codePoints.
Proof.
  induction 1 as [|c cs Hc _ IH]; [reflexivity|].
  cbn [flat_map map]. unfold ucs4 at 1. cbn [app universalChars].
  rewrite (fromCharCode_ucs4 c) by assumption.
  rewrite IH. reflexivity.
Qed.

Lemma len_flat_map_ucs4 (codePoints : list Z) :
  len (flat_map ucs4 codePoints) = 4 * len codePoints.
Proof.
  induction codePoints as [|c cs IH]; [reflexivity|].
  cbn [flat_map]. rewrite len_app, IH, len_cons. change (len (ucs4 c)) with 4. lia.
Qed.

Lemma universalString_ucs4 (this : t) (codePoints : list Z) :
  construction this = primitive ->
  value this = flat_map ucs4 codePoints ->
  Forall (fun codePoint => 0 <= codePoint < 2 ^ 32) codePoints ->
  universalString this
  = Return (map (fun codePoint => codePoint mod 65536) codePoints).
Proof.
  intros Hp Hv Hcs. unfold universalString.
  rewrite deconstruct_primitive by assumption. cbn [bind].
  rewrite Hv, len_flat_map_ucs4.
  replace (4 * len codePoints mod 4) with 0 by (Z.to_euclidean_division_equations; lia).
  cbn [Z.eqb negb]. rewrite universalChars_ucs4 by assumption. reflexivity.
Qed.

(** Four writes at consecutive indices, inside the array. *)
Lemma store_here (pre post : Uint8Array) (b : byte) (k v : Z) :
  k = len pre ->
  store (pre ++ b :: post) k v = pre ++ ToUint8 v :: post.
Proof.
  intros ->. unfold store.
  pose proof (len_nonneg pre). pose proof (len_nonneg post).
  rewrite len_app, len_cons.
  destruct (Z.leb_spec 0 (len pre)); [|lia].
  destruct (Z.ltb_spec (len pre) (len pre + (len post + 1))); [|lia].
  cbn [andb]. unfold len. rewrite Nat2Z.id.
  rewrite firstn_app, firstn_all, Nat.sub_diag. cbn [firstn].
  rewrite app_nil_r.
  change (S (length pre)) with (1 + length pre)%nat.
  rewrite <- skipn_skipn, skipn_app, skipn_all, Nat.sub_diag.
  reflexivity.
Qed.

Lemma store_four (pre post : Uint8Array) (b0 b1 b2 b3 : byte)
    (k v0 v1 v2 v3 : Z) :
  k = len pre ->
  store
    (store
       (store (store (pre ++ b0 :: b1 :: b2 :: b3 :: post) k v0) (k + 1) v1)
       (k + 2) v2)
    (k + 3) v3
  = pre ++ [ToUint8 v0; ToUint8 v1; ToUint8 v2; ToUint8 v3] ++ post.
Proof.
  intros Hk. rewrite (store_here pre) by assumption.
  change (pre ++ ToUint8 v0 :: b1 :: b2 :: b3 :: post)
    with (pre ++ [ToUint8 v0] ++ b1 :: b2 :: b3 :: post).
  rewrite app_assoc, (store_here (pre ++ [ToUint8 v0]))
    by (rewrite len_app, len_cons, len_nil; lia).
  rewrite <- app_assoc.
  change (pre ++ [ToUint8 v0] ++ ToUint8 v1 :: b2 :: b3 :: post)
    with (pre ++ [ToUint8 v0; ToUint8 v1] ++ b2 :: b3 :: post).
  rewrite app_assoc, (store_here (pre ++ [ToUint8 v0; ToUint8 v1]))
    by (rewrite len_app, !len_cons, len_nil; lia).
  rewrite <- app_assoc.
  change (pre ++ [ToUint8 v0; ToUint8 v1] ++ ToUint8 v2 :: b3 :: post)
    with (pre ++ [ToUint8 v0; ToUint8 v1; ToUint8 v2] ++ b3 :: post).
  rewrite app_assoc, (store_here (pre ++ [ToUint8 v0; ToUint8 v1; ToUint8 v2]))
    by (rewrite len_app, !len_cons, len_nil; lia).
  rewrite <- app_assoc. reflexivity.
Qed.

(** The loop of the setter, while [i << 2] is [4 * i]: it fills the buffer
    with the four octets of every code unit. *)
Lemma storeUniversal_ucs4 (text : JSString) (i : Z) (pre : Uint8Array) :
  len pre = 4 * i ->
  0 <= i ->
  i + len text <= 2 ^ 29 ->
  Forall (fun charCode => 0 <= charCode < 65536) text ->
  storeUniversal text i (pre ++ repeat x00 (4 * length text))
  = pre ++ flat_map ucs4 text.
Proof.
  intros Hpre Hi Hlen Htext. revert i pre Hpre Hi Hlen.
  induction Htext as [|c cs Hc _ IH]; intros i pre Hpre Hi Hlen.
  - reflexivity.
  - rewrite len_cons in Hlen. pose proof (len_nonneg cs).
    cbn [storeUniversal flat_map].
    replace (4 * length (c :: cs))%nat with (4 + 4 * length cs)%nat
      by (cbn [length]; lia).
    cbn [repeat Nat.add].
    rewrite (shl_small i 2) by lia.
    rewrite store_four by lia.
    rewrite !ushr_small by lia.
    change [ToUint8 (c / 2 ^ 24); ToUint8 (c / 2 ^ 16); ToUint8 (c / 2 ^ 8); ToUint8 c]
      with (ucs4 c).
    rewrite app_assoc, (IH (i + 1) (pre ++ ucs4 c)).
    + rewrite <- app_assoc. reflexivity.
    + rewrite len_app. change (len (ucs4 c)) with 4. lia.
    + lia.
    + lia.
Qed.

(** The buffer of the setter for a string of fewer than [2 ^ 29] code units,
    for which [value.length << 2] is four times the length. *)
Lemma universalOctets_ucs4 (text : JSString) :
  len text < 2 ^ 29 ->
  Forall (fun charCode => 0 <= charCode < 65536) text ->
  universalOctets text = Return (flat_map ucs4 text).
Proof.
  intros Hlen Htext. unfold universalOctets, newUint8Array.
  pose proof (len_nonneg text).
  rewrite (shl_small (len text) 2) by lia.
  destruct (Z.ltb_spec (len text * 2 ^ 2) 0); [lia|]. cbn [bind].
  replace (Z.to_nat (len text * 2 ^ 2)) with (4 * length text)%nat
    by (unfold len; lia).
  f_equal. apply (storeUniversal_ucs4 text 0 []); try assumption;
    try reflexivity; lia.
Qed.

Lemma map_mod_65536 (text : JSString) :
  Forall (fun charCode => 0 <= charCode < 65536) text ->
  map (fun codePoint => codePoint mod 65536) text = text.
Proof.
  induction 1 as [|c cs Hc _ IH]; [reflexivity|].
  cbn [map]. rewrite IH, Z.mod_small by lia. reflexivity.
Qed.

(** X13: the [universalString] setter and getter.  For a string of fewer
    than [2 ^ 29] code units, so that [value.length << 2] and [i << 2] are
    four times the length and the index, the setter stores the four octets
    of every code unit, in the order of the string, and on a primitive
    element the getter then returns the string given, code unit by code
    unit. *)
Theorem universalString_set_universalString (this : t) (text : JSString) :
  len text < 2 ^ 29 ->
  Forall (fun charCode => 0 <= charCode < 65536) text ->
  set_universalString this text = Return (set_value this (flat_map ucs4 text))
  /\ len (flat_map ucs4 text) = 4 * len text
  /\ (construction this = primitive ->
      (stored <- set_universalString this text ;; universalString stored)
      = Return text).
Proof.
  intros Hlen Hv.
  assert (Hset : set_universalString this text
                 = Return (set_value this (flat_map ucs4 text))).
  { unfold set_universalString. rewrite universalOctets_ucs4 by assumption.
    reflexivity. }
  split; [exact Hset|]. split; [apply len_flat_map_ucs4|].
  intros Hp. rewrite Hset. cbn [bind].
  rewrite (universalString_ucs4 _ text);
    [rewrite map_mod_65536 by assumption; reflexivity|exact Hp|reflexivity|].
  refine (Forall_impl _ _ Hv). intros c Hc. lia.
Qed.

Lemma universalString_set_universalString_witness :
  (stored <- set_universalString (new universal primitive 28) [0x41; 0x20AC] ;;
   universalString stored)
  = Return [0x41; 0x20AC].
Proof.
  refine (proj2 (proj2 (universalString_set_universalString
                          (new universal primitive 28) [0x41; 0x20AC] _ _))
            eq_refl).
  - vm_compute. reflexivity.
  - repeat constructor; lia.
Defined.

(** X14: what the [universalString] getter makes of code points.  On a
    primitive element whose value holds characters on four octets each, the
    getter returns one code unit for each character, the code point modulo
    65536: a character beyond the Basic Multilingual Plane is read as
    another character, without an error.  And a value whose length is not a
    multiple of four is refused. *)
Theorem universalString_low_sixteen_bits (this : t) :
  construction this = primitive ->
  (forall codePoints : list Z,
      value this = flat_map ucs4 codePoints ->
      Forall (fun codePoint => 0 <= codePoint < 2 ^ 32) codePoints ->
      universalString this
      = Return (map (fun codePoint => codePoint mod 65536) codePoints))
  /\ (len (value this) mod 4 <> 0 -> universalString this = Throw ASN1Error).
Proof.
  intros Hp. split.
  - intros codePoints Hv Hcs. apply universalString_ucs4; assumption.
  - intros Hlen. unfold universalString.
    rewrite deconstruct_primitive by assumption. cbn [bind].
    destruct (Z.eqb_spec (len (value this) mod 4) 0); [contradiction|reflexivity].
Qed.

Lemma universalString_low_sixteen_bits_witness :
  universalString (mkElement 0 universal primitive 28 [x00; x01; xf6; x00])
  = Return [0xF600]
  /\ universalString (mkElement 0 universal primitive 28 [x00; x00; x41])
     = Throw ASN1Error.
Proof.
  destruct (universalString_low_sixteen_bits
              (mkElement 0 universal primitive 28 [x00; x01; xf6; x00]) eq_refl)
    as [Hlow _].
  destruct (universalString_low_sixteen_bits
              (mkElement 0 universal primitive 28 [x00; x00; x41]) eq_refl)
    as [_ Hlen].
  split.
  - refine (Hlow [0x1F600] eq_refl _). repeat constructor; lia.
  - apply Hlen. vm_compute. discriminate.
Defined.

(** ** Values of 65536 octets and more *)

(** The length octets of [toBytes] for a length on three octets: when the
    middle one is zero, it is counted as padding with the leading zero
    octet, and two octets are left. *)
Lemma definiteLengthOctets_long3 (length : Z) :
  65536 <= length < 2 ^ 24 ->
  definiteLengthOctets length
  = if (length / 256) mod 256 =? 0 then [0x82; 0; length mod 256]
    else [0x83; length / 65536; (length / 256) mod 256; length mod 256].
Proof.
  intros H. unfold definiteLengthOctets.
  destruct (Z.ltb_spec length 127); [lia|].
  cbn [map].
  change (shl (3 - 0) 3) with 24. change (shl (3 - 1) 3) with 16.
  change (shl (3 - 2) 3) with 8. change (shl (3 - 3) 3) with 0.
  rewrite !ushr_small by lia.
  change 0xFF with (Z.ones 8). rewrite !Z.land_ones by lia.
  rewrite (Z.div_small length (2 ^ 24)) by lia.
  rewrite Z.div_1_r. change (2 ^ 8) with 256. change (2 ^ 16) with 65536.
  assert (Hd : 1 <= length / 65536 < 256) by (Z.to_euclidean_division_equations; lia).
  rewrite (Z.mod_small (length / 65536)) by lia.
  change (0 mod 256) with 0. cbv zeta. rewrite startOfNonPadding_count.
  destruct (Z.eqb_spec (length / 65536) 0); [lia|].
  destruct (Z.eqb_spec ((length / 256) mod 256) 0) as [E|E]; [rewrite E|]; reflexivity.
Qed.

(** X15: values of 65536 octets and more, under the definite preference.  The
    length of a value of [2 ^ 16] to [2 ^ 24 - 1] octets has three octets;
    when the middle one is not zero, [toBytes] writes the three and
    [fromBytes] reads the element back; when it is zero, [toBytes] writes
    [82 00] and the last octet only, and [fromBytes] returns, without an
    error, an element whose value is the first octets of the value, as many
    as the length modulo 256. *)
Theorem toBytes_three_octet_length (this e : t) (more : Uint8Array) :
  recursionCount this + 1 <= nestingRecursionLimit ->
  0 <= tagNumber e < 31 \/ 31 < tagNumber e < 2 ^ 21 ->
  65536 <= len (value e) < 2 ^ 24 ->
  ((len (value e) / 256) mod 256 <> 0 ->
   fromBytes this (toBytes definite e ++ more)
   = Return (decodedAt (recursionCount this) e, len (toBytes definite e)))
  /\ ((len (value e) / 256) mod 256 = 0 ->
      fromBytes this (toBytes definite e ++ more)
      = Return (set_value (decodedAt (recursionCount this) e)
                  (firstn (Z.to_nat (len (value e) mod 256)) (value e)),
                len (tagBytes e) + 3 + len (value e) mod 256)).
Proof.
  intros Hrc Htag Hlen.
  destruct (tagBytes_identifierOctets e Htag) as (id & Hid & Hc & Hk).
  set (L := len (value e)) in *.
  assert (Ha : 1 <= L / 65536 < 256) by (Z.to_euclidean_division_equations; lia).
  pose proof (Z.mod_pos_bound (L / 256) 256) as Hb.
  pose proof (Z.mod_pos_bound L 256) as Hl.
  unfold toBytes. cbn [lengthOctets]. fold L.
  rewrite definiteLengthOctets_long3 by assumption.
  rewrite app_nil_r, <- !app_assoc. split; intros Hmid.
  - destruct (Z.eqb_spec ((L / 256) mod 256) 0); [contradiction|].
    cbn [map app]. change (ToUint8 131) with x83.
    rewrite (fromBytes_identifier this _ _ id (tagNumber e))
      by (try assumption; discriminate).
    change (x83 :: ToUint8 (L / 65536) :: ToUint8 ((L / 256) mod 256)
            :: ToUint8 (L mod 256) :: value e ++ more)
      with (x83 :: [ToUint8 (L / 65536); ToUint8 ((L / 256) mod 256);
                    ToUint8 (L mod 256)] ++ value e ++ more).
    rewrite decodeLengthAndValue_longForm;
      [|reflexivity|vm_compute; split; discriminate].
    assert (HL : bigEndian [ToUint8 (L / 65536); ToUint8 ((L / 256) mod 256);
                            ToUint8 (L mod 256)] = L).
    { unfold bigEndian. cbn [fold_left]. rewrite !toZ_ToUint8 by lia.
      Z.to_euclidean_division_equations. lia. }
    rewrite HL, len_app. pose proof (len_nonneg more).
    destruct (Z.geb_spec L (2 ^ 31)); [lia|].
    destruct (Z.gtb_spec L (len (value e) + len more)); [unfold L in *; lia|].
    rewrite firstn_app, firstn_all2 by (unfold L, len; lia).
    replace (Z.to_nat L - length (value e))%nat with 0%nat by (unfold L, len; lia).
    cbn [firstn]. rewrite app_nil_r.
    rewrite Hc, Hk. unfold decodedAt, set_recursionCount, set_value.
    cbn [recursionCount tagClass construction tagNumber value].
    f_equal. f_equal. rewrite len_app, !len_cons, len_nil. unfold L. lia.
  - rewrite Hmid. cbn [Z.eqb map app]. change (ToUint8 130) with x82.
    change (ToUint8 0) with x00.
    rewrite (fromBytes_identifier this _ _ id (tagNumber e))
      by (try assumption; discriminate).
    change (x82 :: x00 :: ToUint8 (L mod 256) :: value e ++ more)
      with (x82 :: [x00; ToUint8 (L mod 256)] ++ value e ++ more).
    rewrite decodeLengthAndValue_longForm;
      [|reflexivity|vm_compute; split; discriminate].
    assert (HL : bigEndian [x00; ToUint8 (L mod 256)] = L mod 256).
    { unfold bigEndian. cbn [fold_left]. rewrite !toZ_ToUint8 by lia.
      change (toZ x00) with 0. lia. }
    rewrite HL, len_app. pose proof (len_nonneg more).
    destruct (Z.geb_spec (L mod 256) (2 ^ 31)); [lia|].
    destruct (Z.gtb_spec (L mod 256) (len (value e) + len more)); [unfold L in *; lia|].
    rewrite firstn_app.
    replace (Z.to_nat (L mod 256) - length (value e))%nat with 0%nat
      by (unfold L, len in *; lia).
    cbn [firstn]. rewrite app_nil_r.
    rewrite len_map, Hc, Hk. unfold decodedAt, set_recursionCount, set_value.
    cbn [recursionCount tagClass construction tagNumber value].
    f_equal. f_equal. rewrite !len_cons, len_nil. lia.
Qed.

Lemma toBytes_three_octet_length_witness :
  let whole := set_value (new universal primitive 4) (repeat xaa (Z.to_nat 65792)) in
  let cut := set_value (new universal primitive 4) (repeat xaa (Z.to_nat 65541)) in
  fromBytes new_default (toBytes definite whole ++ [])
  = Return (decodedAt (recursionCount new_default) whole,
            len (toBytes definite whole))
  /\ fromBytes new_default (toBytes definite cut ++ [])
     = Return (set_value (decodedAt (recursionCount new_default) cut)
                 (firstn (Z.to_nat (len (value cut) mod 256)) (value cut)),
               len (tagBytes cut) + 3 + len (value cut) mod 256).
Proof.
  intros whole cut.
  assert (Hrc : recursionCount new_default + 1 <= nestingRecursionLimit)
    by (vm_compute; discriminate).
  assert (Htag : forall v, 0 <= tagNumber (set_value (new universal primitive 4) v) < 31
                           \/ 31 < tagNumber (set_value (new universal primitive 4) v)
                              < 2 ^ 21)
    by (intros v; left; cbn [tagNumber set_value new]; lia).
  split.
  - apply (proj1 (toBytes_three_octet_length new_default whole [] Hrc (Htag _)
                    ltac:(vm_compute; split; [discriminate|reflexivity]))).
    vm_compute. discriminate.
  - apply (proj2 (toBytes_three_octet_length new_default cut [] Hrc (Htag _)
                    ltac:(vm_compute; split; [discriminate|reflexivity]))).
    vm_compute. reflexivity.
Defined.

(** ** [CERElement] *)

Lemma CER_toBytes_primitive (e : t) :
  construction e = primitive -> CERElement.toBytes e = toBytes definite e.
Proof. intros H. unfold CERElement.toBytes, toBytes. rewrite H. reflexivity. Qed.

Lemma CER_toBytes_constructed (e : t) :
  construction e = constructed ->
  CERElement.toBytes e
  = map ToUint8 (tagBytes e) ++ x80 :: value e ++ [x00; x00].
Proof. intros H. unfold CERElement.toBytes. rewrite H. reflexivity. Qed.

Lemma CER_encodeSequence_primitive (elements : list t) :
  Forall (fun e => construction e = primitive) elements ->
  CERElement.encodeSequence elements = concat (map (toBytes definite) elements).
Proof.
  unfold CERElement.encodeSequence.
  induction 1 as [|e es He _ IH]; [reflexivity|].
  cbn [map concat]. rewrite IH, CER_toBytes_primitive by assumption. reflexivity.
Qed.

(** [deconstruct] is the same method in the two classes. *)
Lemma CER_deconstruct (this : t) : CERElement.deconstruct this = deconstruct this.
Proof. reflexivity. Qed.

(** Every piece of a value holds from 1 to 1000 octets. *)
Lemma splitOctets_pieces (rounds : nat) (v : Uint8Array) :
  Forall (fun piece => 0 < len piece <= 1000) (CERElement.splitOctets rounds v).
Proof.
  revert v. induction rounds as [|rounds IH]; intros v; [constructor|].
  destruct v as [|b v]; [constructor|].
  rewrite splitOctets_cons. constructor; [|apply IH].
  unfold len. rewrite length_firstn. cbn [length]. lia.
Qed.

(** What [CERElement.toBytes] writes for a primitive element, read back. *)
Lemma CER_fromBytes_primitive (this e : t) (more : Uint8Array) :
  construction e = primitive ->
  readsBack e ->
  recursionCount this + 1 <= nestingRecursionLimit ->
  CERElement.fromBytes this (CERElement.toBytes e ++ more)
  = Return (decodedAt (recursionCount this) e, len (CERElement.toBytes e)).
Proof.
  intros Hp He Hrc. rewrite CER_toBytes_primitive by assumption.
  apply fromBytes_toBytes_decodedAt; assumption.
Qed.

(** What [CERElement.toBytes] writes for a constructed element whose value
    holds primitive elements, read back. *)
Lemma CER_fromBytes_constructed (this e : t) (children : list t)
    (more : Uint8Array) :
  construction e = constructed ->
  0 <= tagNumber e < 31 \/ 31 < tagNumber e < 2 ^ 21 ->
  value e = concat (map (toBytes definite) children) ->
  Forall readsBack children ->
  Forall (fun c => isEndOfContent c = false) children ->
  recursionCount this + 2 <= nestingRecursionLimit ->
  CERElement.fromBytes this (CERElement.toBytes e ++ more)
  = Return (decodedAt (recursionCount this) e, len (CERElement.toBytes e)).
Proof.
  intros Hk Htag Hv Hcs Hne Hrc.
  rewrite CER_toBytes_constructed by assumption.
  destruct (tagBytes_identifierOctets e Htag) as (id & Hid & Hc & Hk').
  rewrite Hv, <- app_assoc. cbn [app]. rewrite <- app_assoc.
  unfold CERElement.fromBytes.
  rewrite (fromBytes_indefinite_children this _ more id (tagNumber e) children);
    try assumption; [|congruence].
  rewrite Hc. unfold decodedAt, set_recursionCount. rewrite Hk, Hv.
  f_equal. f_equal. rewrite !len_app, !len_cons, len_app, !len_cons, len_nil. lia.
Qed.

(** X16: [CERElement.toBytes] and [CERElement.fromBytes].  A primitive element
    whose tag number is at most 30 or from 32 to [2 ^ 21 - 1] and whose value
    is shorter than 65536 octets is written in definite form and read back;
    a constructed element of such a tag number whose value holds the
    encodings of primitive elements, none of them passing for an
    end-of-contents marker, is written in indefinite form and read back, the
    nesting limit allowing one level more. *)
Theorem CER_fromBytes_toBytes (this e : t) (more : Uint8Array) :
  0 <= tagNumber e < 31 \/ 31 < tagNumber e < 2 ^ 21 ->
  (construction e = primitive ->
   len (value e) < 65536 ->
   recursionCount this + 1 <= nestingRecursionLimit ->
   CERElement.fromBytes this (CERElement.toBytes e ++ more)
   = Return (decodedAt (recursionCount this) e, len (CERElement.toBytes e)))
  /\ (forall children : list t,
         construction e = constructed ->
         value e = concat (map CERElement.toBytes children) ->
         Forall (fun c => construction c = primitive) children ->
         Forall readsBack children ->
         Forall (fun c => isEndOfContent c = false) children ->
         recursionCount this + 2 <= nestingRecursionLimit ->
         CERElement.fromBytes this (CERElement.toBytes e ++ more)
         = Return (decodedAt (recursionCount this) e, len (CERElement.toBytes e))).
Proof.
  intros Htag. split.
  - intros Hp Hlen Hrc. apply CER_fromBytes_primitive; [assumption|split; assumption|assumption].
  - intros children Hk Hv Hps Hcs Hne Hrc.
    apply (CER_fromBytes_constructed this e children); try assumption.
    rewrite Hv. apply (CER_encodeSequence_primitive children Hps).
Qed.

Lemma CER_fromBytes_toBytes_witness :
  CERElement.fromBytes new_default
    (CERElement.toBytes (mkElement 0 universal primitive 4 [xaa; xbb]) ++ [xff])
  = Return (mkElement 0 universal primitive 4 [xaa; xbb], 4)
  /\ CERElement.fromBytes new_default
       (CERElement.toBytes
          (mkElement 0 universal constructed 4 [x04; x01; xaa; x04; x01; xbb])
        ++ [])
     = Return (mkElement 0 universal constructed 4 [x04; x01; xaa; x04; x01; xbb], 10).
Proof.
  split.
  - refine (proj1 (CER_fromBytes_toBytes new_default
                     (mkElement 0 universal primitive 4 [xaa; xbb]) [xff] _) eq_refl _ _).
    + left. cbn [tagNumber]. lia.
    + vm_compute. reflexivity.
    + vm_compute. discriminate.
  - refine (proj2 (CER_fromBytes_toBytes new_default
                     (mkElement 0 universal constructed 4
                        [x04; x01; xaa; x04; x01; xbb]) [] _)
              [mkElement 0 universal primitive 4 [xaa];
               mkElement 0 universal primitive 4 [xbb]] eq_refl eq_refl _ _ _ _).
    + left. cbn [tagNumber]. lia.
    + repeat constructor.
    + repeat constructor; cbn [tagNumber]; try lia; vm_compute; reflexivity.
    + repeat constructor.
    + vm_compute. discriminate.
Defined.

(** X17: the [inner] getter and setter of [CERElement].  The getter refuses a
    primitive element; after the setter, given a primitive element whose tag
    number is at most 30 or from 32 to [2 ^ 21 - 1] and whose value is
    shorter than 65536 octets, it returns that element; and it refuses a
    value that holds octets after its first element. *)
Theorem CER_inner (this : t) :
  (construction this = primitive ->
   CERElement.inner this = Throw ASN1ConstructionError)
  /\ (forall v : t,
         construction v = primitive ->
         readsBack v ->
         CERElement.inner (CERElement.set_inner this v)
         = Return (decodedAt initialRecursionCount v))
  /\ (forall (v : t) (extra : Uint8Array),
         construction v = primitive ->
         readsBack v ->
         extra <> [] ->
         construction this = constructed ->
         value this = CERElement.toBytes v ++ extra ->
         CERElement.inner this = Throw ASN1ConstructionError).
Proof.
  split; [|split].
  - intros Hp. unfold CERElement.inner. rewrite Hp. reflexivity.
  - intros v Hp Hv. unfold CERElement.inner.
    cbn [CERElement.set_inner set_value set_construction construction value].
    cbn [ASN1Construction_eqb constructionCode Z.eqb negb].
    rewrite <- (app_nil_r (CERElement.toBytes v)) at 1.
    rewrite CER_fromBytes_primitive by (try assumption; vm_compute; discriminate).
    cbn [bind]. rewrite Z.eqb_refl. reflexivity.
  - intros v extra Hp Hv Hextra Hk Hval. unfold CERElement.inner.
    rewrite Hk, Hval.
    cbn [ASN1Construction_eqb constructionCode Z.eqb negb].
    rewrite CER_fromBytes_primitive by (try assumption; vm_compute; discriminate).
    cbn [bind]. rewrite len_app.
    destruct extra as [|x extra]; [contradiction|]. rewrite len_cons.
    pose proof (len_nonneg extra).
    destruct (Z.eqb_spec (len (CERElement.toBytes v))
                (len (CERElement.toBytes v) + (len extra + 1))); [lia|reflexivity].
Qed.

Lemma CER_inner_witness :
  CERElement.inner (mkElement 0 context primitive 0 [x05; x00])
  = Throw ASN1ConstructionError
  /\ CERElement.inner
       (CERElement.set_inner (mkElement 0 context primitive 0 [])
          (mkElement 2 universal primitive 5 []))
     = Return (mkElement 0 universal primitive 5 [])
  /\ CERElement.inner (mkElement 0 context constructed 0 [x05; x00; x05; x00])
     = Throw ASN1ConstructionError.
Proof.
  assert (Hnull : readsBack (mkElement 2 universal primitive 5 [])).
  { split; [left; cbn [tagNumber]; lia|vm_compute; reflexivity]. }
  split; [|split].
  - apply (proj1 (CER_inner (mkElement 0 context primitive 0 [x05; x00]))).
    reflexivity.
  - apply (proj1 (proj2 (CER_inner (mkElement 0 context primitive 0 [])))
             (mkElement 2 universal primitive 5 []) eq_refl Hnull).
  - apply (proj2 (proj2 (CER_inner
                           (mkElement 0 context constructed 0 [x05; x00; x05; x00])))
             (mkElement 2 universal primitive 5 []) [x05; x00] eq_refl Hnull).
    + discriminate.
    + reflexivity.
    + reflexivity.
Defined.

(** The value that the fragmenting setter stores for a long string: the
    encodings of primitive elements holding the pieces. *)
Lemma value_set_unfragmentedValue (this : t) (v : Uint8Array) :
  1000 < len v ->
  value (CERElement.set_unfragmentedValue this v)
  = concat
      (map (toBytes definite)
         (map (set_octetString (new (tagClass this) primitive (tagNumber this)))
            (CERElement.splitOctetsCanonically v)))
  /\ construction (CERElement.set_unfragmentedValue this v) = constructed.
Proof.
  intros Hlen. unfold CERElement.set_unfragmentedValue.
  destruct (Z.leb_spec (len v) 1000); [lia|].
  split; [|reflexivity].
  cbn [set_value value]. apply CER_encodeSequence_primitive.
  apply Forall_map. apply Forall_forall. intros piece _. reflexivity.
Qed.

(** The fragmenting setter and [deconstruct], on an element that has the
    tag, the construction and the value that the setter leaves. *)
Lemma CER_deconstruct_set_unfragmentedValue (this that : t) (v : Uint8Array) :
  0 <= tagNumber this < 31 \/ 31 < tagNumber this < 2 ^ 21 ->
  recursionCount that + 1 <= nestingRecursionLimit ->
  tagClass that = tagClass this ->
  tagNumber that = tagNumber this ->
  construction that = construction (CERElement.set_unfragmentedValue this v) ->
  value that = value (CERElement.set_unfragmentedValue this v) ->
  CERElement.deconstruct that = Return v.
Proof.
  intros Htag Hrc Hc Hn Hk Hv. rewrite CER_deconstruct.
  destruct (Z.le_gt_cases (len v) 1000) as [Hshort|Hlong].
  - unfold CERElement.set_unfragmentedValue in Hk, Hv.
    destruct (Z.leb_spec (len v) 1000); [|lia].
    rewrite deconstruct_primitive by exact Hk. rewrite Hv. reflexivity.
  - destruct (value_set_unfragmentedValue this v Hlong) as [Hv' Hk'].
    rewrite Hk' in Hk. rewrite Hv' in Hv. rewrite <- Hc, <- Hn in Hv.
    rewrite (deconstruct_pieces that (CERElement.splitOctetsCanonically v));
      try assumption.
    + unfold CERElement.splitOctetsCanonically.
      rewrite splitOctets_concat by lia. reflexivity.
    + rewrite Hn. assumption.
    + refine (Forall_impl _ _ (splitOctets_pieces (length v) v)).
      intros piece Hp. lia.
Qed.

(** X18: an OCTET STRING under CER, there and back.  On an element whose tag
    number is at most 30 or from 32 to [2 ^ 21 - 1], within the nesting
    limit, the [octetString] getter returns, after the fragmenting setter,
    the octets given, however many; and so it does on the element that
    [fromBytes] makes of the octets that [toBytes] writes in between. *)
Theorem CER_octetString_roundtrip (this : t) (v : Uint8Array) :
  0 <= tagNumber this < 31 \/ 31 < tagNumber this < 2 ^ 21 ->
  recursionCount this + 1 <= nestingRecursionLimit ->
  CERElement.octetString (CERElement.set_octetString this v) = Return v
  /\ (e <- CERElement.fromBytes new_default
             (CERElement.toBytes (CERElement.set_octetString this v)) ;;
      CERElement.octetString (fst e))
     = Return v.
Proof.
  intros Htag Hrc. unfold CERElement.octetString, CERElement.set_octetString.
  set (stored := CERElement.set_unfragmentedValue this v).
  assert (Hfields : tagClass stored = tagClass this /\ tagNumber stored = tagNumber this
                    /\ recursionCount stored = recursionCount this).
  { subst stored. unfold CERElement.set_unfragmentedValue.
    destruct (len v <=? 1000); repeat split. }
  destruct Hfields as (Hc & Hn & Hr).
  split.
  - apply (CER_deconstruct_set_unfragmentedValue this); try assumption; try reflexivity.
    rewrite Hr. assumption.
  - assert (Hread : CERElement.fromBytes new_default (CERElement.toBytes stored)
                    = Return (decodedAt (recursionCount new_default) stored,
                              len (CERElement.toBytes stored))).
    { rewrite <- (app_nil_r (CERElement.toBytes stored)) at 1.
      destruct (Z.le_gt_cases (len v) 1000) as [Hshort|Hlong].
      - apply CER_fromBytes_primitive; [| |vm_compute; discriminate].
        + subst stored. unfold CERElement.set_unfragmentedValue.
          destruct (Z.leb_spec (len v) 1000); [reflexivity|lia].
        + split; [rewrite Hn; assumption|].
          subst stored. unfold CERElement.set_unfragmentedValue.
          destruct (Z.leb_spec (len v) 1000); [cbn [set_value value]; lia|lia].
      - destruct (value_set_unfragmentedValue this v Hlong) as [Hv Hk].
        apply (CER_fromBytes_constructed new_default stored _ []
                 Hk ltac:(rewrite Hn; exact Htag) Hv);
          [| |vm_compute; discriminate].
        + apply Forall_map.
          refine (Forall_impl _ _ (splitOctets_pieces (length v) v)).
          intros piece Hp. split; [exact Htag|]. cbn [set_octetString set_value value]. lia.
        + apply Forall_map.
          refine (Forall_impl _ _ (splitOctets_pieces (length v) v)).
          intros piece Hp. unfold isEndOfContent.
          cbn [set_octetString set_value value].
          destruct (Z.eqb_spec (len piece) 0); [lia|]. apply andb_false_r. }
    rewrite Hread. cbn [bind fst].
    apply (CER_deconstruct_set_unfragmentedValue this); try assumption; try reflexivity.
    vm_compute. discriminate.
Qed.

Lemma CER_octetString_roundtrip_witness :
  CERElement.octetString
    (CERElement.set_octetString (new universal primitive 4) (repeat xaa 2500))
  = Return (repeat xaa 2500)
  /\ (e <- CERElement.fromBytes new_default
             (CERElement.toBytes
                (CERElement.set_octetString (new universal primitive 4)
                   (repeat xaa 2500))) ;;
      CERElement.octetString (fst e))
     = Return (repeat xaa 2500).
Proof.
  refine (CER_octetString_roundtrip (new universal primitive 4) (repeat xaa 2500) _ _).
  - left. cbn [tagNumber new]. lia.
  - vm_compute. discriminate.
Defined.

(** ** Character strings with a restricted alphabet *)

Lemma checkCharacters_accepts (refused : Z -> bool) (text : JSString) :
  Forall (fun characterCode => refused characterCode = false) text ->
  checkCharacters refused text = Return tt.
Proof.
  intros H. unfold checkCharacters.
  rewrite (forEach_Return _ text (map (fun _ => tt) text)); [reflexivity|].
  induction H as [|c text Hc _ IH]; constructor; [rewrite Hc; reflexivity|exact IH].
Qed.

Lemma checkCharacters_refuses (refused : Z -> bool) (text : JSString) :
  Exists (fun characterCode => refused characterCode = true) text ->
  checkCharacters refused text = Throw ASN1CharactersError.
Proof.
  intros H. unfold checkCharacters.
  assert (Hf : forEach
                 (fun characterCode =>
                    if refused characterCode then Throw ASN1CharactersError
                    else Return tt) text
               = Throw ASN1CharactersError); [|rewrite Hf; reflexivity].
  induction H as [c text Hc|c text _ IH]; cbn [forEach].
  - rewrite Hc. reflexivity.
  - destruct (refused c); [reflexivity|]. cbn [bind]. rewrite IH. reflexivity.
Qed.

Lemma map_toZ_ToUint8 (text : JSString) :
  Forall asciiCharacter text ->
  map toZ (map ToUint8 text) = text
  /\ Forall (fun b => asciiCharacter (toZ b)) (map ToUint8 text).
Proof.
  unfold asciiCharacter.
  induction 1 as [|c text Hc _ [IH1 IH2]]; [split; [reflexivity|constructor]|].
  cbn [map]. rewrite IH1, toZ_ToUint8 by lia. split; [reflexivity|].
  constructor; [rewrite toZ_ToUint8; lia|exact IH2].
Qed.

Section RestrictedAlphabet.

Variable refused : Z -> bool.
Variable allowed : Z -> Prop.
Hypothesis allowed_accepted :
  forall characterCode, allowed characterCode -> refused characterCode = false.
Hypothesis allowed_ascii :
  forall characterCode, allowed characterCode -> asciiCharacter characterCode.

Variable encode : JSString -> Uint8Array.
Variable decode : Uint8Array -> JSString.
Hypothesis encode_ascii : encodesAscii encode.
Hypothesis decode_ascii : decodesAscii decode.

(** A setter: the test of the code units, and then the octets of the
    encoder. *)
Lemma restricted_setter (this : t) (text : JSString) :
  (Forall allowed text ->
   (_ <- checkCharacters refused text ;;
    Return (set_value this (encode text)))
   = Return (set_value this (map ToUint8 text)))
  /\ (Exists (fun characterCode => refused characterCode = true) text ->
      (_ <- checkCharacters refused text ;;
       Return (set_value this (encode text)))
      = Throw ASN1CharactersError).
Proof.
  split; intros H.
  - rewrite checkCharacters_accepts
      by (refine (Forall_impl _ _ H); exact allowed_accepted).
    cbn [bind]. rewrite encode_ascii; [reflexivity|].
    refine (Forall_impl _ _ H). exact allowed_ascii.
  - rewrite checkCharacters_refuses by assumption. reflexivity.
Qed.

(** A getter: the octets of [deconstruct], decoded and tested. *)
Lemma restricted_getter (this : t) :
  construction this = primitive ->
  Forall (fun b => asciiCharacter (toZ b)) (value this) ->
  (Forall (fun b => allowed (toZ b)) (value this) ->
   (valueBytes <- deconstruct this ;;
    let ret := decode valueBytes in
    _ <- checkCharacters refused ret ;; Return ret)
   = Return (map toZ (value this)))
  /\ (Exists (fun b => refused (toZ b) = true) (value this) ->
      (valueBytes <- deconstruct this ;;
       let ret := decode valueBytes in
       _ <- checkCharacters refused ret ;; Return ret)
      = Throw ASN1CharactersError).
Proof.
  intros Hp Hascii. rewrite deconstruct_primitive by assumption. cbn [bind].
  cbv zeta. rewrite decode_ascii by assumption. split; intros H.
  - rewrite checkCharacters_accepts; [reflexivity|].
    apply Forall_map. refine (Forall_impl _ _ H). intros b. apply allowed_accepted.
  - rewrite checkCharacters_refuses; [reflexivity|].
    apply Exists_map. exact H.
Qed.

(** The getter after the setter. *)
Lemma restricted_roundtrip (this : t) (text : JSString) :
  construction this = primitive ->
  Forall allowed text ->
  (valueBytes <- deconstruct (set_value this (map ToUint8 text)) ;;
   let ret := decode valueBytes in
   _ <- checkCharacters refused ret ;; Return ret)
  = Return text.
Proof.
  intros Hp Htext.
  assert (Hascii : Forall asciiCharacter text)
    by (refine (Forall_impl _ _ Htext); exact allowed_ascii).
  destruct (map_toZ_ToUint8 text Hascii) as [Hback Hoctets].
  rewrite (proj1 (restricted_getter (set_value this (map ToUint8 text)) Hp Hoctets)).
  - cbn [set_value value]. rewrite Hback. reflexivity.
  - cbn [set_value value]. apply Forall_map.
    refine (Forall_impl _ _ (Forall_and Htext Hascii)).
    intros c [Hc Ha]. unfold asciiCharacter in Ha. rewrite toZ_ToUint8 by lia. exact Hc.
Qed.

End RestrictedAlphabet.

Lemma numeric_refused (characterCode : Z) :
  (numericCharacter characterCode ->
   negb (((characterCode >=? 0x30) && (characterCode <=? 0x39))
         || (characterCode =? 0x20)) = false)
  /\ (~ numericCharacter characterCode ->
      negb (((characterCode >=? 0x30) && (characterCode <=? 0x39))
            || (characterCode =? 0x20)) = true).
Proof.
  unfold numericCharacter.
  destruct (Z.geb_spec characterCode 0x30), (Z.leb_spec characterCode 0x39),
    (Z.eqb_spec characterCode 0x20); cbn [andb orb negb]; split; intros Hc;
    try reflexivity; exfalso; lia.
Qed.

(** X19: the [numericString] setter and getter, for an encoder and a decoder
    that take ASCII for what it is.  The setter stores a string of digits
    and spaces, one octet for each character, and throws
    [ASN1CharactersError] on a string with another character; on a primitive
    element the getter returns, after the setter, the string given; and it
    throws [ASN1CharactersError] on a primitive element whose value, in
    ASCII, holds another character. *)
Theorem numericString_codec (encode : JSString -> Uint8Array)
    (decode : Uint8Array -> JSString) (this : t) :
  encodesAscii encode ->
  decodesAscii decode ->
  (forall text : JSString,
      Forall numericCharacter text ->
      set_numericString encode this text
      = Return (set_value this (map ToUint8 text)))
  /\ (forall text : JSString,
         Exists (fun characterCode => ~ numericCharacter characterCode) text ->
         set_numericString encode this text = Throw ASN1CharactersError)
  /\ (forall text : JSString,
         construction this = primitive ->
         Forall numericCharacter text ->
         (e <- set_numericString encode this text ;; numericString decode e)
         = Return text)
  /\ (construction this = primitive ->
      Forall (fun b => asciiCharacter (toZ b)) (value this) ->
      Exists (fun b => ~ numericCharacter (toZ b)) (value this) ->
      numericString decode this = Throw ASN1CharactersError).
Proof.
  intros Henc Hdec.
  assert (Hacc : forall c, numericCharacter c ->
             negb (((c >=? 0x30) && (c <=? 0x39)) || (c =? 0x20)) = false)
    by (intros c; apply numeric_refused).
  assert (Hascii : forall c, numericCharacter c -> asciiCharacter c)
    by (unfold numericCharacter, asciiCharacter; intros c Hc; lia).
  split; [|split; [|split]].
  - intros text Htext.
    exact (proj1 (restricted_setter _ _ Hacc Hascii encode Henc this text) Htext).
  - intros text Htext.
    apply (proj2 (restricted_setter _ _ Hacc Hascii encode Henc this text)).
    refine (Exists_impl _ _ Htext). intros c. apply numeric_refused.
  - intros text Hp Htext.
    rewrite (proj1 (restricted_setter _ _ Hacc Hascii encode Henc this text) Htext
             : set_numericString encode this text = _).
    cbn [bind].
    exact (restricted_roundtrip _ _ Hacc Hascii decode Hdec this text Hp Htext).
  - intros Hp Hoctets Hbad.
    apply (proj2 (restricted_getter _ _ Hacc decode Hdec this Hp Hoctets)).
    refine (Exists_impl _ _ Hbad). intros b. apply numeric_refused.
Qed.

Lemma numericString_codec_witness :
  (e <- set_numericString (map ToUint8) (new universal primitive 18) [0x31; 0x20; 0x39] ;;
   numericString (map toZ) e)
  = Return [0x31; 0x20; 0x39]
  /\ set_numericString (map ToUint8) (new universal primitive 18) [0x31; 0x41]
     = Throw ASN1CharactersError.
Proof.
  assert (Henc : encodesAscii (map ToUint8)) by (intros text _; reflexivity).
  assert (Hdec : decodesAscii (map toZ)) by (intros octets _; reflexivity).
  destruct (numericString_codec (map ToUint8) (map toZ) (new universal primitive 18)
              Henc Hdec) as (_ & Hthrow & Hround & _).
  split.
  - apply Hround; [reflexivity|].
    repeat constructor; unfold numericCharacter; lia.
  - apply Hthrow. right. left. unfold numericCharacter. lia.
Defined.

Lemma graphic_refused (characterCode : Z) :
  (graphicCharacter characterCode ->
   (characterCode <? 0x20) || (characterCode >? 0x7E) = false)
  /\ (~ graphicCharacter characterCode ->
      (characterCode <? 0x20) || (characterCode >? 0x7E) = true).
Proof.
  unfold graphicCharacter.
  destruct (Z.ltb_spec characterCode 0x20), (Z.gtb_spec characterCode 0x7E);
    cbn [orb]; split; intros Hc; try reflexivity; exfalso; lia.
Qed.

(** X20: the [graphicString] setter and getter, which [visibleString] and
    [objectDescriptor] call, for an encoder and a decoder that take ASCII for
    what it is.  The setter stores a string of printing characters of ASCII,
    from the space to the tilde, one octet for each character, and throws
    [ASN1CharactersError] on a string with another character; on a primitive
    element the getter returns, after the setter, the string given, and so
    under the two other names; and it throws [ASN1CharactersError] on a
    primitive element whose value, in ASCII, holds another character. *)
Theorem graphicString_codec (encode : JSString -> Uint8Array)
    (decode : Uint8Array -> JSString) (this : t) :
  encodesAscii encode ->
  decodesAscii decode ->
  (forall text : JSString,
      Forall graphicCharacter text ->
      set_graphicString encode this text
      = Return (set_value this (map ToUint8 text)))
  /\ (forall text : JSString,
         Exists (fun characterCode => ~ graphicCharacter characterCode) text ->
         set_graphicString encode this text = Throw ASN1CharactersError)
  /\ (forall text : JSString,
         construction this = primitive ->
         Forall graphicCharacter text ->
         (e <- set_graphicString encode this text ;; graphicString decode e)
         = Return text
         /\ (e <- set_visibleString encode this text ;; visibleString decode e)
            = Return text
         /\ (e <- set_objectDescriptor encode this text ;; objectDescriptor decode e)
            = Return text)
  /\ (construction this = primitive ->
      Forall (fun b => asciiCharacter (toZ b)) (value this) ->
      Exists (fun b => ~ graphicCharacter (toZ b)) (value this) ->
      graphicString decode this = Throw ASN1CharactersError).
Proof.
  intros Henc Hdec.
  assert (Hacc : forall c, graphicCharacter c ->
             (c <? 0x20) || (c >? 0x7E) = false)
    by (intros c; apply graphic_refused).
  assert (Hascii : forall c, graphicCharacter c -> asciiCharacter c)
    by (unfold graphicCharacter, asciiCharacter; intros c Hc; lia).
  split; [|split; [|split]].
  - intros text Htext.
    exact (proj1 (restricted_setter _ _ Hacc Hascii encode Henc this text) Htext).
  - intros text Htext.
    apply (proj2 (restricted_setter _ _ Hacc Hascii encode Henc this text)).
    refine (Exists_impl _ _ Htext). intros c. apply graphic_refused.
  - intros text Hp Htext.
    unfold set_visibleString, visibleString, set_objectDescriptor, objectDescriptor.
    rewrite (proj1 (restricted_setter _ _ Hacc Hascii encode Henc this text) Htext
             : set_graphicString encode this text = _).
    cbn [bind].
    pose proof (restricted_roundtrip _ _ Hacc Hascii decode Hdec this text Hp Htext)
      as Hround.
    repeat split; exact Hround.
  - intros Hp Hoctets Hbad.
    apply (proj2 (restricted_getter _ _ Hacc decode Hdec this Hp Hoctets)).
    refine (Exists_impl _ _ Hbad). intros b. apply graphic_refused.
Qed.

Lemma graphicString_codec_witness :
  (e <- set_objectDescriptor (map ToUint8) (new universal primitive 7) [0x41; 0x7E] ;;
   objectDescriptor (map toZ) e)
  = Return [0x41; 0x7E]
  /\ set_graphicString (map ToUint8) (new universal primitive 25) [0x41; 0x0A]
     = Throw ASN1CharactersError.
Proof.
  assert (Henc : encodesAscii (map ToUint8)) by (intros text _; reflexivity).
  assert (Hdec : decodesAscii (map toZ)) by (intros octets _; reflexivity).
  split.
  - destruct (graphicString_codec (map ToUint8) (map toZ) (new universal primitive 7)
                Henc Hdec) as (_ & _ & Hround & _).
    apply Hround; [reflexivity|].
    repeat constructor; unfold graphicCharacter; lia.
  - destruct (graphicString_codec (map ToUint8) (map toZ) (new universal primitive 25)
                Henc Hdec) as (_ & Hthrow & _).
    apply Hthrow. right. left. unfold graphicCharacter. lia.
Defined.

(** X21: the [generalString] setter and getter, for an encoder and a decoder
    that take ASCII for what it is.  The setter stores a string of ASCII, one
    octet for each character, and throws [ASN1CharactersError] on a string
    with a code unit above 7F; on a primitive element the getter returns,
    after the setter, the string given. *)
Theorem generalString_codec (encode : JSString -> Uint8Array)
    (decode : Uint8Array -> JSString) (this : t) :
  encodesAscii encode ->
  decodesAscii decode ->
  (forall text : JSString,
      Forall asciiCharacter text ->
      set_generalString encode this text
      = Return (set_value this (map ToUint8 text)))
  /\ (forall text : JSString,
         Exists (fun characterCode => 0x7F < characterCode) text ->
         set_generalString encode this text = Throw ASN1CharactersError)
  /\ (forall text : JSString,
         construction this = primitive ->
         Forall asciiCharacter text ->
         (e <- set_generalString encode this text ;; generalString decode e)
         = Return text).
Proof.
  intros Henc Hdec.
  assert (Hacc : forall c, asciiCharacter c -> (c >? 0x7F) = false).
  { unfold asciiCharacter. intros c Hc. destruct (Z.gtb_spec c 0x7F); [lia|reflexivity]. }
  assert (Hascii : forall c, asciiCharacter c -> asciiCharacter c) by (intros c Hc; exact Hc).
  split; [|split].
  - intros text Htext.
    exact (proj1 (restricted_setter _ _ Hacc Hascii encode Henc this text) Htext).
  - intros text Htext.
    apply (proj2 (restricted_setter _ _ Hacc Hascii encode Henc this text)).
    refine (Exists_impl _ _ Htext). intros c Hc.
    destruct (Z.gtb_spec c 0x7F); [reflexivity|lia].
  - intros text Hp Htext.
    rewrite (proj1 (restricted_setter _ _ Hacc Hascii encode Henc this text) Htext
             : set_generalString encode this text = _).
    cbn [bind].
    exact (restricted_roundtrip _ _ Hacc Hascii decode Hdec this text Hp Htext).
Qed.

Lemma generalString_codec_witness :
  (e <- set_generalString (map ToUint8) (new universal primitive 27) [0x09; 0x41] ;;
   generalString (map toZ) e)
  = Return [0x09; 0x41]
  /\ set_generalString (map ToUint8) (new universal primitive 27) [0x41; 0xE9]
     = Throw ASN1CharactersError.
Proof.
  assert (Henc : encodesAscii (map ToUint8)) by (intros text _; reflexivity).
  assert (Hdec : decodesAscii (map toZ)) by (intros octets _; reflexivity).
  destruct (generalString_codec (map ToUint8) (map toZ) (new universal primitive 27)
              Henc Hdec) as (_ & Hthrow & Hround).
  split.
  - apply Hround; [reflexivity|].
    repeat constructor; unfold asciiCharacter; lia.
  - apply Hthrow. right. left. lia.
Defined.

(** ** Indefinite lengths without a marker *)

(** The scan of the children over encodings one after the other, none of
    them an end-of-contents marker, up to the end of the buffer. *)
Lemma scanChildren_to_the_end (this : t) (rounds : nat) (pre : Uint8Array)
    (children : list t) :
  recursionCount this + 1 <= nestingRecursionLimit ->
  Forall readsBack children ->
  Forall (fun c => isEndOfContent c = false) children ->
  (length children < rounds)%nat ->
  scanChildren (fromBytes this) rounds
    (pre ++ concat (map (toBytes definite) children)) (len pre)
  = Return (len pre + len (concat (map (toBytes definite) children))).
Proof.
  intros Hrc Hcs. revert pre rounds.
  induction Hcs as [|c cs Hc _ IH]; intros pre rounds Hne Hr;
    (destruct rounds as [|rounds]; [cbn [length] in Hr; lia|]);
    cbn [scanChildren map concat].
  - rewrite app_nil_r. destruct (Z.ltb_spec (len pre) (len pre)); [lia|].
    rewrite len_nil. f_equal. lia.
  - pose proof (len_toBytes definite c) as H2.
    pose proof (len_nonneg (concat (map (toBytes definite) cs))).
    destruct (Z.ltb_spec (len pre)
                (len (pre ++ toBytes definite c ++ concat (map (toBytes definite) cs))))
      as [_|Hge]; [|rewrite !len_app in Hge; lia].
    rewrite sliceFrom_app.
    rewrite fromBytes_toBytes_decodedAt by assumption.
    cbn [bind].
    change (isEndOfContent (decodedAt (recursionCount this) c))
      with (isEndOfContent c).
    rewrite (Forall_inv Hne).
    specialize (IH (pre ++ toBytes definite c) rounds (Forall_inv_tail Hne)).
    rewrite len_app, <- app_assoc in IH.
    rewrite IH by (cbn [length] in Hr; lia).
    rewrite len_app. f_equal. lia.
Qed.

(** X22: an indefinite length with no end-of-contents marker.  Past accepted
    identifier octets of constructed form, when the contents are encodings
    one after the other, in definite form and none of them of an element
    that passes for a marker, and the buffer ends with them, [fromBytes]
    looks at the last two octets of the buffer: if one of them is not zero
    it throws [ASN1TruncationError]; if both are zero, as when the value of
    the last child ends with two zero octets, it returns, and the value has
    lost these two octets. *)
Theorem fromBytes_indefinite_without_marker (this : t) (pre : Uint8Array)
    (id : byte) (n : Z) (children : list t) (contents : Uint8Array) (a b : byte) :
  identifierOctets pre id n ->
  constructionOf id = constructed ->
  recursionCount this + 2 <= nestingRecursionLimit ->
  Forall readsBack children ->
  Forall (fun c => isEndOfContent c = false) children ->
  concat (map (toBytes definite) children) = contents ++ [a; b] ->
  (a <> x00 \/ b <> x00 ->
   fromBytes this (pre ++ x80 :: contents ++ [a; b]) = Throw ASN1TruncationError)
  /\ (a = x00 /\ b = x00 ->
      fromBytes this (pre ++ x80 :: contents ++ [a; b])
      = Return (mkElement (recursionCount this) (classOf id) constructed n
                  contents,
                len pre + 1 + len contents + 2)).
Proof.
  intros Hid Hk Hrc Hcs Hne Hcontents.
  rewrite (fromBytes_identifier this pre _ id n) by (try assumption; try lia; discriminate).
  unfold decodeLengthAndValue. rewrite at_app_here. cbn [num].
  change (Z.land (toZ x80) 128 =? 128) with true.
  change (negb (Z.land (toZ x80) 127 =? 0)) with false. cbn iota.
  rewrite Hk.
  cbn [construction ASN1Construction_eqb constructionCode Z.eqb Pos.eqb negb].
  change (pre ++ x80 :: contents ++ [a; b])
    with (pre ++ [x80] ++ contents ++ [a; b]).
  rewrite (app_assoc pre [x80]).
  assert (Hpre : len pre + 1 = len (pre ++ [x80]))
    by (rewrite len_app, len_cons, len_nil; lia).
  rewrite Hpre. set (hdr := pre ++ [x80]).
  rewrite <- Hcontents.
  rewrite scanChildren_to_the_end; try assumption.
  - cbn [bind]. rewrite Hcontents.
    pose proof (len_nonneg hdr). pose proof (len_nonneg contents).
    assert (Hlen : len (hdr ++ contents ++ [a; b]) = len hdr + len (contents ++ [a; b]))
      by apply len_app.
    rewrite Hlen, Z.eqb_refl. cbn [andb].
    assert (Hl : len (contents ++ [a; b]) = len contents + 2)
      by (rewrite len_app, !len_cons, len_nil; lia).
    assert (Hlast : at_ (hdr ++ contents ++ [a; b])
                      (len hdr + len (contents ++ [a; b]) - 1) = Some b).
    { rewrite (app_assoc hdr contents).
      replace (len hdr + len (contents ++ [a; b]) - 1)
        with (len (hdr ++ contents) + 1) by (rewrite len_app; lia).
      rewrite at_app_r by lia. reflexivity. }
    assert (Hprev : at_ (hdr ++ contents ++ [a; b])
                      (len hdr + len (contents ++ [a; b]) - 2) = Some a).
    { rewrite (app_assoc hdr contents).
      replace (len hdr + len (contents ++ [a; b]) - 2)
        with (len (hdr ++ contents) + 0) by (rewrite len_app; lia).
      rewrite at_app_r by lia. reflexivity. }
    rewrite Hlast, Hprev. cbn [strictEq]. split.
    + intros Hnz.
      assert (Hor : negb (toZ b =? 0) || negb (toZ a =? 0) = true).
      { apply orb_true_iff.
        destruct Hnz as [Ha|Hb]; [right|left]; apply negb_true_iff, Z.eqb_neq;
          intros E; [apply Ha|apply Hb]; apply toZ_inj; rewrite E; reflexivity. }
      rewrite Hor. reflexivity.
    + intros [-> ->]. change (toZ x00 =? 0) with true. cbn [negb orb].
      replace (len hdr + len (contents ++ [x00; x00]) - 2)
        with (len hdr + len contents) by lia.
      rewrite slice_app_mid. f_equal. f_equal. lia.
  - change (recursionCount (newChild this)) with (recursionCount this + 1). lia.
  - pose proof (length_concat_toBytes definite children).
    rewrite !length_app. lia.
Qed.

Lemma fromBytes_indefinite_without_marker_witness :
  fromBytes new_default [x24; x80; x04; x01; xaa] = Throw ASN1TruncationError
  /\ fromBytes new_default [x24; x80; x04; x02; x00; x00]
     = Return (mkElement 0 universal constructed 4 [x04; x02], 6).
Proof.
  assert (Hid : identifierOctets [x24] x24 4).
  { left. split; [intros H; vm_compute in H; discriminate|]. split; reflexivity. }
  assert (Hrc : recursionCount new_default + 2 <= nestingRecursionLimit)
    by (vm_compute; discriminate).
  assert (Hreads : forall v, len v < 65536 ->
             Forall readsBack [mkElement 0 universal primitive 4 v]).
  { intros v Hv. constructor; [|constructor].
    split; [left; cbn [tagNumber]; lia|exact Hv]. }
  split.
  - refine (proj1 (fromBytes_indefinite_without_marker new_default [x24] x24 4
                     [mkElement 0 universal primitive 4 [xaa]] [x04] x01 xaa
                     Hid eq_refl Hrc (Hreads _ _) _ eq_refl) _).
    + vm_compute. reflexivity.
    + repeat constructor.
    + left. discriminate.
  - refine (proj2 (fromBytes_indefinite_without_marker new_default [x24] x24 4
                     [mkElement 0 universal primitive 4 [x00; x00]] [x04; x02] x00 x00
                     Hid eq_refl Hrc (Hreads _ _) _ eq_refl) _).
    + vm_compute. reflexivity.
    + repeat constructor.
    + split; reflexivity.
Defined.

(** ** UniversalString under CER *)



(** ** Edges of the getters *)

(** X24: the [bitString] getter on a primitive element, whatever its value.
    It throws [ASN1Error] on an empty value, on a value of one octet that is
    not zero, and on a first octet above 7; otherwise it returns the bits of
    the octets after the first, most significant bit first, without the last
    ones, as many as the first octet says, whatever these are. *)
Theorem bitString_primitive_getter (this : t) :
  construction this = primitive ->
  (value this = [] -> bitString this = Throw ASN1Error)
  /\ (forall unused : byte,
         value this = [unused] -> unused <> x00 ->
         bitString this = Throw ASN1Error)
  /\ (forall (unused : byte) (payload : Uint8Array),
         value this = unused :: payload -> 7 < toZ unused ->
         bitString this = Throw ASN1Error)
  /\ (forall (unused : byte) (payload : Uint8Array),
         value this = unused :: payload ->
         toZ unused <= 7 ->
         (payload = [] -> unused = x00) ->
         bitString this
         = Return (firstn (Z.to_nat (8 * len payload - toZ unused))
                     (flat_map bitsOfOctet payload))
         /\ len (firstn (Z.to_nat (8 * len payload - toZ unused))
                   (flat_map bitsOfOctet payload))
            = 8 * len payload - toZ unused).
Proof.
  intros Hp. rewrite bitString_unfold, Hp. split; [|split; [|split]].
  - intros Hv. unfold bitString_primitive. rewrite Hv. reflexivity.
  - intros unused Hv Hnz. unfold bitString_primitive. rewrite Hv.
    change (len [unused] =? 0) with false. change (len [unused] =? 1) with true.
    change (at_ [unused] 0) with (Some unused). cbn [strictEq andb].
    destruct (Z.eqb_spec (toZ unused) 0) as [E|_]; [|reflexivity].
    exfalso. apply Hnz, toZ_inj. rewrite E. reflexivity.
  - intros unused payload Hv Hbig. unfold bitString_primitive. rewrite Hv.
    rewrite len_cons. pose proof (len_nonneg payload).
    destruct (Z.eqb_spec (len payload + 1) 0); [lia|].
    change (at_ (unused :: payload) 0) with (Some unused). cbn [strictEq num].
    destruct ((len payload + 1 =? 1) && negb (toZ unused =? 0)); [reflexivity|].
    destruct (Z.gtb_spec (toZ unused) 7); [reflexivity|lia].
  - intros unused payload Hv Hsmall Hone.
    pose proof (toZ_range unused). pose proof (len_nonneg payload).
    assert (Hlen : 0 <= 8 * len payload - toZ unused).
    { destruct payload as [|b payload].
      - rewrite (Hone eq_refl). cbn. lia.
      - rewrite len_cons. pose proof (len_nonneg payload). lia. }
    split.
    + apply bitString_primitive_value; [assumption|lia|assumption].
    + unfold len at 1. rewrite length_firstn, length_flat_map_bitsOfOctet.
      unfold len in *. lia.
Qed.

Lemma bitString_primitive_getter_witness :
  bitString (mkElement 0 universal primitive 3 []) = Throw ASN1Error
  /\ bitString (mkElement 0 universal primitive 3 [x03]) = Throw ASN1Error
  /\ bitString (mkElement 0 universal primitive 3 [x08; xff]) = Throw ASN1Error
  /\ bitString (mkElement 0 universal primitive 3 [x05; xff])
     = Return [true; true; true].
Proof.
  split; [|split; [|split]].
  - apply (proj1 (bitString_primitive_getter (mkElement 0 universal primitive 3 [])
                    eq_refl)).
    reflexivity.
  - apply (proj1 (proj2 (bitString_primitive_getter
                           (mkElement 0 universal primitive 3 [x03]) eq_refl))
             x03); [reflexivity|discriminate].
  - apply (proj1 (proj2 (proj2 (bitString_primitive_getter
                                  (mkElement 0 universal primitive 3 [x08; xff])
                                  eq_refl)))
             x08 [xff]); [reflexivity|vm_compute; reflexivity].
  - apply (proj2 (proj2 (proj2 (bitString_primitive_getter
                                  (mkElement 0 universal primitive 3 [x05; xff])
                                  eq_refl)))
             x05 [xff]); [reflexivity|vm_compute; discriminate|discriminate].
Defined.

Lemma fromBytes_recursionCount (this e : t) (bytes : Uint8Array) (n : Z) :
  fromBytes this bytes = Return (e, n) -> recursionCount e = recursionCount this.
Proof.
  intros Hr. apply fromBytes_Return_inv in Hr.
  destruct Hr as (id & rest & tn & cursor & -> & Hlen & Htag & Hr).
  assert (Hc : 1 <= cursor < len (id :: rest)).
  { destruct Htag as [(_ & _ & ->)|(_ & Hl)]; [lia|].
    apply decodeLongTagNumber_bounds in Hl; [lia|assumption]. }
  apply decodeLengthAndValue_Return_inv in Hr;
    [|intros b; apply fromBytes_at_consumes|assumption].
  destruct Hr as (a & b & -> & _). reflexivity.
Qed.

Lemma decodeElements_Return_inv (rounds : nat) (value : Uint8Array) (i : Z)
    (elements : list t) :
  0 <= i <= len value ->
  decodeElements rounds value i = Return elements ->
  Forall (fun e => recursionCount e = initialRecursionCount) elements
  /\ 2 * len elements <= len value - i.
Proof.
  revert i elements. induction rounds as [|rounds IH]; intros i elements Hi;
    cbn [decodeElements]; [discriminate|].
  destruct (Z.ltb_spec i (len value));
    [|intros [= <-]; split; [apply Forall_nil|unfold len in *; cbn [length]; lia]].
  destruct (fromBytes new_default (sliceFrom value i)) as [[next n]| |] eqn:E;
    cbn [bind]; try discriminate.
  pose proof (fromBytes_consumed _ _ _ _ E) as Hn.
  rewrite len_sliceFrom in Hn by lia.
  pose proof (fromBytes_recursionCount _ _ _ _ E) as Hrc.
  destruct (decodeElements rounds value (i + n)) as [rest| |] eqn:Er;
    cbn [bind]; try discriminate.
  intros [= <-]. destruct (IH (i + n) rest) as [IH1 IH2]; [lia|exact Er|].
  split; [constructor; assumption|]. rewrite len_cons. lia.
Qed.

(** X25: what the [sequence] getter returns, on any element.  It throws
    [ASN1ConstructionError] on a primitive element and returns no element
    for an empty value; whenever it returns, the element is constructed, the
    elements returned number at most half the octets of the value, and each
    of them has the recursion count of a fresh element, whatever the
    recursion count of the element itself. *)
Theorem sequence_frame (this : t) :
  (construction this = primitive -> sequence this = Throw ASN1ConstructionError)
  /\ (construction this = constructed -> value this = [] ->
      sequence this = Return [])
  /\ (forall elements : list t,
         sequence this = Return elements ->
         construction this = constructed
         /\ 2 * len elements <= len (value this)
         /\ Forall (fun e => recursionCount e = initialRecursionCount) elements).
Proof.
  unfold sequence. split; [|split].
  - intros Hp. rewrite Hp. reflexivity.
  - intros Hk Hv. rewrite Hk, Hv. reflexivity.
  - intros elements. destruct (construction this); [discriminate|].
    cbn [ASN1Construction_eqb constructionCode Z.eqb negb].
    pose proof (len_nonneg (value this)).
    destruct (Z.eqb_spec (len (value this)) 0).
    + intros [= <-]. split; [reflexivity|].
      split; [unfold len in *; cbn [length]; lia|apply Forall_nil].
    + intros Hr. apply decodeElements_Return_inv in Hr; [|lia].
      destruct Hr as [Hrc Hlen]. split; [reflexivity|]. split; [lia|exact Hrc].
Qed.

Lemma sequence_frame_witness :
  sequence (mkElement 4 universal primitive 16 [x05; x00])
  = Throw ASN1ConstructionError
  /\ sequence (mkElement 4 universal constructed 16 []) = Return []
  /\ Forall (fun e => recursionCount e = initialRecursionCount)
       [mkElement 0 universal primitive 5 []; mkElement 0 universal primitive 5 []].
Proof.
  destruct (sequence_frame (mkElement 4 universal primitive 16 [x05; x00]))
    as (Hp & _ & _).
  destruct (sequence_frame (mkElement 4 universal constructed 16 []))
    as (_ & He & _).
  destruct (sequence_frame (mkElement 4 universal constructed 16 [x05; x00; x05; x00]))
    as (_ & _ & Hr).
  split; [apply Hp; reflexivity|]. split; [apply He; reflexivity|].
  apply (Hr [mkElement 0 universal primitive 5 []; mkElement 0 universal primitive 5 []]).
  reflexivity.
Defined.

(** * The typed setters *)

Lemma store_two (pre post : Uint8Array) (b0 b1 : byte) (k v0 v1 : Z) :
  k = len pre ->
  store (store (pre ++ b0 :: b1 :: post) k v0) (k + 1) v1
  = pre ++ [ToUint8 v0; ToUint8 v1] ++ post.
Proof.
  intros Hk. rewrite (store_here pre) by assumption.
  change (pre ++ ToUint8 v0 :: b1 :: post)
    with (pre ++ [ToUint8 v0] ++ b1 :: post).
  rewrite app_assoc, (store_here (pre ++ [ToUint8 v0]))
    by (rewrite len_app, len_cons, len_nil; lia).
  rewrite <- app_assoc. reflexivity.
Qed.

(** The loop of the [bmpString] setter, while [i << 1] is [2 * i]. *)
Lemma storeBMP_ucs2 (text : JSString) (i : Z) (pre : Uint8Array) :
  len pre = 2 * i ->
  0 <= i ->
  i + len text <= 2 ^ 30 ->
  Forall (fun charCode => 0 <= charCode < 65536) text ->
  storeBMP text i (pre ++ repeat x00 (2 * length text))
  = pre ++ flat_map ucs2 text.
Proof.
  intros Hpre Hi Hlen Htext. revert i pre Hpre Hi Hlen.
  induction Htext as [|c cs Hc _ IH]; intros i pre Hpre Hi Hlen.
  - reflexivity.
  - rewrite len_cons in Hlen. pose proof (len_nonneg cs).
    cbn [storeBMP flat_map].
    replace (2 * length (c :: cs))%nat with (2 + 2 * length cs)%nat
      by (cbn [length]; lia).
    cbn [repeat Nat.add].
    rewrite (shl_small i 1) by lia.
    rewrite store_two by lia.
    rewrite !ushr_small by lia.
    change [ToUint8 (c / 2 ^ 8); ToUint8 c] with (ucs2 c).
    rewrite app_assoc, (IH (i + 1) (pre ++ ucs2 c)).
    + rewrite <- app_assoc. reflexivity.
    + rewrite len_app. change (len (ucs2 c)) with 2. lia.
    + lia.
    + lia.
Qed.

Lemma set_bmpString_ucs2 (this : t) (text : JSString) :
  len text < 2 ^ 30 ->
  Forall (fun charCode => 0 <= charCode < 65536) text ->
  set_bmpString this text = Return (set_value this (flat_map ucs2 text)).
Proof.
  intros Hlen Htext. unfold set_bmpString, newUint8Array.
  pose proof (len_nonneg text).
  rewrite (shl_small (len text) 1) by lia.
  destruct (Z.ltb_spec (len text * 2 ^ 1) 0); [lia|]. cbn [bind].
  replace (Z.to_nat (len text * 2 ^ 1)) with (2 * length text)%nat
    by (unfold len; lia).
  do 2 f_equal. apply (storeBMP_ucs2 text 0 []); try assumption;
    try reflexivity; lia.
Qed.

(** A setter that checks the characters and then stores their encoding. *)
Lemma checked_setter (refused : Z -> bool) (encode : JSString -> Uint8Array)
    (this after : t) (text : JSString) :
  (_ <- checkCharacters refused text ;; Return (set_value this (encode text)))
  = Return after ->
  valueOnly this after /\ value after = encode text.
Proof.
  destruct (checkCharacters refused text); cbn [bind]; try discriminate.
  intros [= <-]. repeat split.
Qed.

(** C10: the typed setters of the primitive types assign the value octets
    only: whenever one of them returns, the tag class, the tag number, the
    construction and the recursion count of the element are what they were,
    and the value is what the setter computes from its argument.  So on a
    constructed element, reading [boolean] back after setting it throws
    [ASN1ConstructionError]. *)
Theorem setters_assign_value_only (this : t) (encode : JSString -> Uint8Array)
    (toFixed : number -> Z -> JSString) :
  (forall v : bool,
      valueOnly this (set_boolean this v)
      /\ value (set_boolean this v) = [if v then xff else x00])
  /\ (forall v : Uint8Array,
         valueOnly this (set_octetString this v)
         /\ value (set_octetString this v) = v
         /\ valueOnly this (set_teletexString this v)
         /\ value (set_teletexString this v) = v
         /\ valueOnly this (set_videotexString this v)
         /\ value (set_videotexString this v) = v)
  /\ (forall bits : list bool,
         valueOnly this (set_bitString this bits)
         /\ (len bits < 2 ^ 32 ->
             exists (unused : byte) (payload : Uint8Array),
               value (set_bitString this bits) = unused :: payload
               /\ 0 <= toZ unused <= 7
               /\ 8 * len payload - toZ unused = len bits
               /\ firstn (length bits) (flat_map bitsOfOctet payload) = bits))
  /\ (forall text : JSString,
         valueOnly this (set_utf8String encode this text)
         /\ value (set_utf8String encode this text) = encode text
         /\ valueOnly this (set_ia5String encode this text)
         /\ value (set_ia5String encode this text) = encode text)
  /\ (forall (text : JSString) (after : t),
         set_numericString encode this text = Return after
         \/ set_printableString encode this text = Return after
         \/ set_graphicString encode this text = Return after
         \/ set_visibleString encode this text = Return after
         \/ set_objectDescriptor encode this text = Return after
         \/ set_generalString encode this text = Return after ->
         valueOnly this after /\ value after = encode text)
  /\ (forall x : number,
         valueOnly this (set_real encode toFixed this x)
         /\ value (set_real encode toFixed this x)
            = match x with
              | SpecFloat.S754_zero _ => []
              | SpecFloat.S754_nan => [x42]
              | SpecFloat.S754_infinity false => [x40]
              | SpecFloat.S754_infinity true => [x41]
              | SpecFloat.S754_finite _ _ _ => encode (3 :: toFixed x 7)
              end)
  /\ (forall date : Date,
         valueOnly this (set_utcTime encode this date)
         /\ value (set_utcTime encode this date) = encode (utcString date)
         /\ valueOnly this (set_generalizedTime encode this date)
         /\ value (set_generalizedTime encode this date)
            = encode (timeString date))
  /\ (forall (text : JSString) (after : t),
         set_universalString this text = Return after
         \/ set_bmpString this text = Return after ->
         valueOnly this after)
  /\ (forall text : JSString,
         Forall (fun charCode => 0 <= charCode < 65536) text ->
         (len text < 2 ^ 29 ->
          set_universalString this text
          = Return (set_value this (flat_map ucs4 text)))
         /\ (len text < 2 ^ 30 ->
             set_bmpString this text
             = Return (set_value this (flat_map ucs2 text))))
  /\ (construction this = constructed ->
      forall v : bool,
        boolean (set_boolean this v) = Throw ASN1ConstructionError).
Proof.
  split; [intros []; repeat split|].
  split; [intros v; repeat split|].
  split.
  { intros bits. split; [repeat split|]. apply value_set_bitString. }
  split; [intros text; repeat split|].
  split.
  { intros text after
      [H | [H | [H | [H | [H | H]]]]];
      exact (checked_setter _ encode this after text H). }
  split.
  { intros x. split; [|destruct x as [[]|[]| |[] m e]; reflexivity].
    unfold set_real. split_ifs; repeat split. }
  split; [intros date; repeat split|].
  split.
  { intros text after [H|H].
    - unfold set_universalString in H.
      destruct (universalOctets text); cbn [bind] in H; try discriminate.
      injection H as <-. repeat split.
    - unfold set_bmpString in H.
      destruct (newUint8Array _); cbn [bind] in H; try discriminate.
      injection H as <-. repeat split. }
  split.
  { intros text Htext. split; intros Hlen.
    - unfold set_universalString. rewrite universalOctets_ucs4 by assumption.
      reflexivity.
    - apply set_bmpString_ucs2; assumption. }
  intros H v. unfold boolean. cbn [set_boolean set_value construction]. rewrite H.
  reflexivity.
Qed.

Lemma setters_assign_value_only_witness :
  boolean (set_boolean (new universal constructed 16) true)
  = Throw ASN1ConstructionError
  /\ (valueOnly (new application constructed 18)
        (set_value (new application constructed 18) [x31; x32])
      /\ value (set_value (new application constructed 18) [x31; x32])
         = map ToUint8 [0x31; 0x32])
  /\ set_universalString (new universal constructed 28) [0x41; 0x20AC]
     = Return
         (set_value (new universal constructed 28)
            [x00; x00; x00; x41; x00; x00; x20; xac])
  /\ set_bmpString (new universal constructed 30) [0x41; 0x20AC]
     = Return (set_value (new universal constructed 30) [x00; x41; x20; xac]).
Proof.
  split; [|split; [|split]].
  - destruct (setters_assign_value_only (new universal constructed 16)
                (map ToUint8) (fun _ _ => []))
      as (_ & _ & _ & _ & _ & _ & _ & _ & _ & Hboolean).
    apply Hboolean. reflexivity.
  - destruct (setters_assign_value_only (new application constructed 18)
                (map ToUint8) (fun _ _ => []))
      as (_ & _ & _ & _ & Hchecked & _).
    apply (Hchecked [0x31; 0x32]). left. reflexivity.
  - destruct (setters_assign_value_only (new universal constructed 28)
                (map ToUint8) (fun _ _ => []))
      as (_ & _ & _ & _ & _ & _ & _ & _ & Hwide & _).
    apply (Hwide [0x41; 0x20AC]).
    + repeat constructor; lia.
    + vm_compute. reflexivity.
  - destruct (setters_assign_value_only (new universal constructed 30)
                (map ToUint8) (fun _ _ => []))
      as (_ & _ & _ & _ & _ & _ & _ & _ & Hwide & _).
    apply (Hwide [0x41; 0x20AC]).
    + repeat constructor; lia.
    + vm_compute. reflexivity.
Defined.
